(** * pyiceberg.table: scan planning, schema evolution and commit payloads

    A shallow embedding of [python/pyiceberg/table/__init__.py]:
    the [Transaction] staging area, [Table], [TableScan] / [DataScan]
    (snapshot resolution, manifest retention, delete matching) and the
    [UpdateSchema] builder with its [_ApplyChanges] visitor.

    Python objects become records, [Dict] becomes [gmap], [Set[int]] becomes
    [gset], exceptions become values of [exn] carried by [result], and
    methods that mutate [self] become state transformers that return the final
    state next to the result, also when they raise. *)

From Stdlib Require Import ZArith Ascii String List Bool Lia.
From stdpp Require Import base option list gmap strings.

Local Open Scope string_scope.
Local Open Scope list_scope.
Local Open Scope Z_scope.

(** ** Types of [pyiceberg.types] *)

Inductive PrimitiveType :=
| BooleanType | IntegerType | LongType | FloatType | DoubleType
| DecimalType (precision scale : Z)
| DateType | TimeType | TimestampType | TimestamptzType
| StringType | UUIDType | BinaryType
| FixedType (length : Z).

Inductive IcebergType :=
| Primitive (p : PrimitiveType)
| StructType (fields : list NestedField)
| ListType (element_id : Z) (element_type : IcebergType) (element_required : bool)
| MapType (key_id : Z) (key_type : IcebergType)
          (value_id : Z) (value_type : IcebergType) (value_required : bool)
with NestedField :=
| mkNestedField (field_id : Z) (name : string) (field_type : IcebergType)
                (required : bool) (doc : option string).

Definition field_id (f : NestedField) : Z :=
  match f with mkNestedField i _ _ _ _ => i end.
Definition name (f : NestedField) : string :=
  match f with mkNestedField _ n _ _ _ => n end.
Definition field_type (f : NestedField) : IcebergType :=
  match f with mkNestedField _ _ t _ _ => t end.
Definition required (f : NestedField) : bool :=
  match f with mkNestedField _ _ _ r _ => r end.
Definition doc (f : NestedField) : option string :=
  match f with mkNestedField _ _ _ _ d => d end.

(** [NestedField.optional] is the negation of [required]. *)
Definition optional (f : NestedField) : bool := negb (required f).

Definition is_struct (t : IcebergType) : bool :=
  match t with StructType _ => true | _ => false end.

(** [ListType.element_field] and [MapType.key_field] / [value_field]. *)
Definition element_field (i : Z) (t : IcebergType) (r : bool) : NestedField :=
  mkNestedField i "element" t r None.
Definition key_field (i : Z) (t : IcebergType) : NestedField :=
  mkNestedField i "key" t true None.
Definition value_field (i : Z) (t : IcebergType) (r : bool) : NestedField :=
  mkNestedField i "value" t r None.

#[global] Instance PrimitiveType_eq_dec : EqDecision PrimitiveType.
Proof. solve_decision. Defined.

(** [==] on types and fields is structural. *)
Fixpoint IcebergType_eq_dec (a b : IcebergType) {struct a} : {a = b} + {a <> b}
with NestedField_eq_dec (a b : NestedField) {struct a} : {a = b} + {a <> b}.
Proof.
  - destruct a as [p|fs|i t r|ki kt vi vt vr], b as [p'|fs'|i' t' r'|ki' kt' vi' vt' vr'];
      try (right; discriminate).
    + destruct (decide (p = p')) as [->|N]; [left; reflexivity|right; congruence].
    + assert (D : {fs = fs'} + {fs <> fs'}).
      { revert fs'. induction fs as [|f fs IH]; intros [|f' fs'];
          try (left; reflexivity); try (right; discriminate).
        destruct (NestedField_eq_dec f f') as [->|N]; [|right; congruence].
        destruct (IH fs') as [->|N]; [left; reflexivity|right; congruence]. }
      destruct D as [->|N]; [left; reflexivity|right; congruence].
    + destruct (Z.eq_dec i i') as [->|N]; [|right; congruence].
      destruct (IcebergType_eq_dec t t') as [->|N]; [|right; congruence].
      destruct (Bool.bool_dec r r') as [->|N]; [left; reflexivity|right; congruence].
    + destruct (Z.eq_dec ki ki') as [->|N]; [|right; congruence].
      destruct (IcebergType_eq_dec kt kt') as [->|N]; [|right; congruence].
      destruct (Z.eq_dec vi vi') as [->|N]; [|right; congruence].
      destruct (IcebergType_eq_dec vt vt') as [->|N]; [|right; congruence].
      destruct (Bool.bool_dec vr vr') as [->|N]; [left; reflexivity|right; congruence].
  - destruct a as [i n t r d], b as [i' n' t' r' d'].
    destruct (Z.eq_dec i i') as [->|N]; [|right; congruence].
    destruct (String.string_dec n n') as [->|N]; [|right; congruence].
    destruct (IcebergType_eq_dec t t') as [->|N]; [|right; congruence].
    destruct (Bool.bool_dec r r') as [->|N]; [|right; congruence].
    destruct (decide (d = d')) as [->|N]; [left; reflexivity|right; congruence].
Defined.

#[global] Instance IcebergType_EqDecision : EqDecision IcebergType := IcebergType_eq_dec.
#[global] Instance NestedField_EqDecision : EqDecision NestedField := NestedField_eq_dec.

(** ** Schemas, snapshots and table metadata *)

Module Schema.
Record t := mk {
  fields : list NestedField;
  schema_id : Z;
  identifier_field_ids : list Z
}.
End Schema.

Record PartitionField := mkPartitionField {
  source_id : Z;
  partition_field_id : Z;
  transform : string;
  partition_field_name : string
}.

Record PartitionSpec := mkPartitionSpec {
  spec_id : Z;
  spec_fields : list PartitionField
}.

Record SortOrder := mkSortOrder {
  order_id : Z;
  sort_fields : list Z
}.

Module Snapshot.
Record t := mk {
  snapshot_id : Z;
  parent_snapshot_id : option Z;
  sequence_number : option Z;
  schema_id : option Z;
  manifest_list : string
}.
End Snapshot.

Inductive SnapshotRefType := TAG | BRANCH.

Record SnapshotRef := mkSnapshotRef {
  ref_snapshot_id : Z;
  snapshot_ref_type : SnapshotRefType
}.

Record TableMetadata := mkTableMetadata {
  table_uuid : string;
  format_version : Z;
  location : string;
  last_column_id : Z;
  schemas : list Schema.t;
  current_schema_id : Z;
  partition_specs : list PartitionSpec;
  default_spec_id : Z;
  snapshots : list Snapshot.t;
  current_snapshot_id : option Z;
  refs : gmap string SnapshotRef;
  properties : gmap string string
}.

(** The [identifier], [metadata] and [metadata_location] attributes of
    [Table]; [io] and [catalog] are the collaborators of the interfaces
    below. *)
Record Table := mkTable {
  identifier : list string;
  metadata : TableMetadata;
  metadata_location : string
}.

(** ** Table updates and requirements *)

Inductive TableUpdateAction :=
| upgrade_format_version | add_schema | set_current_schema | add_spec
| set_default_spec | add_sort_order | set_default_sort_order | add_snapshot
| set_snapshot_ref | remove_snapshots | remove_snapshot_ref | set_location
| set_properties | remove_properties.

Inductive TableUpdate :=
| UpgradeFormatVersionUpdate (format_version : Z)
| AddSchemaUpdate (schema_ : Schema.t) (last_column_id : Z)
| SetCurrentSchemaUpdate (schema_id : Z)
| AddPartitionSpecUpdate (spec : PartitionSpec)
| SetDefaultSpecUpdate (spec_id : Z)
| AddSortOrderUpdate (sort_order : SortOrder)
| SetDefaultSortOrderUpdate (sort_order_id : Z)
| AddSnapshotUpdate (snapshot : Snapshot.t)
| SetSnapshotRefUpdate (ref_name : string) (type : SnapshotRefType) (snapshot_id : Z)
    (max_age_ref_ms max_snapshot_age_ms min_snapshots_to_keep : Z)
| RemoveSnapshotsUpdate (snapshot_ids : list Z)
| RemoveSnapshotRefUpdate (ref_name : string)
| SetLocationUpdate (location : string)
| SetPropertiesUpdate (updates : gmap string string)
| RemovePropertiesUpdate (removals : list string).

(** [type(update)]: every subclass of [TableUpdate] fixes its own action, so
    the class of an update is identified by that action. *)
Definition update_type (u : TableUpdate) : TableUpdateAction :=
  match u with
  | UpgradeFormatVersionUpdate _ => upgrade_format_version
  | AddSchemaUpdate _ _ => add_schema
  | SetCurrentSchemaUpdate _ => set_current_schema
  | AddPartitionSpecUpdate _ => add_spec
  | SetDefaultSpecUpdate _ => set_default_spec
  | AddSortOrderUpdate _ => add_sort_order
  | SetDefaultSortOrderUpdate _ => set_default_sort_order
  | AddSnapshotUpdate _ => add_snapshot
  | SetSnapshotRefUpdate _ _ _ _ _ _ => set_snapshot_ref
  | RemoveSnapshotsUpdate _ => remove_snapshots
  | RemoveSnapshotRefUpdate _ => remove_snapshot_ref
  | SetLocationUpdate _ => set_location
  | SetPropertiesUpdate _ => set_properties
  | RemovePropertiesUpdate _ => remove_properties
  end.

Inductive TableRequirement :=
| AssertCreate
| AssertTableUUID (uuid : string)
| AssertRefSnapshotId (ref : string) (snapshot_id : Z)
| AssertLastAssignedFieldId (last_assigned_field_id : Z)
| AssertCurrentSchemaId (current_schema_id : Z)
| AssertLastAssignedPartitionId (last_assigned_partition_id : Z)
| AssertDefaultSpecId (default_spec_id : Z)
| AssertDefaultSortOrderId (default_sort_order_id : Z).

(** The [type] literal of each requirement class; it identifies
    [type(requirement)]. *)
Inductive RequirementType :=
| assert_create | assert_table_uuid | assert_ref_snapshot_id
| assert_last_assigned_field_id | assert_current_schema_id
| assert_last_assigned_partition_id | assert_default_spec_id
| assert_default_sort_order_id.

Definition requirement_type (r : TableRequirement) : RequirementType :=
  match r with
  | AssertCreate => assert_create
  | AssertTableUUID _ => assert_table_uuid
  | AssertRefSnapshotId _ _ => assert_ref_snapshot_id
  | AssertLastAssignedFieldId _ => assert_last_assigned_field_id
  | AssertCurrentSchemaId _ => assert_current_schema_id
  | AssertLastAssignedPartitionId _ => assert_last_assigned_partition_id
  | AssertDefaultSpecId _ => assert_default_spec_id
  | AssertDefaultSortOrderId _ => assert_default_sort_order_id
  end.

#[global] Instance TableUpdateAction_eq_dec : EqDecision TableUpdateAction.
Proof. solve_decision. Defined.
#[global] Instance RequirementType_eq_dec : EqDecision RequirementType.
Proof. solve_decision. Defined.

Record CommitTableRequest := mkCommitTableRequest {
  request_identifier : list string;
  request_requirements : list TableRequirement;
  request_updates : list TableUpdate
}.

Record CommitTableResponse := mkCommitTableResponse {
  response_metadata : TableMetadata;
  response_metadata_location : string
}.

(** ** Exceptions

    Every failure of the module is a Python exception.  The constructor gives
    the exception class, the [message] the text it is raised with (one
    constructor per message template of the source). *)

Inductive message :=
| UpdatesNotUnique (duplicate : TableUpdateAction)
| RequirementsNotUnique (duplicate : RequirementType)
| CannotOverrideRef (snapshot_id : Z)
| CannotScanUnknownRef (name : string)
| EqualityDeletesNotSupported
| UnknownDataFileContent (content : Z)
| AmbiguousName (name : string)
| CannotAddRequiredColumn (path : string)
| CannotAddToNonStruct (name parent : string)
| NameAlreadyExists (full_name : string)
| CannotDeleteWithAdditions (full_name : string)
| CannotDeleteWithUpdates (full_name : string)
| CannotRenameDeleted (full_name : string)
| CannotChangeNullability (name : string)
| CannotUpdateDeleted (name : string)
| CouldNotApplyChanges
| CannotAddIdentifierField (name : string)
| CannotAddFieldsToNonStruct (field : Z)
| CannotDeleteElementType
| CannotAddFieldsToMapKeys
| CannotDeleteValueType
| UnknownOperation
| CouldNotFindField (name : string)
| TupleExpectedAtMostOneArgument (got : nat)
| TupleOfModelAttributes
| UnexpectedKeywordArgument (keyword : string)
| MissingKey (key : Z)
| MinOfEmptySequence
| MissingArgument (parameter : string).

Inductive exn :=
| ValueError (m : message)
| TypeError (m : message)
| KeyError (m : message)
| IndexError
| StopIteration
| ValidationError (m : message).

Inductive result (A : Type) :=
| Ok (a : A)
| Raise (e : exn).
Arguments Ok {A} a.
Arguments Raise {A} e.

#[global] Instance result_ret : MRet result := fun A a => Ok a.
#[global] Instance result_bind : MBind result := fun A B f r =>
  match r with Ok a => f a | Raise e => Raise e end.

(** [try: r except ValueError: h]. *)
Definition except_ValueError {A} (r : result A) (h : result A) : result A :=
  match r with
  | Raise (ValueError _) => h
  | _ => r
  end.

(** Methods that mutate [self]: the final state is returned next to the
    result, so that the state after a raised exception stays observable. *)
Definition StateExn (S A : Type) : Type := S -> S * result A.

Definition ret_st {S A} (a : A) : StateExn S A := fun s => (s, Ok a).
Definition bind_st {S A B} (m : StateExn S A) (f : A -> StateExn S B) : StateExn S B :=
  fun s => match m s with
           | (s', Ok a) => f a s'
           | (s', Raise e) => (s', Raise e)
           end.
Definition get_st {S} : StateExn S S := fun s => (s, Ok s).
Definition lift_st {S A} (r : result A) : StateExn S A := fun s => (s, r).

Declare Scope stexn_scope.
Delimit Scope stexn_scope with stexn.
Notation "x <- m ;; k" := (bind_st m (fun x => k))
  (at level 100, m at next level, right associativity) : stexn_scope.
Notation "m ;;; k" := (bind_st m (fun _ => k))
  (at level 100, right associativity) : stexn_scope.

(** ** The catalog interface

    [Catalog._commit_table] belongs to the catalog client.  It is kept
    abstract: a transition of the catalog's own state that answers with new
    metadata or raises. *)
Class Catalog := {
  CatalogState : Type;
  _commit_table : CommitTableRequest -> CatalogState -> CatalogState * result CommitTableResponse
}.

Module Transaction.
Section WithCatalog.
Context `{Catalog}.

(** The table object a transaction refers to, the catalog behind it, and
    the requests the catalog has been sent so far. *)
Record World := mkWorld {
  table : Table;
  catalog : CatalogState;
  commit_calls : list CommitTableRequest
}.

Record t := mk {
  _updates : list TableUpdate;
  _requirements : list TableRequirement
}.

(** [Transaction(table)] *)
Definition init : t := mk [] [].

(** The [for] loop of [_append_updates]: every new update is compared with
    the updates staged before the call. *)
Fixpoint check_new_updates (staged new_updates : list TableUpdate) : result unit :=
  match new_updates with
  | [] => Ok tt
  | new_update :: rest =>
      let type_new_update := update_type new_update in
      if existsb (fun update => bool_decide (update_type update = type_new_update)) staged
      then Raise (ValueError (UpdatesNotUnique type_new_update))
      else check_new_updates staged rest
  end.

Definition _append_updates (new_updates : list TableUpdate) : StateExn t unit :=
  fun self =>
    match check_new_updates (_updates self) new_updates with
    | Raise e => (self, Raise e)
    | Ok _ => (mk (_updates self ++ new_updates) (_requirements self), Ok tt)
    end.

(** The [for] loop of [_append_requirements].  The generator iterates over
    the staged requirements with the variable [update], but its condition
    compares the type of [requirement], the new requirement of the outer
    loop, with [type_new_requirement]. *)
Fixpoint check_new_requirements (staged new_requirements : list TableRequirement)
  : result unit :=
  match new_requirements with
  | [] => Ok tt
  | requirement :: rest =>
      let type_new_requirement := requirement_type requirement in
      if existsb (fun update : TableRequirement =>
                    bool_decide (requirement_type requirement = type_new_requirement)) staged
      then Raise (ValueError (RequirementsNotUnique type_new_requirement))
      else check_new_requirements staged rest
  end.

Definition _append_requirements (new_requirements : list TableRequirement)
  : StateExn t unit :=
  fun self =>
    match check_new_requirements (_requirements self) new_requirements with
    | Raise e => (self, Raise e)
    | Ok _ => (mk (_updates self) (_requirements self ++ new_requirements), Ok tt)
    end.

Definition set_properties (updates : gmap string string) : StateExn t unit :=
  _append_updates [SetPropertiesUpdate updates].

Definition remove_properties (removals : list string) : StateExn t unit :=
  _append_updates [RemovePropertiesUpdate removals].

(** [Table._do_commit]: the request goes to the catalog; the table takes
    the metadata of the response. *)
Definition _do_commit (request : CommitTableRequest) : StateExn World unit :=
  fun w =>
    match _commit_table request (catalog w) with
    | (c', Raise e) => (mkWorld (table w) c' (commit_calls w ++ [request]), Raise e)
    | (c', Ok response) =>
        (mkWorld (mkTable (identifier (table w))
                          (response_metadata response)
                          (response_metadata_location response))
                 c' (commit_calls w ++ [request]),
         Ok tt)
    end.

(** [identifier[1:]] strips the catalog name. *)
Definition commit_request (self : t) (tbl : Table) : CommitTableRequest :=
  mkCommitTableRequest (tail (identifier tbl)) (_requirements self) (_updates self).

Definition commit_transaction (self : t) : StateExn World Table :=
  (if (0 <? Z.of_nat (List.length (_updates self)))
   then (w <- get_st ;;
         _do_commit (commit_request self (table w)) ;;;
         w' <- get_st ;;
         ret_st (table w'))
   else (w <- get_st ;; ret_st (table w)))%stexn.

End WithCatalog.
End Transaction.

(** ** Manifests ([pyiceberg.manifest]) *)

(** [DataFileContent] and [ManifestContent] are integer-valued enumerations;
    the planner compares the stored integer with the members below and has a
    branch of its own for any other value. *)
Module DataFileContent.
Definition DATA : Z := 0.
Definition POSITION_DELETES : Z := 1.
Definition EQUALITY_DELETES : Z := 2.
End DataFileContent.

Module ManifestContent.
Definition DATA : Z := 0.
Definition DELETES : Z := 1.
End ManifestContent.

Definition INITIAL_SEQUENCE_NUMBER : Z := 0.

Module DataFile.
Record t := mk {
  content : Z;
  file_path : string;
  partition : list string;
  record_count : Z;
  file_size_in_bytes : Z;
  lower_bounds : gmap Z string;
  upper_bounds : gmap Z string
}.
End DataFile.

Module ManifestEntry.
Record t := mk {
  status : Z;
  data_sequence_number : option Z;
  data_file : DataFile.t
}.
End ManifestEntry.

Module ManifestFile.
Record t := mk {
  manifest_path : string;
  partition_spec_id : Z;
  content : Z;
  sequence_number : option Z;
  min_sequence_number : option Z
}.
End ManifestFile.

#[global] Instance DataFile_eq_dec : EqDecision DataFile.t.
Proof. solve_decision. Defined.

(** [x or INITIAL_SEQUENCE_NUMBER] for an optional integer: [None] and [0]
    are the falsy values, and both give [0]. *)
Definition or_initial (x : option Z) : Z :=
  match x with
  | Some v => if v =? 0 then INITIAL_SEQUENCE_NUMBER else v
  | None => INITIAL_SEQUENCE_NUMBER
  end.

(** Truthiness of an [Optional[int]]: [if x:] and [if v := x:]. *)
Definition truthy (x : option Z) : option Z :=
  match x with
  | Some v => if v =? 0 then None else Some v
  | None => None
  end.

(** ** Collaborators of the planner *)

(** [pyiceberg.expressions]: the predicate model and its parser. *)
Class Expressions := {
  BooleanExpression : Type;
  AlwaysTrue : BooleanExpression;
  And : BooleanExpression -> BooleanExpression -> BooleanExpression;
  EqualTo : string -> string -> BooleanExpression;
  parse : string -> result BooleanExpression
}.

(** Manifest reading and the evaluators of [pyiceberg.expressions.visitors].
    Reads are taken to succeed; evaluators are functions of their
    constructor arguments. *)
Class Planning `{Expressions} := {
  manifests : Snapshot.t -> list ManifestFile.t;
  fetch_manifest_entry : ManifestFile.t -> list ManifestEntry.t;
  inclusive_projection :
    Schema.t -> PartitionSpec -> BooleanExpression -> BooleanExpression;
  manifest_evaluator :
    PartitionSpec -> Schema.t -> BooleanExpression -> bool -> ManifestFile.t -> bool;
  partition_type : PartitionSpec -> Schema.t -> list NestedField;
  expression_evaluator : Schema.t -> BooleanExpression -> bool -> list string -> bool;
  _InclusiveMetricsEvaluator :
    Schema.t -> BooleanExpression -> bool -> bool -> DataFile.t -> bool;
  POSITIONAL_DELETE_SCHEMA : Schema.t
}.

(** ** [Table] lookups *)

(** [Table.schema]: [next(...)] raises [StopIteration] when no schema has the
    current id. *)
Definition Table_schema (self : Table) : result Schema.t :=
  match List.find (fun schema => Schema.schema_id schema =? current_schema_id (metadata self))
                  (schemas (metadata self)) with
  | Some schema => Ok schema
  | None => Raise StopIteration
  end.

(** [Table.specs()[spec_id]]: the dictionary comprehension keeps the last
    spec of each id. *)
Definition Table_specs (self : Table) : gmap Z PartitionSpec :=
  fold_left (fun m spec => <[spec_id spec := spec]> m) (partition_specs (metadata self)) ∅.

Definition Table_specs_getitem (self : Table) (spec_id : Z) : result PartitionSpec :=
  match Table_specs self !! spec_id with
  | Some spec => Ok spec
  | None => Raise (KeyError (MissingKey spec_id))
  end.

Definition snapshot_by_id (self : Table) (id : Z) : option Snapshot.t :=
  List.find (fun snapshot => Snapshot.snapshot_id snapshot =? id) (snapshots (metadata self)).

Definition current_snapshot (self : Table) : option Snapshot.t :=
  match truthy (current_snapshot_id (metadata self)) with
  | Some id => snapshot_by_id self id
  | None => None
  end.

(** A [SnapshotRef] is a model object and hence truthy. *)
Definition snapshot_by_name (self : Table) (name : string) : option Snapshot.t :=
  match refs (metadata self) !! name with
  | Some ref => snapshot_by_id self (ref_snapshot_id ref)
  | None => None
  end.

(** ** [sortedcontainers.SortedList] with a key

    The list is kept in ascending key order.  [add] places a new element to
    the right of the elements with an equal key; [bisect_right] is the
    upper-bound search: the index after the last element whose key is at
    most the key of the probe. *)
Module SortedList.
Section Keyed.
Context {A : Type} (key : A -> Z).

Fixpoint add (x : A) (l : list A) : list A :=
  match l with
  | [] => [x]
  | y :: l' => if key y <=? key x then y :: add x l' else x :: l
  end.

Fixpoint bisect_right (l : list A) (x : A) : nat :=
  match l with
  | [] => O
  | y :: l' => if key y <=? key x then S (bisect_right l' x) else O
  end.

Inductive sorted : list A -> Prop :=
| sorted_nil : sorted []
| sorted_cons x l : Forall (fun y => key x <= key y) l -> sorted l -> sorted (x :: l).
End Keyed.
End SortedList.

(** ** Table scans *)

Module FileScanTask.
Record t := mk {
  file : DataFile.t;
  delete_files : list DataFile.t;
  start : Z;
  length : Z
}.

(** [FileScanTask(data_file, delete_files=...)]: [start] and [length] are
    left to their defaults. *)
Definition init (data_file : DataFile.t) (delete_files : list DataFile.t) : t :=
  mk data_file delete_files 0 (DataFile.file_size_in_bytes data_file).
End FileScanTask.

(** [_min_data_file_sequence_number]: [min] raises [ValueError] on an empty
    generator, which the function turns into the initial sequence number. *)
Definition py_min (l : list Z) : result Z :=
  match l with
  | [] => Raise (ValueError MinOfEmptySequence)
  | x :: l' => Ok (fold_left Z.min l' x)
  end.

Definition _min_data_file_sequence_number (manifests : list ManifestFile.t) : Z :=
  match py_min (map (fun manifest => or_initial (ManifestFile.min_sequence_number manifest))
                    (List.filter (fun manifest =>
                                    ManifestFile.content manifest =? ManifestContent.DATA)
                                 manifests)) with
  | Ok m => m
  | Raise _ => INITIAL_SEQUENCE_NUMBER
  end.

(** [DataScan._check_sequence_number] *)
Definition _check_sequence_number (min_data_sequence_number : Z) (manifest : ManifestFile.t)
  : bool :=
  (ManifestFile.content manifest =? ManifestContent.DATA)
  || ((ManifestFile.content manifest =? ManifestContent.DELETES)
      && (min_data_sequence_number <=? or_initial (ManifestFile.sequence_number manifest))).

(** The key of the sorted list of positional deletes in [plan_files]. *)
Definition sequence_key (entry : ManifestEntry.t) : Z :=
  or_initial (ManifestEntry.data_sequence_number entry).

(** The loop of [plan_files] that sorts the surviving entries by content. *)
Fixpoint partition_entries (entries data_entries positional_delete_entries : list ManifestEntry.t)
  : result (list ManifestEntry.t * list ManifestEntry.t) :=
  match entries with
  | [] => Ok (data_entries, positional_delete_entries)
  | manifest_entry :: rest =>
      let data_file := ManifestEntry.data_file manifest_entry in
      if DataFile.content data_file =? DataFileContent.DATA then
        partition_entries rest (data_entries ++ [manifest_entry]) positional_delete_entries
      else if DataFile.content data_file =? DataFileContent.POSITION_DELETES then
        partition_entries rest data_entries
          (SortedList.add sequence_key manifest_entry positional_delete_entries)
      else if DataFile.content data_file =? DataFileContent.EQUALITY_DELETES then
        Raise (ValueError EqualityDeletesNotSupported)
      else
        Raise (ValueError (UnknownDataFileContent (DataFile.content data_file)))
  end.

(** The entries the loop accepts, and the error it raises for any other. *)
Definition supported_content (entry : ManifestEntry.t) : bool :=
  (DataFile.content (ManifestEntry.data_file entry) =? DataFileContent.DATA)
  || (DataFile.content (ManifestEntry.data_file entry) =? DataFileContent.POSITION_DELETES).

Definition content_error (entry : ManifestEntry.t) : exn :=
  if DataFile.content (ManifestEntry.data_file entry) =? DataFileContent.EQUALITY_DELETES
  then ValueError EqualityDeletesNotSupported
  else ValueError (UnknownDataFileContent (DataFile.content (ManifestEntry.data_file entry))).

(** A Python set of data files.  [DataFile.__eq__] and [DataFile.__hash__]
    of [pyiceberg.manifest] go by [file_path], so the set holds one file per
    path: adding a file whose path is in the set leaves the set as it is.
    The list keeps the files in the order in which they were added. *)
Module DataFileSet.
Definition same_path (a b : DataFile.t) : bool :=
  String.eqb (DataFile.file_path a) (DataFile.file_path b).

Definition add (files : list DataFile.t) (file : DataFile.t) : list DataFile.t :=
  if existsb (same_path file) files then files else files ++ [file].

(** A set comprehension over [files]: the files are added one by one. *)
Definition of_list (files : list DataFile.t) : list DataFile.t :=
  fold_left add files [].
End DataFileSet.

Section Planner.
Context `{Planning}.

Definition _open_manifest (manifest : ManifestFile.t)
    (partition_filter metrics_evaluator : DataFile.t -> bool) : list ManifestEntry.t :=
  List.filter (fun manifest_entry =>
                 partition_filter (ManifestEntry.data_file manifest_entry)
                 && metrics_evaluator (ManifestEntry.data_file manifest_entry))
              (fetch_manifest_entry manifest).

(** The evaluator of [_match_deletes_to_datafile]; [case_sensitive] and
    [include_empty_files] are left to their defaults. *)
Definition file_path_evaluator (data_entry : ManifestEntry.t) : DataFile.t -> bool :=
  _InclusiveMetricsEvaluator POSITIONAL_DELETE_SCHEMA
    (EqualTo "file_path" (DataFile.file_path (ManifestEntry.data_file data_entry)))
    true false.

(** The result is a Python set of data files, built by a comprehension over
    the relevant entries in their sorted order. *)
Definition _match_deletes_to_datafile (data_entry : ManifestEntry.t)
    (positional_delete_entries : list ManifestEntry.t) : list DataFile.t :=
  let relevant_entries :=
    drop (SortedList.bisect_right sequence_key positional_delete_entries data_entry)
         positional_delete_entries in
  if (0 <? Z.of_nat (List.length relevant_entries)) then
    let evaluator := file_path_evaluator data_entry in
    DataFileSet.of_list
      (map ManifestEntry.data_file
           (List.filter (fun positional_delete_entry =>
                           evaluator (ManifestEntry.data_file positional_delete_entry))
                        relevant_entries))
  else [].

(** The entries of the manifests of a snapshot. *)
Definition read_from (snapshot : Snapshot.t) (entry : ManifestEntry.t) : Prop :=
  exists manifest, manifest ∈ manifests snapshot /\ entry ∈ fetch_manifest_entry manifest.
End Planner.

Module TableScan.
Section WithExpressions.
Context `{Expressions}.

(** The instance dictionary of a scan: the seven attributes set by
    [__init__], and [partition_filters] once the cached property of
    [DataScan] has been read ([None] while it has not). *)
Record t := mk {
  table : Table;
  row_filter : BooleanExpression;
  selected_fields : list string;
  case_sensitive : bool;
  snapshot_id : option Z;
  options : gmap string string;
  limit : option Z;
  partition_filters : option (gmap Z BooleanExpression)
}.

(** [Union[str, BooleanExpression]] *)
Inductive RowFilter :=
| FilterString (s : string)
| FilterExpression (e : BooleanExpression).

Definition _parse_row_filter (expr : RowFilter) : result BooleanExpression :=
  match expr with
  | FilterString s => parse s
  | FilterExpression e => Ok e
  end.

(** Keyword arguments of a constructor call: the parameters of [__init__]
    by name, and the names of any other keywords. *)
Record Keywords := mkKeywords {
  kw_table : option Table;
  kw_row_filter : option RowFilter;
  kw_selected_fields : option (list string);
  kw_case_sensitive : option bool;
  kw_snapshot_id : option (option Z);
  kw_options : option (gmap string string);
  kw_limit : option (option Z);
  kw_other : list string
}.

(** [DataScan.__init__] with its defaults. *)
Definition __init__ (table : Table) (row_filter : RowFilter)
    (selected_fields : list string) (case_sensitive : bool) (snapshot_id : option Z)
    (options : gmap string string) (limit : option Z) : result t :=
  row_filter ← _parse_row_filter row_filter;
  Ok (mk table row_filter selected_fields case_sensitive snapshot_id options limit None).

(** Calling the class of the scan with keyword arguments: a keyword that
    is not a parameter of [__init__] is a [TypeError], and so is a missing
    [table]. *)
Definition construct (kwargs : Keywords) : result t :=
  match kw_other kwargs with
  | keyword :: _ => Raise (TypeError (UnexpectedKeywordArgument keyword))
  | [] =>
      match kw_table kwargs with
      | None => Raise (TypeError (MissingArgument "table"))
      | Some table =>
          __init__ table
            (default (FilterExpression AlwaysTrue) (kw_row_filter kwargs))
            (default ["*"] (kw_selected_fields kwargs))
            (default true (kw_case_sensitive kwargs))
            (default None (kw_snapshot_id kwargs))
            (default ∅ (kw_options kwargs))
            (default None (kw_limit kwargs))
      end
  end.

(** [self.__dict__] *)
Definition __dict__ (self : t) : Keywords :=
  mkKeywords (Some (table self)) (Some (FilterExpression (row_filter self)))
    (Some (selected_fields self)) (Some (case_sensitive self))
    (Some (snapshot_id self)) (Some (options self)) (Some (limit self))
    (match partition_filters self with
     | Some _ => ["partition_filters"]
     | None => []
     end).

Definition override {A} (a b : option A) : option A :=
  match b with Some _ => b | None => a end.

(** [{**a, **b}] *)
Definition merge (a b : Keywords) : Keywords :=
  mkKeywords (override (kw_table a) (kw_table b))
    (override (kw_row_filter a) (kw_row_filter b))
    (override (kw_selected_fields a) (kw_selected_fields b))
    (override (kw_case_sensitive a) (kw_case_sensitive b))
    (override (kw_snapshot_id a) (kw_snapshot_id b))
    (override (kw_options a) (kw_options b))
    (override (kw_limit a) (kw_limit b))
    (kw_other a ++ kw_other b).

(** [Table.scan] *)
Definition scan (table : Table) : result t :=
  __init__ table (FilterExpression AlwaysTrue) ["*"] true None ∅ None.

Definition update (self : t) (overrides : Keywords) : result t :=
  construct (merge (__dict__ self) overrides).

Definition snapshot (self : t) : option Snapshot.t :=
  match truthy (snapshot_id self) with
  | Some id => snapshot_by_id (table self) id
  | None => current_snapshot (table self)
  end.

Definition use_ref (self : t) (name : string) : result t :=
  match truthy (snapshot_id self) with
  | Some id => Raise (ValueError (CannotOverrideRef id))
  | None =>
      match snapshot_by_name (table self) name with
      | Some snapshot =>
          update self
            (mkKeywords None None None None (Some (Some (Snapshot.snapshot_id snapshot)))
                        None None [])
      | None => Raise (ValueError (CannotScanUnknownRef name))
      end
  end.

Definition filter (self : t) (expr : RowFilter) : result t :=
  parsed ← _parse_row_filter expr;
  update self
    (mkKeywords None (Some (FilterExpression (And (row_filter self) parsed)))
                None None None None None []).

Definition with_case_sensitive (self : t) (case_sensitive : bool) : result t :=
  update self (mkKeywords None None None (Some case_sensitive) None None None []).

End WithExpressions.
End TableScan.

Module DataScan.
Section WithPlanning.
Context `{Planning}.

Import TableScan.

Fixpoint filter_st {S A} (p : A -> StateExn S bool) (l : list A) : StateExn S (list A) :=
  match l with
  | [] => ret_st []
  | x :: l' =>
      (keep <- p x ;;
       rest <- filter_st p l' ;;
       ret_st (if keep : bool then x :: rest else rest))%stexn
  end.

Fixpoint map_st {S A B} (f : A -> StateExn S B) (l : list A) : StateExn S (list B) :=
  match l with
  | [] => ret_st []
  | x :: l' =>
      (y <- f x ;;
       rest <- map_st f l' ;;
       ret_st (y :: rest))%stexn
  end.

Definition _build_partition_projection (self : t) (spec_id : Z)
  : result BooleanExpression :=
  schema ← Table_schema (table self);
  spec ← Table_specs_getitem (table self) spec_id;
  Ok (inclusive_projection schema spec (row_filter self)).

(** [self.partition_filters[spec_id]].  Reading the cached property stores
    the dictionary in the instance before the key is looked up; a missing
    key is then computed and stored. *)
Definition partition_filters_getitem (spec_id : Z) : StateExn t BooleanExpression :=
  fun self =>
    let cache := default ∅ (partition_filters self) in
    let with_cache c :=
      mk (table self) (row_filter self) (selected_fields self) (case_sensitive self)
         (snapshot_id self) (options self) (limit self) (Some c) in
    match cache !! spec_id with
    | Some projected => (with_cache cache, Ok projected)
    | None =>
        match _build_partition_projection self spec_id with
        | Ok projected => (with_cache (<[spec_id := projected]> cache), Ok projected)
        | Raise e => (with_cache cache, Raise e)
        end
    end.

Definition _build_manifest_evaluator (spec_id : Z) : StateExn t (ManifestFile.t -> bool) :=
  (self <- get_st ;;
   spec <- lift_st (Table_specs_getitem (table self) spec_id) ;;
   schema <- lift_st (Table_schema (table self)) ;;
   partition_filter <- partition_filters_getitem spec_id ;;
   ret_st (manifest_evaluator spec schema partition_filter (case_sensitive self)))%stexn.

(** The partition schema, built from the fields of the partition type,
    has the default schema id and no identifier fields. *)
Definition _build_partition_evaluator (spec_id : Z) : StateExn t (DataFile.t -> bool) :=
  (self <- get_st ;;
   spec <- lift_st (Table_specs_getitem (table self) spec_id) ;;
   schema <- lift_st (Table_schema (table self)) ;;
   let partition_schema := Schema.mk (partition_type spec schema) 0 [] in
   partition_expr <- partition_filters_getitem spec_id ;;
   let evaluator :=
     expression_evaluator partition_schema partition_expr (case_sensitive self) in
   ret_st (fun data_file : DataFile.t => evaluator (DataFile.partition data_file)))%stexn.

(** Step 1 of [plan_files]: the manifests of the snapshot that pass the
    manifest evaluator of their partition spec.  The evaluators are kept
    per spec id in a dictionary local to the call; building one again gives
    the same function and leaves the scan as it is, so the dictionary is
    not represented. *)
Definition pruned_manifests (snapshot : Snapshot.t) : StateExn t (list ManifestFile.t) :=
  filter_st (fun manifest_file =>
               (evaluator <- _build_manifest_evaluator
                               (ManifestFile.partition_spec_id manifest_file) ;;
                ret_st (evaluator manifest_file))%stexn)
            (manifests snapshot).

(** The manifests handed to [_open_manifest]. *)
Definition retained_manifests (manifests : list ManifestFile.t) : list ManifestFile.t :=
  List.filter (_check_sequence_number (_min_data_file_sequence_number manifests)) manifests.

(** [executor.map] of [_open_manifest] over a list of manifests, chained:
    each manifest is opened with the partition evaluator of its spec id, and
    the entries follow the order of the manifests. *)
Definition opened_entries (to_open : list ManifestFile.t)
    (metrics_evaluator : DataFile.t -> bool) : StateExn t (list ManifestEntry.t) :=
  (opened <- map_st (fun manifest =>
                       (partition_evaluator <- _build_partition_evaluator
                                                 (ManifestFile.partition_spec_id manifest) ;;
                        ret_st (_open_manifest manifest partition_evaluator
                                               metrics_evaluator))%stexn)
                    to_open ;;
   ret_st (concat opened))%stexn.

(** The entries the [for] loop of [plan_files] iterates over: those of the
    manifests that pass [_check_sequence_number]. *)
Definition surviving_entries (manifests : list ManifestFile.t)
    (metrics_evaluator : DataFile.t -> bool) : StateExn t (list ManifestEntry.t) :=
  opened_entries (retained_manifests manifests) metrics_evaluator.

(** The final list comprehension of [plan_files]. *)
Definition tasks (data_entries positional_delete_entries : list ManifestEntry.t)
  : list FileScanTask.t :=
  map (fun data_entry =>
         FileScanTask.init (ManifestEntry.data_file data_entry)
           (_match_deletes_to_datafile data_entry positional_delete_entries))
      data_entries.

(** [metrics_evaluator] in [plan_files] *)
Definition metrics_evaluator (self : t) (schema : Schema.t) : DataFile.t -> bool :=
  _InclusiveMetricsEvaluator schema (row_filter self) (case_sensitive self)
    (bool_decide (options self !! "include_empty_files" = Some "true")).

Definition plan_files : StateExn t (list FileScanTask.t) :=
  (self <- get_st ;;
   match snapshot self with
   | None => ret_st []
   | Some snapshot =>
       manifests <- pruned_manifests snapshot ;;
       schema <- lift_st (Table_schema (table self)) ;;
       entries <- surviving_entries manifests (metrics_evaluator self schema) ;;
       partitioned <- lift_st (partition_entries entries [] []) ;;
       ret_st (tasks (fst partitioned) (snd partitioned))
   end)%stexn.

End WithPlanning.
End DataScan.

(** ** Schema evolution *)

Definition TABLE_ROOT_ID : Z := -1.

Inductive MoveOperation := First | Before | After.

Record Move := mkMove {
  move_field_id : Z;
  op : MoveOperation;
  other_field_id : option Z
}.

(** [pyiceberg.schema]: lookup by dotted name, the highest field id, the
    column names and the assignment of fresh ids.  [find_field] raises
    [ValueError] for an unknown name; [assign_fresh_schema_ids] takes the
    next free id and returns the id that is free afterwards. *)
Class SchemaEngine := {
  find_field : Schema.t -> string -> bool -> result NestedField;
  highest_field_id : Schema.t -> Z;
  column_names : Schema.t -> list string;
  assign_fresh_schema_ids : IcebergType -> Z -> IcebergType * Z
}.

(** Modelled from the spec: the safe promotions of section 4.F, [int] to
    [long], [float] to [double], and [decimal(p, s)] to [decimal(p', s)] with
    [p' >= p].  The builder has no check of this kind; the definition states
    what the spec asks of [update_column]. *)
Definition spec_safe_promotion (current requested : IcebergType) : bool :=
  match current, requested with
  | Primitive IntegerType, Primitive LongType => true
  | Primitive FloatType, Primitive DoubleType => true
  | Primitive (DecimalType p s), Primitive (DecimalType p' s') => (s =? s') && (p <=? p')
  | _, _ => false
  end.

(** [Union[str, Tuple[str, ...]]] *)
Inductive Path :=
| PathString (s : string)
| PathTuple (parts : list string).

(** [(path,) if isinstance(path, str) else path] *)
Definition as_tuple (path : Path) : list string :=
  match path with
  | PathString s => [s]
  | PathTuple parts => parts
  end.

(** [".".join(path)] *)
Definition join (parts : list string) : string := String.concat "." parts.

(** ["." in s] *)
Fixpoint contains_dot (s : string) : bool :=
  match s with
  | EmptyString => false
  | String c s' => if Ascii.eqb c "."%char then true else contains_dot s'
  end.

(** [l.remove(x)] on a list that contains [x]: the first occurrence goes. *)
Fixpoint remove_first (x : string) (l : list string) : list string :=
  match l with
  | [] => []
  | y :: l' => if String.eqb y x then l' else y :: remove_first x l'
  end.

(** The built-in [tuple] applied to the unpacked fields [tuple(f1, ..., fn)]:
    it takes at most one argument.  With a single field as argument the
    result holds the attributes of that field rather than fields, and no
    caller can build a struct from it. *)
Definition tuple_of_arguments (arguments : list NestedField) : result (list NestedField) :=
  match arguments with
  | [] => Ok []
  | [_] => Raise (ValidationError TupleOfModelAttributes)
  | _ => Raise (TypeError (TupleExpectedAtMostOneArgument (List.length arguments)))
  end.

Definition _add_fields (fields : list NestedField) (adds : option (list NestedField))
  : result (option (list NestedField)) :=
  let adds := default [] adds in
  if (Z.of_nat (List.length adds) =? 0) then Ok None
  else new_fields ← tuple_of_arguments (fields ++ adds); Ok (Some new_fields).

(** [next(i for i, field in enumerate(reordered) if field.field_id == id)] *)
Fixpoint position_of (id : Z) (reordered : list NestedField) : result nat :=
  match reordered with
  | [] => Raise StopIteration
  | f :: rest => if field_id f =? id then Ok O else (i ← position_of id rest; Ok (S i))
  end.

(** [reordered.insert(i, field)] *)
Definition insert_at (i : nat) (field : NestedField) (reordered : list NestedField)
  : list NestedField :=
  take i reordered ++ field :: drop i reordered.

Definition move_one (reordered : list NestedField) (move : Move) : result (list NestedField) :=
  match List.find (fun f => field_id f =? move_field_id move) reordered with
  | None => Raise StopIteration
  | Some field =>
      let reordered :=
        List.filter (fun f => negb (field_id f =? move_field_id move)) reordered in
      match op move with
      | First => Ok (field :: reordered)
      | Before =>
          match other_field_id move with
          | None => Raise StopIteration
          | Some other => i ← position_of other reordered; Ok (insert_at i field reordered)
          end
      | After =>
          match other_field_id move with
          | None => Raise StopIteration
          | Some other => i ← position_of other reordered; Ok (insert_at (S i) field reordered)
          end
      end
  end.

Fixpoint _move_fields (fields : list NestedField) (moves : list Move)
  : result (list NestedField) :=
  match moves with
  | [] => Ok fields
  | move :: rest => reordered ← move_one fields move; _move_fields reordered rest
  end.

Definition _add_and_move_fields (fields adds : list NestedField) (moves : list Move)
  : result (option (list NestedField)) :=
  match adds with
  | _ :: _ =>
      added ← _add_fields fields (Some adds);
      match moves with
      | _ :: _ => moved ← _move_fields (default [] added) moves; Ok (Some moved)
      | [] => Ok added
      end
  | [] =>
      match moves with
      | _ :: _ => moved ← _move_fields fields moves; Ok (Some moved)
      | [] => Ok None
      end
  end.

(** Truthiness of an optional tuple: [None] and the empty tuple are falsy. *)
Definition nonempty (fields : option (list NestedField)) : option (list NestedField) :=
  match fields with
  | Some (f :: l) => Some (f :: l)
  | _ => None
  end.

(** *** The [_ApplyChanges] visitor *)

Module _ApplyChanges.
Section Visitor.
Variable _adds : gmap Z (list NestedField).
Variable _updates : gmap Z NestedField.
Variable _deletes : gset Z.
Variable _moves : gmap Z (list Move).

(** [self._updates.get(field)] in [struct]: the dictionary is keyed by field
    id, the probe is the field itself.  A field is equal to no integer, so
    the lookup finds nothing. *)
Definition updates_get_by_field (field : NestedField) : option NestedField := None.

Definition schema (struct_result : option IcebergType) : result (option IcebergType) :=
  let fields :=
    match struct_result with
    | Some (StructType (f :: l)) => f :: l
    | _ => []
    end in
  new_fields ← _add_fields fields (_adds !! TABLE_ROOT_ID);
  match nonempty new_fields with
  | Some new_fields => Ok (Some (StructType new_fields))
  | None => Ok struct_result
  end.

(** The loop of [struct] over [enumerate(field_results)]. *)
Fixpoint struct_loop (fields : list NestedField) (field_results : list (option IcebergType))
    (has_changes : bool) (new_fields : list NestedField)
  : result (bool * list NestedField) :=
  match field_results with
  | [] => Ok (has_changes, new_fields)
  | None :: results =>
      match fields with
      | [] => struct_loop [] results true new_fields
      | _ :: fields' => struct_loop fields' results true new_fields
      end
  | Some result_type :: results =>
      match fields with
      | [] => Raise IndexError
      | field :: fields' =>
          let name0 := name field in
          let doc0 := doc field in
          let required0 := required field in
          let '(name1, doc1, required1) :=
            match updates_get_by_field field with
            | Some update => (name update, doc update, required update)
            | None => (name0, doc0, required0)
            end in
          if bool_decide (name field = name1)
             && bool_decide (field_type field = result_type)
             && bool_decide (required field = required1)
             && bool_decide (doc field = doc1)
          then struct_loop fields' results has_changes (new_fields ++ [field])
          else struct_loop fields' results true
                 (new_fields ++ [mkNestedField (field_id field) (name field) result_type
                                               (required field) (doc field)])
      end
  end.

Definition struct (struct : IcebergType) (fields : list NestedField)
    (field_results : list (option IcebergType)) : result (option IcebergType) :=
  '(has_changes, new_fields) ← struct_loop fields field_results false [];
  if has_changes : bool then Ok (Some (StructType new_fields)) else Ok (Some struct).

(** The part of [field] that handles additions and moves. *)
Definition field_adds_and_moves (field : NestedField) (field_result : option IcebergType)
  : result (option IcebergType) :=
  let added : option (list NestedField) := _adds !! field_id field in
  let moves : option (list Move) := _moves !! field_id field in
  if bool_decide (is_Some added) || bool_decide (is_Some moves) then
    match field_type field with
    | StructType fields =>
        new_fields ← _add_and_move_fields fields (default [] added) (default [] moves);
        match nonempty new_fields with
        | Some new_fields => Ok (Some (StructType new_fields))
        | None => Ok field_result
        end
    | _ => Raise (ValueError (CannotAddFieldsToNonStruct (field_id field)))
    end
  else Ok field_result.

Definition field (field : NestedField) (field_result : option IcebergType)
  : result (option IcebergType) :=
  if bool_decide (field_id field ∈ _deletes) then Ok None
  else
    match _updates !! field_id field with
    | Some update =>
        if bool_decide (field_type field ≠ field_type update)
        then Ok (Some (field_type update))
        else field_adds_and_moves field field_result
    | None => field_adds_and_moves field field_result
    end.

Definition list_ (element_id : Z) (element_type : IcebergType) (element_required : bool)
    (element_result : option IcebergType) : result (option IcebergType) :=
  r ← field (element_field element_id element_type element_required) element_result;
  match r with
  | None => Raise (ValueError CannotDeleteElementType)
  | Some element_type' => Ok (Some (ListType element_id element_type' element_required))
  end.

Definition map_ (key_id : Z) (key_type : IcebergType) (value_id : Z)
    (value_type : IcebergType) (value_required : bool)
    (key_result value_result : option IcebergType) : result (option IcebergType) :=
  if bool_decide (is_Some (_adds !! key_id)) then Raise (ValueError CannotAddFieldsToMapKeys)
  else
    r ← field (value_field value_id value_type value_required) value_result;
    match r with
    | None => Raise (ValueError CannotDeleteValueType)
    | Some value_type' =>
        Ok (Some (MapType key_id key_type value_id value_type' value_required))
    end.

Definition primitive (primitive : IcebergType) : result (option IcebergType) :=
  Ok (Some primitive).

(** [pyiceberg.schema.visit] on a type: the children are visited first,
    every struct field result goes through [field], and the method of the
    node is called with the results. *)
Fixpoint visit (obj : IcebergType) : result (option IcebergType) :=
  match obj with
  | Primitive _ => primitive obj
  | StructType fields =>
      results ←
        (fix visit_fields (fs : list NestedField) : result (list (option IcebergType)) :=
           match fs with
           | [] => Ok []
           | f :: fs' =>
               r ← (match f with mkNestedField _ _ ty _ _ => visit ty end);
               fr ← field f r;
               rest ← visit_fields fs';
               Ok (fr :: rest)
           end) fields;
      struct obj fields results
  | ListType element_id element_type element_required =>
      element_result ← visit element_type;
      list_ element_id element_type element_required element_result
  | MapType key_id key_type value_id value_type value_required =>
      key_result ← visit key_type;
      value_result ← visit value_type;
      map_ key_id key_type value_id value_type value_required key_result value_result
  end.

(** [visit(schema, visitor)]: the root struct, then [schema]. *)
Definition visit_schema (s : Schema.t) : result (option IcebergType) :=
  struct_result ← visit (StructType (Schema.fields s));
  schema struct_result.

End Visitor.
End _ApplyChanges.

(** [NestedField.is_struct], the property [_move] reads on the field that
    [find_field] returns; it belongs to [pyiceberg.types]. *)
Class FieldProperties := {
  NestedField_is_struct : NestedField -> bool
}.

(** *** The [UpdateSchema] builder *)

Module UpdateSchema.
Section WithEngine.
Context `{SchemaEngine} `{Catalog}.
Context `{FieldProperties}.

(** The transaction a builder was created in is reachable through the
    builder; its staged lists are kept in [_transaction]. *)
Record t := mk {
  _schema : Schema.t;
  _last_column_id : Z;
  _identifier_field_names : list string;
  _adds : gmap Z (list NestedField);
  _updates : gmap Z NestedField;
  _deletes : gset Z;
  _moves : gmap Z (list Move);
  _added_name_to_id : gmap string Z;
  _id_to_parent : gmap Z string;
  _allow_incompatible_changes : bool;
  _case_sensitive : bool;
  _transaction : option Transaction.t
}.

(** [UpdateSchema(schema, table, transaction, allow_incompatible_changes,
    case_sensitive)]; the counter starts after the highest field id. *)
Definition init (schema : Schema.t) (transaction : option Transaction.t)
    (allow_incompatible_changes case_sensitive : bool) : t :=
  mk schema (highest_field_id schema + 1) (column_names schema)
     ∅ ∅ ∅ ∅ ∅ ∅ allow_incompatible_changes case_sensitive transaction.

(** [Table.update_schema] and [Transaction.update_schema] *)
Definition update_schema (schema : Schema.t) (transaction : option Transaction.t) : t :=
  init schema transaction false true.

Definition set_updates (self : t) (updates : gmap Z NestedField) : t :=
  mk (_schema self) (_last_column_id self) (_identifier_field_names self) (_adds self)
     updates (_deletes self) (_moves self) (_added_name_to_id self) (_id_to_parent self)
     (_allow_incompatible_changes self) (_case_sensitive self) (_transaction self).

Definition set_identifier_field_names (self : t) (names : list string) : t :=
  mk (_schema self) (_last_column_id self) names (_adds self)
     (_updates self) (_deletes self) (_moves self) (_added_name_to_id self)
     (_id_to_parent self) (_allow_incompatible_changes self) (_case_sensitive self)
     (_transaction self).

Definition set_deletes (self : t) (deletes : gset Z) : t :=
  mk (_schema self) (_last_column_id self) (_identifier_field_names self) (_adds self)
     (_updates self) deletes (_moves self) (_added_name_to_id self) (_id_to_parent self)
     (_allow_incompatible_changes self) (_case_sensitive self) (_transaction self).

Definition set_transaction (self : t) (transaction : option Transaction.t) : t :=
  mk (_schema self) (_last_column_id self) (_identifier_field_names self) (_adds self)
     (_updates self) (_deletes self) (_moves self) (_added_name_to_id self)
     (_id_to_parent self) (_allow_incompatible_changes self) (_case_sensitive self)
     transaction.

(** [self._case_sensitive = case_sensitive] *)
Definition case_sensitive (case_sensitive : bool) : StateExn t unit :=
  fun self =>
    (mk (_schema self) (_last_column_id self) (_identifier_field_names self) (_adds self)
        (_updates self) (_deletes self) (_moves self) (_added_name_to_id self)
        (_id_to_parent self) (_allow_incompatible_changes self) case_sensitive
        (_transaction self), Ok tt).

(** [self._allow_incompatible_changes = True] *)
Definition allow_incompatible_changes : StateExn t unit :=
  fun self =>
    (mk (_schema self) (_last_column_id self) (_identifier_field_names self) (_adds self)
        (_updates self) (_deletes self) (_moves self) (_added_name_to_id self)
        (_id_to_parent self) true (_case_sensitive self) (_transaction self), Ok tt).

(** The parent lookup of [add_column]. *)
Definition parent_id_of (self : t) (name : string) (parent : list string) : result Z :=
  if (0 <? Z.of_nat (List.length parent)) then
    parent_field ← find_field (_schema self) (join parent) (_case_sensitive self);
    let parent_field :=
      match field_type parent_field with
      | MapType _ _ value_id value_type value_required =>
          value_field value_id value_type value_required
      | ListType element_id element_type element_required =>
          element_field element_id element_type element_required
      | _ => parent_field
      end in
    if negb (is_struct (field_type parent_field))
    then Raise (ValueError (CannotAddToNonStruct name (join parent)))
    else Ok (field_id parent_field)
  else Ok TABLE_ROOT_ID.

(** [exists] in [add_column]: a [ValueError] of the lookup means that the
    name is free. *)
Definition name_exists (self : t) (full_name : string) : result bool :=
  except_ValueError
    (_ ← find_field (_schema self) full_name (_case_sensitive self); Ok true)
    (Ok false).

Definition add_column (path : Path) (new_field_type : IcebergType) (new_doc : option string)
    (is_required : bool) : StateExn t unit :=
  fun self =>
    let path := as_tuple path in
    match last path with
    | None => (self, Raise IndexError)
    | Some name =>
        if contains_dot name then (self, Raise (ValueError (AmbiguousName name)))
        else if is_required && negb (_allow_incompatible_changes self)
        then (self, Raise (ValueError (CannotAddRequiredColumn (join path))))
        else
          let parent := removelast path in
          let full_name := join path in
          match parent_id_of self name parent with
          | Raise e => (self, Raise e)
          | Ok parent_id =>
              match name_exists self full_name with
              | Raise e => (self, Raise e)
              | Ok true => (self, Raise (ValueError (NameAlreadyExists full_name)))
              | Ok false =>
                  let new_id := _last_column_id self in
                  let '(new_type, next_id) :=
                    assign_fresh_schema_ids new_field_type (new_id + 1) in
                  let field := mkNestedField new_id name new_type is_required new_doc in
                  (mk (_schema self) next_id (_identifier_field_names self)
                      (<[parent_id := (default [] (_adds self !! parent_id) ++ [field])%list]>
                         (_adds self))
                      (_updates self) (_deletes self) (_moves self)
                      (<[full_name := new_id]> (_added_name_to_id self))
                      (_id_to_parent self) (_allow_incompatible_changes self)
                      (_case_sensitive self) (_transaction self),
                   Ok tt)
              end
          end
    end.

Definition delete_column (path : Path) : StateExn t unit :=
  fun self =>
    let full_name := join (as_tuple path) in
    match find_field (_schema self) full_name (_case_sensitive self) with
    | Raise e => (self, Raise e)
    | Ok field =>
        if bool_decide (is_Some (_adds self !! field_id field))
        then (self, Raise (ValueError (CannotDeleteWithAdditions full_name)))
        else if bool_decide (is_Some (_updates self !! field_id field))
        then (self, Raise (ValueError (CannotDeleteWithUpdates full_name)))
        else (set_deletes self ({[field_id field]} ∪ _deletes self), Ok tt)
    end.

(** [path_from in self._identifier_field_names]: the names are strings, so
    only a path given as a string can be among them. *)
Definition path_in_names (path : Path) (names : list string) : bool :=
  match path with
  | PathString s => bool_decide (s ∈ names)
  | PathTuple _ => false
  end.

Definition rename_column (path_from path_to : Path) : StateExn t unit :=
  fun self =>
    let full_name_from := join (as_tuple path_from) in
    let full_name_to := join (as_tuple path_to) in
    match find_field (_schema self) full_name_from (_case_sensitive self) with
    | Raise e => (self, Raise e)
    | Ok from_field =>
        if bool_decide (field_id from_field ∈ _deletes self)
        then (self, Raise (ValueError (CannotRenameDeleted full_name_from)))
        else
          let renamed :=
            match _updates self !! field_id from_field with
            | Some updated =>
                mkNestedField (field_id updated) full_name_to (field_type updated)
                              (required updated) (doc updated)
            | None =>
                mkNestedField (field_id from_field) full_name_to (field_type from_field)
                              (required from_field) (doc from_field)
            end in
          let self := set_updates self (<[field_id from_field := renamed]> (_updates self)) in
          if path_in_names path_from (_identifier_field_names self)
          then (set_identifier_field_names self
                  (remove_first full_name_from (_identifier_field_names self)
                     ++ [full_name_to]),
                Ok tt)
          else (self, Ok tt)
    end.

Definition _set_column_requirement (path : Path) (is_required : bool) : StateExn t unit :=
  fun self =>
    let full_name := join (as_tuple path) in
    match find_field (_schema self) full_name true with
    | Raise e => (self, Raise e)
    | Ok field =>
        if (required field && is_required) || (optional field && negb is_required)
        then (self, Ok tt)
        else if _allow_incompatible_changes self && negb is_required
        then (self, Raise (ValueError (CannotChangeNullability full_name)))
        else if bool_decide (field_id field ∈ _deletes self)
        then (self, Raise (ValueError (CannotUpdateDeleted full_name)))
        else
          let replacement :=
            match _updates self !! field_id field with
            | Some updated =>
                mkNestedField (field_id updated) (name updated) (field_type updated)
                              is_required (doc updated)
            | None =>
                mkNestedField (field_id field) (name field) (field_type field)
                              is_required (doc field)
            end in
          (set_updates self (<[field_id field := replacement]> (_updates self)), Ok tt)
    end.

Definition require_column (path : Path) : StateExn t unit :=
  _set_column_requirement path true.

Definition make_column_optional (path : Path) : StateExn t unit :=
  _set_column_requirement path false.

Definition update_column (path : Path) (new_field_type : IcebergType) : StateExn t unit :=
  fun self =>
    let full_name := join (as_tuple path) in
    match find_field (_schema self) full_name true with
    | Raise e => (self, Raise e)
    | Ok field =>
        if bool_decide (field_id field ∈ _deletes self)
        then (self, Raise (ValueError (CannotUpdateDeleted full_name)))
        else if bool_decide (field_type field = new_field_type)
        then (self, Ok tt)
        else
          let replacement :=
            match _updates self !! field_id field with
            | Some updated =>
                mkNestedField (field_id updated) (name updated) new_field_type
                              (required updated) (doc updated)
            | None =>
                mkNestedField (field_id field) (name field) new_field_type
                              (required field) (doc field)
            end in
          (set_updates self (<[field_id field := replacement]> (_updates self)), Ok tt)
    end.

Definition update_column_doc (path : Path) (new_doc : option string) : StateExn t unit :=
  fun self =>
    let full_name := join (as_tuple path) in
    match find_field (_schema self) full_name true with
    | Raise e => (self, Raise e)
    | Ok field =>
        if bool_decide (field_id field ∈ _deletes self)
        then (self, Raise (ValueError (CannotUpdateDeleted full_name)))
        else if bool_decide (doc field = new_doc)
        then (self, Ok tt)
        else
          let replacement :=
            match _updates self !! field_id field with
            | Some updated =>
                mkNestedField (field_id updated) (name updated) (field_type updated)
                              (required updated) new_doc
            | None =>
                mkNestedField (field_id field) (name field) (field_type field)
                              (required field) new_doc
            end in
          (set_updates self (<[field_id field := replacement]> (_updates self)), Ok tt)
    end.

(** The identifier check at the end of [_apply]. *)
Fixpoint check_identifier_fields (schema : Schema.t) (names : list string) : result unit :=
  match names with
  | [] => Ok tt
  | field_name :: rest =>
      match find_field schema field_name true with
      | Raise (ValueError _) => Raise (ValueError (CannotAddIdentifierField field_name))
      | Raise e => Raise e
      | Ok _ => check_identifier_fields schema rest
      end
  end.

(** The new schema is built from the fields of the resulting struct, with
    the default schema id and no identifier fields. *)
Definition _apply (self : t) : result Schema.t :=
  struct ← _ApplyChanges.visit_schema (_adds self) (_updates self) (_deletes self)
                                       (_moves self) (_schema self);
  match struct with
  | None => Raise (ValueError CouldNotApplyChanges)
  | Some struct =>
      let schema :=
        Schema.mk (match struct with StructType fields => fields | _ => [] end) 0 [] in
      _ ← check_identifier_fields schema (_identifier_field_names self);
      Ok schema
  end.

(** The payload of [commit]. *)
Definition commit_updates (new_schema : Schema.t) : list TableUpdate :=
  [AddSchemaUpdate new_schema (highest_field_id new_schema); SetCurrentSchemaUpdate (-1)].

Definition commit_requirements (self : t) : list TableRequirement :=
  [AssertCurrentSchemaId (Schema.schema_id (_schema self))].

(** [commit]: staged in the transaction when there is one, sent to the
    catalog otherwise. *)
Definition commit : StateExn (t * Transaction.World) unit :=
  fun '(self, w) =>
    match _apply self with
    | Raise e => ((self, w), Raise e)
    | Ok new_schema =>
        let updates := commit_updates new_schema in
        let requirements := commit_requirements self in
        match _transaction self with
        | Some transaction =>
            match Transaction._append_updates updates transaction with
            | (transaction, Raise e) =>
                ((set_transaction self (Some transaction), w), Raise e)
            | (transaction, Ok _) =>
                let '(transaction, r) :=
                  Transaction._append_requirements requirements transaction in
                ((set_transaction self (Some transaction), w), r)
            end
        | None =>
            let '(w, r) :=
              Transaction._do_commit
                (mkCommitTableRequest (tail (identifier (Transaction.table w)))
                                      requirements updates) w in
            ((self, w), r)
        end
    end.

(** *** Moves *)

Definition set_moves (self : t) (moves : gmap Z (list Move)) : t :=
  mk (_schema self) (_last_column_id self) (_identifier_field_names self) (_adds self)
     (_updates self) (_deletes self) moves (_added_name_to_id self) (_id_to_parent self)
     (_allow_incompatible_changes self) (_case_sensitive self) (_transaction self).

(** The messages of the [ValueError]s the move operations raise
    themselves. *)
Inductive move_message :=
| CannotMoveMissingColumn (full_name : string)
| CannotMoveBeforeMissingColumn (full_name : string)
| CannotMoveAfterMissingColumn (full_name : string)
| CannotMoveBeforeItself (full_name : string)
| CannotMoveAfterItself (full_name : string)
| CannotMoveFieldsInNonStruct (parent : Z)
| ExpectedOtherField
| CannotMoveToDifferentStruct (full_name : string).

(** How a move operation ends: the move is staged, the operation raises a
    [ValueError] of its own, or an exception of a schema lookup passes
    through. *)
Inductive move_outcome :=
| MoveStaged
| MoveValueError (m : move_message)
| MoveLookupError (e : exn).

(** [_find_for_move]: the schema first; a [ValueError] of the lookup leads
    to the names of the added columns. *)
Definition _find_for_move (self : t) (full_name : string) : result (option Z) :=
  match find_field (_schema self) full_name (_case_sensitive self) with
  | Ok field => Ok (Some (field_id field))
  | Raise (ValueError _) => Ok (_added_name_to_id self !! full_name)
  | Raise e => Raise e
  end.

Definition before_or_after (operation : MoveOperation) : bool :=
  match operation with
  | First => false
  | Before | After => true
  end.

Definition stage_move (self : t) (parent_id : Z) (move : Move) : t :=
  set_moves self (<[parent_id := (default [] (_moves self !! parent_id) ++ [move])%list]>
                    (_moves self)).

(** [_move].  The parent name of a field is read from [_id_to_parent]; an
    empty name is falsy, as a missing one.  [is_struct] of the parent is the
    property of the field object that [find_field] returns. *)
Definition _move (full_name : string) (move : Move) : t -> t * move_outcome :=
  fun self =>
    match _id_to_parent self !! move_field_id move with
    | Some (String c rest) =>
        match find_field (_schema self) (String c rest) true with
        | Raise e => (self, MoveLookupError e)
        | Ok parent_field =>
            if negb (NestedField_is_struct parent_field)
            then (self, MoveValueError (CannotMoveFieldsInNonStruct (field_id parent_field)))
            else if before_or_after (op move) then
              match other_field_id move with
              | None => (self, MoveValueError ExpectedOtherField)
              | Some other =>
                  if bool_decide (_id_to_parent self !! move_field_id move
                                  <> _id_to_parent self !! other)
                  then (self, MoveValueError (CannotMoveToDifferentStruct full_name))
                  else (stage_move self (field_id parent_field) move, MoveStaged)
              end
            else (stage_move self (field_id parent_field) move, MoveStaged)
        end
    | _ =>
        if before_or_after (op move) then
          match other_field_id move with
          | None => (self, MoveValueError ExpectedOtherField)
          | Some other =>
              if bool_decide (is_Some (_id_to_parent self !! other))
              then (self, MoveValueError (CannotMoveToDifferentStruct full_name))
              else (stage_move self TABLE_ROOT_ID move, MoveStaged)
          end
        else (stage_move self TABLE_ROOT_ID move, MoveStaged)
    end.

Definition move_first (path : Path) : t -> t * move_outcome :=
  fun self =>
    let full_name := join (as_tuple path) in
    match _find_for_move self full_name with
    | Raise e => (self, MoveLookupError e)
    | Ok None => (self, MoveValueError (CannotMoveMissingColumn full_name))
    | Ok (Some id) => _move full_name (mkMove id First None) self
    end.

Definition move_before (path before_path : Path) : t -> t * move_outcome :=
  fun self =>
    let full_name := join (as_tuple path) in
    match _find_for_move self full_name with
    | Raise e => (self, MoveLookupError e)
    | Ok None => (self, MoveValueError (CannotMoveMissingColumn full_name))
    | Ok (Some id) =>
        let before_full_name := join (as_tuple before_path) in
        match _find_for_move self before_full_name with
        | Raise e => (self, MoveLookupError e)
        | Ok None => (self, MoveValueError (CannotMoveBeforeMissingColumn before_full_name))
        | Ok (Some before_field_id) =>
            if id =? before_field_id
            then (self, MoveValueError (CannotMoveBeforeItself full_name))
            else _move full_name (mkMove id Before (Some before_field_id)) self
        end
    end.

Definition move_after (path after_name : Path) : t -> t * move_outcome :=
  fun self =>
    let full_name := join (as_tuple path) in
    match _find_for_move self full_name with
    | Raise e => (self, MoveLookupError e)
    | Ok None => (self, MoveValueError (CannotMoveMissingColumn full_name))
    | Ok (Some id) =>
        let after_full_name := join (as_tuple after_name) in
        match _find_for_move self after_full_name with
        | Raise e => (self, MoveLookupError e)
        | Ok None => (self, MoveValueError (CannotMoveAfterMissingColumn after_full_name))
        | Ok (Some after_field_id) =>
            if id =? after_field_id
            then (self, MoveValueError (CannotMoveAfterItself full_name))
            else _move full_name (mkMove id After (Some after_field_id)) self
        end
    end.

(** *** Sequences of calls *)

(** One call of a staging method of the builder. *)
Inductive Operation :=
| CallAddColumn (path : Path) (column_type : IcebergType) (column_doc : option string)
                (is_required : bool)
| CallDeleteColumn (path : Path)
| CallRenameColumn (path_from path_to : Path)
| CallRequireColumn (path : Path)
| CallMakeColumnOptional (path : Path)
| CallUpdateColumn (path : Path) (column_type : IcebergType)
| CallUpdateColumnDoc (path : Path) (column_doc : option string)
| CallMoveFirst (path : Path)
| CallMoveBefore (path before_path : Path)
| CallMoveAfter (path after_name : Path)
| CallCaseSensitive (value : bool)
| CallAllowIncompatibleChanges.

(** The builder after a call, whether the call returned or raised. *)
Definition after_call (self : t) (call : Operation) : t :=
  match call with
  | CallAddColumn path column_type column_doc is_required =>
      fst (add_column path column_type column_doc is_required self)
  | CallDeleteColumn path => fst (delete_column path self)
  | CallRenameColumn path_from path_to => fst (rename_column path_from path_to self)
  | CallRequireColumn path => fst (require_column path self)
  | CallMakeColumnOptional path => fst (make_column_optional path self)
  | CallUpdateColumn path column_type => fst (update_column path column_type self)
  | CallUpdateColumnDoc path column_doc => fst (update_column_doc path column_doc self)
  | CallMoveFirst path => fst (move_first path self)
  | CallMoveBefore path before_path => fst (move_before path before_path self)
  | CallMoveAfter path after_name => fst (move_after path after_name self)
  | CallCaseSensitive value => fst (case_sensitive value self)
  | CallAllowIncompatibleChanges => fst (allow_incompatible_changes self)
  end.

Definition after_calls (self : t) (calls : list Operation) : t :=
  fold_left after_call calls self.

End WithEngine.
End UpdateSchema.

(** ** Reference collaborators

    Instances of the interfaces above, for running the planner and the
    builder on concrete tables. *)

Module Reference.

(** Modelled from the spec: the predicate model of [pyiceberg.expressions]
    (section 4.A), which is not part of this module: a boolean tree over
    [AlwaysTrue], [AlwaysFalse], [And], [Or], [Not] and atoms.  Only the
    [EqualTo] atom on a named column is spelled out; the parser of the
    predicate language is represented by the node [Parsed] that keeps its
    input. *)
Inductive Predicate :=
| PAlwaysTrue
| PAlwaysFalse
| PAnd (left right : Predicate)
| POr (left right : Predicate)
| PNot (child : Predicate)
| PEqualTo (term literal : string)
| Parsed (text : string).

#[export] Instance expressions : Expressions := {|
  BooleanExpression := Predicate;
  AlwaysTrue := PAlwaysTrue;
  And := PAnd;
  EqualTo := PEqualTo;
  parse := fun text => Ok (Parsed text)
|}.

Definition column_id (schema : Schema.t) (term : string) : option Z :=
  field_id <$> List.find (fun f => String.eqb (name f) term) (Schema.fields schema).

(** Modelled from the spec: the inclusive metrics evaluator of
    [pyiceberg.expressions.visitors] (section 4.B): [EqualTo v] may match
    when [lower <= v <= upper], missing bounds may match, [And] and [Or]
    distribute, anything else may match; [include_empty_files] forces
    [true] for a file without records. *)
Fixpoint may_match (schema : Schema.t) (expr : Predicate) (file : DataFile.t) : bool :=
  match expr with
  | PAlwaysTrue => true
  | PAlwaysFalse => false
  | PAnd l r => may_match schema l file && may_match schema r file
  | POr l r => may_match schema l file || may_match schema r file
  | PNot _ => true
  | PEqualTo term literal =>
      match column_id schema term with
      | None => true
      | Some id =>
          match DataFile.lower_bounds file !! id, DataFile.upper_bounds file !! id with
          | Some lower, Some upper => String.leb lower literal && String.leb literal upper
          | _, _ => true
          end
      end
  | Parsed _ => true
  end.

Definition inclusive_metrics (schema : Schema.t) (expr : Predicate)
    (case_sensitive include_empty_files : bool) (file : DataFile.t) : bool :=
  if (DataFile.record_count file =? 0) && include_empty_files then true
  else may_match schema expr file.

(** The schema of positional delete files: [file_path] and [pos]. *)
Definition positional_delete_schema : Schema.t :=
  Schema.mk [mkNestedField 2147483546 "file_path" (Primitive StringType) true None;
             mkNestedField 2147483545 "pos" (Primitive LongType) true None] 0 [].

(** Modelled from the spec: manifest lists and manifests are read from the
    object store (section 4.C), here two dictionaries by path.  The
    partition projection and the two partition evaluators are the widest
    ones the spec allows (sections 4.A and 4.B): nothing is pruned by
    partition. *)
Definition planning (manifest_lists : gmap string (list ManifestFile.t))
    (manifest_files : gmap string (list ManifestEntry.t)) : Planning := {|
  manifests := fun snapshot => default [] (manifest_lists !! Snapshot.manifest_list snapshot);
  fetch_manifest_entry := fun manifest =>
    default [] (manifest_files !! ManifestFile.manifest_path manifest);
  inclusive_projection := fun _ _ _ => PAlwaysTrue;
  manifest_evaluator := fun _ _ _ _ _ => true;
  partition_type := fun _ _ => [];
  expression_evaluator := fun _ _ _ _ => true;
  _InclusiveMetricsEvaluator := inclusive_metrics;
  POSITIONAL_DELETE_SCHEMA := positional_delete_schema
|}.

(** Modelled from the spec: the schema engine of [pyiceberg.schema]
    (section 4.E). *)
Definition lower_ascii (c : ascii) : ascii :=
  let n := nat_of_ascii c in
  if ((65 <=? n) && (n <=? 90))%nat then ascii_of_nat (n + 32) else c.

Fixpoint lower (s : string) : string :=
  match s with
  | EmptyString => EmptyString
  | String c s' => String (lower_ascii c) (lower s')
  end.

Definition name_matches (case_sensitive : bool) (a b : string) : bool :=
  if case_sensitive then String.eqb a b else String.eqb (lower a) (lower b).

Fixpoint split_dots (s current : string) : list string :=
  match s with
  | EmptyString => [current]
  | String c s' =>
      if Ascii.eqb c "."%char then current :: split_dots s' ""
      else split_dots s' (current ++ String c "")%string
  end.

(** A list is entered through its element field and a map through its
    value field; map keys are not addressable. *)
Fixpoint children (t : IcebergType) : list NestedField :=
  match t with
  | Primitive _ => []
  | StructType fields => fields
  | ListType element_id element_type element_required =>
      element_field element_id element_type element_required :: children element_type
  | MapType _ _ value_id value_type value_required =>
      value_field value_id value_type value_required :: children value_type
  end.

Fixpoint find_path (case_sensitive : bool) (fields : list NestedField) (path : list string)
  : option NestedField :=
  match path with
  | [] => None
  | part :: rest =>
      match List.find (fun f => name_matches case_sensitive (name f) part) fields with
      | None => None
      | Some f =>
          match rest with
          | [] => Some f
          | _ => find_path case_sensitive (children (field_type f)) rest
          end
      end
  end.

Definition find_field_by_path (schema : Schema.t) (full_name : string)
    (case_sensitive : bool) : result NestedField :=
  match find_path case_sensitive (Schema.fields schema) (split_dots full_name "") with
  | Some f => Ok f
  | None => Raise (ValueError (CouldNotFindField full_name))
  end.

Fixpoint type_ids (t : IcebergType) : list Z :=
  match t with
  | Primitive _ => []
  | StructType fields =>
      (fix fields_ids (fs : list NestedField) : list Z :=
         match fs with
         | [] => []
         | f :: fs' =>
             (match f with mkNestedField i _ ty _ _ => i :: type_ids ty end)
               ++ fields_ids fs'
         end)%list fields
  | ListType element_id element_type _ => element_id :: type_ids element_type
  | MapType key_id key_type value_id value_type _ =>
      (key_id :: value_id :: type_ids key_type ++ type_ids value_type)%list
  end.

Definition max_field_id (schema : Schema.t) : Z :=
  fold_left Z.max (type_ids (StructType (Schema.fields schema))) 0.

Definition dotted (prefix part : string) : string :=
  if String.eqb prefix "" then part else (prefix ++ "." ++ part)%string.

Fixpoint type_names (prefix : string) (t : IcebergType) : list string :=
  match t with
  | Primitive _ => []
  | StructType fields =>
      (fix fields_names (fs : list NestedField) : list string :=
         match fs with
         | [] => []
         | f :: fs' =>
             (match f with
              | mkNestedField _ n ty _ _ => dotted prefix n :: type_names (dotted prefix n) ty
              end) ++ fields_names fs'
         end)%list fields
  | ListType _ element_type _ =>
      dotted prefix "element" :: type_names (dotted prefix "element") element_type
  | MapType _ key_type _ value_type _ =>
      (dotted prefix "key" :: type_names (dotted prefix "key") key_type
         ++ dotted prefix "value" :: type_names (dotted prefix "value") value_type)%list
  end.

Definition all_column_names (schema : Schema.t) : list string :=
  type_names "" (StructType (Schema.fields schema)).

(** A type with the same structure and fresh ids, handed out depth
    first. *)
Fixpoint fresh_ids (t : IcebergType) (next : Z) : IcebergType * Z :=
  match t with
  | Primitive _ => (t, next)
  | StructType fields =>
      let '(fields', next') :=
        (fix fresh_fields (fs : list NestedField) (next : Z) : list NestedField * Z :=
           match fs with
           | [] => ([], next)
           | f :: fs' =>
               match f with
               | mkNestedField _ n ty r d =>
                   let '(ty', next1) := fresh_ids ty (next + 1) in
                   let '(rest, next2) := fresh_fields fs' next1 in
                   (mkNestedField next n ty' r d :: rest, next2)
               end
           end) fields next in
      (StructType fields', next')
  | ListType _ element_type element_required =>
      let '(element_type', next') := fresh_ids element_type (next + 1) in
      (ListType next element_type' element_required, next')
  | MapType _ key_type _ value_type value_required =>
      let '(key_type', next1) := fresh_ids key_type (next + 2) in
      let '(value_type', next2) := fresh_ids value_type next1 in
      (MapType next key_type' (next + 1) value_type' value_required, next2)
  end.

#[export] Instance schema_engine : SchemaEngine := {|
  find_field := find_field_by_path;
  highest_field_id := max_field_id;
  column_names := all_column_names;
  assign_fresh_schema_ids := fresh_ids
|}.

(** Modelled from the spec: a catalog client (section 4.G) that accepts
    every commit, counts the commits it has seen, and answers with the
    metadata and location given by [respond]. *)
Definition catalog (respond : CommitTableRequest -> CommitTableResponse) : Catalog := {|
  CatalogState := nat;
  _commit_table := fun request seen => (S seen, Ok (respond request))
|}.

End Reference.

(** ** Further lookups of [Table] and [TableScan] *)

(** [Table.schemas]: the dictionary comprehension keeps the last schema of
    each id. *)
Definition Table_schemas (self : Table) : gmap Z Schema.t :=
  fold_left (fun m schema => <[Schema.schema_id schema := schema]> m)
            (schemas (metadata self)) ∅.

(** [Table.spec]: [next(...)] raises [StopIteration] when no spec has the
    default id. *)
Definition Table_spec (self : Table) : result PartitionSpec :=
  match List.find (fun spec => spec_id spec =? default_spec_id (metadata self))
                  (partition_specs (metadata self)) with
  | Some spec => Ok spec
  | None => Raise StopIteration
  end.

(** [Schema.select] belongs to [pyiceberg.schema]. *)
Class SchemaSelection := {
  select : Schema.t -> list string -> bool -> result Schema.t
}.

(** [TableScan.projection].  The schema id of the snapshot is used when it
    is truthy; [self.table.schemas()[id]] raises [KeyError] for an id the
    table does not hold. *)
Definition projection `{Expressions} `{SchemaSelection} (self : TableScan.t)
  : result Schema.t :=
  snapshot_schema ← Table_schema (TableScan.table self);
  snapshot_schema ←
    match TableScan.snapshot self with
    | Some snapshot =>
        match truthy (Snapshot.schema_id snapshot) with
        | Some snapshot_schema_id =>
            match Table_schemas (TableScan.table self) !! snapshot_schema_id with
            | Some schema => Ok schema
            | None => Raise (KeyError (MissingKey snapshot_schema_id))
            end
        | None => Ok snapshot_schema
        end
    | None => Ok snapshot_schema
    end;
  if bool_decide ("*" ∈ TableScan.selected_fields self) then Ok snapshot_schema
  else select snapshot_schema (TableScan.selected_fields self) (TableScan.case_sensitive self).

(** ** Field ids of a type *)

(** The ids of the fields of a type, nested ones included, with the element,
    key and value ids of lists and maps. *)
Fixpoint all_field_ids (t : IcebergType) : list Z :=
  match t with
  | Primitive _ => []
  | StructType fields =>
      (fix of_fields (fs : list NestedField) : list Z :=
         match fs with
         | [] => []
         | f :: fs' =>
             (match f with mkNestedField i _ ty _ _ => i :: all_field_ids ty end)
               ++ of_fields fs'
         end) fields
  | ListType element_id element_type _ => element_id :: all_field_ids element_type
  | MapType key_id key_type value_id value_type _ =>
      key_id :: value_id :: all_field_ids key_type ++ all_field_ids value_type
  end.

(** A field whose type is primitive. *)
Definition primitive_column (f : NestedField) : bool :=
  match field_type f with
  | Primitive _ => true
  | _ => false
  end.

(** What [_ApplyChanges] makes of a column of primitive type that has no
    additions or moves: [None] when it is deleted; otherwise the column with
    the type of its staged update. *)
Definition applied_column (updates : gmap Z NestedField) (deletes : gset Z) (f : NestedField)
  : option NestedField :=
  if bool_decide (field_id f ∈ deletes) then None
  else
    match updates !! field_id f with
    | Some update =>
        Some (mkNestedField (field_id f) (name f) (field_type update) (required f) (doc f))
    | None => Some f
    end.

(** A field object is no [StructType]. *)
#[export] Instance field_properties : FieldProperties := {|
  NestedField_is_struct := fun _ => false
|}.

(** ** The scan before and after planning *)

(** [after] is [before] up to the cached [partition_filters], which may have
    been created or have gained entries. *)
Definition cache_grows `{Expressions} (before after : TableScan.t) : Prop :=
  TableScan.table after = TableScan.table before
  /\ TableScan.row_filter after = TableScan.row_filter before
  /\ TableScan.selected_fields after = TableScan.selected_fields before
  /\ TableScan.case_sensitive after = TableScan.case_sensitive before
  /\ TableScan.snapshot_id after = TableScan.snapshot_id before
  /\ TableScan.options after = TableScan.options before
  /\ TableScan.limit after = TableScan.limit before
  /\ forall cache, TableScan.partition_filters before = Some cache ->
       exists cache', TableScan.partition_filters after = Some cache' /\ cache ⊆ cache'.

(** A step of the planner that changes the scan within [cache_grows]. *)
Definition grows_cache `{Expressions} {A} (step : StateExn TableScan.t A) : Prop :=
  forall s s' r, step s = (s', r) -> cache_grows s s'.

(** The entries with content [DATA]. *)
Definition is_data (entry : ManifestEntry.t) : bool :=
  DataFile.content (ManifestEntry.data_file entry) =? DataFileContent.DATA.

(** ** What every call on a builder keeps *)

(** The schema and the transaction the builder was created with are still
    in place, no parent name is recorded, no column is both staged for
    deletion and staged with an update, and moves are recorded for the root
    only. *)
Definition builder_invariant (schema : Schema.t) (transaction : option Transaction.t)
    (self : UpdateSchema.t) : Prop :=
  UpdateSchema._schema self = schema
  /\ UpdateSchema._transaction self = transaction
  /\ UpdateSchema._id_to_parent self = ∅
  /\ (forall id, id ∈ UpdateSchema._deletes self -> UpdateSchema._updates self !! id = None)
  /\ (forall parent, is_Some (UpdateSchema._moves self !! parent) -> parent = TABLE_ROOT_ID).

(** ** The loop of [visit] over the fields of a struct *)

(** Each field type is visited and the result goes through [field]; the
    results are collected in the order of the fields. *)
Fixpoint visit_fields (adds : gmap Z (list NestedField)) (updates : gmap Z NestedField)
    (deletes : gset Z) (moves : gmap Z (list Move)) (fs : list NestedField)
  : result (list (option IcebergType)) :=
  match fs with
  | [] => Ok []
  | f :: fs' =>
      r ← _ApplyChanges.visit adds updates deletes moves (field_type f);
      fr ← _ApplyChanges.field adds updates deletes moves f r;
      rest ← visit_fields adds updates deletes moves fs';
      Ok (fr :: rest)
  end.

(** A move that names fields of the list: the field to move and, for
    [Before] and [After], another field to move it next to. *)
Definition names_fields (fields : list NestedField) (move : Move) : Prop :=
  move_field_id move ∈ map field_id fields
  /\ (op move <> First ->
      exists other,
        other_field_id move = Some other
        /\ other ∈ map field_id fields
        /\ other <> move_field_id move).

(** ** Concrete tables, scans and builders *)

Module Scenario.
Import Reference.

Definition empty_metadata : TableMetadata :=
  mkTableMetadata "uuid" 2 "s3://bucket/table" 2 [] 0 [] 0 [] None ∅ ∅.

(** A catalog that answers every commit with [empty_metadata] at a new
    location. *)
Definition accepting_catalog : Catalog :=
  Reference.catalog (fun _ => mkCommitTableResponse empty_metadata "s3://bucket/table/v2.json").

Definition a_table : Table :=
  mkTable ["catalog"; "db"; "events"] empty_metadata "s3://bucket/table/v1.json".

Definition a_world : @Transaction.World accepting_catalog :=
  @Transaction.mkWorld accepting_catalog a_table O [].

(** One staged requirement, then a requirement of another kind. *)
Definition one_requirement : Transaction.t :=
  Transaction.mk [] [AssertTableUUID "uuid"].

Definition one_update : Transaction.t :=
  Transaction.mk [SetLocationUpdate "s3://bucket/elsewhere"] [].

(** The schema [{1: id: int, 2: data: string}] with schema id 7. *)
Definition id_data_schema : Schema.t :=
  Schema.mk [mkNestedField 1 "id" (Primitive IntegerType) false None;
             mkNestedField 2 "data" (Primitive StringType) false None] 7 [].

Definition unpartitioned : PartitionSpec := mkPartitionSpec 0 [].

Definition snapshot_with_id (id : Z) (manifest_list : string) : Snapshot.t :=
  Snapshot.mk id None (Some id) None manifest_list.

(** A table with the branches [main -> 42] and [stage -> 17]. *)
Definition branches_metadata : TableMetadata :=
  mkTableMetadata "uuid" 2 "s3://bucket/table" 2 [id_data_schema] 7 [unpartitioned] 0
    [snapshot_with_id 42 "snap-42.avro"; snapshot_with_id 17 "snap-17.avro"] (Some 42)
    {[ "main" := mkSnapshotRef 42 BRANCH; "stage" := mkSnapshotRef 17 BRANCH ]} ∅.

Definition branches_table : Table :=
  mkTable ["catalog"; "db"; "events"] branches_metadata "s3://bucket/table/v1.json".

(** The same table, where the snapshot of [stage] has the id [0]. *)
Definition zero_metadata : TableMetadata :=
  mkTableMetadata "uuid" 2 "s3://bucket/table" 2 [id_data_schema] 7 [unpartitioned] 0
    [snapshot_with_id 42 "snap-42.avro"; snapshot_with_id 0 "snap-0.avro"] (Some 42)
    {[ "main" := mkSnapshotRef 42 BRANCH; "stage" := mkSnapshotRef 0 BRANCH ]} ∅.

Definition zero_table : Table :=
  mkTable ["catalog"; "db"; "events"] zero_metadata "s3://bucket/table/v1.json".

(** The files of snapshot 42: a data file [a/1.parquet] written at
    sequence number 5, and two positional delete files whose [file_path]
    bounds are [a/0.parquet] and [a/2.parquet], written at sequence numbers
    7 and 4. *)
Definition file_path_id : Z := 2147483546.

Definition data_file_a1 : DataFile.t :=
  DataFile.mk DataFileContent.DATA "a/1.parquet" [] 10 1024 ∅ ∅.

Definition delete_file (path : string) : DataFile.t :=
  DataFile.mk DataFileContent.POSITION_DELETES path [] 3 128
    {[ file_path_id := "a/0.parquet" ]} {[ file_path_id := "a/2.parquet" ]}.

Definition data_entry_a1 : ManifestEntry.t := ManifestEntry.mk 1 (Some 5) data_file_a1.
Definition delete_entry_7 : ManifestEntry.t :=
  ManifestEntry.mk 1 (Some 7) (delete_file "d/7.parquet").
Definition delete_entry_4 : ManifestEntry.t :=
  ManifestEntry.mk 1 (Some 4) (delete_file "d/4.parquet").

Definition data_manifest : ManifestFile.t :=
  ManifestFile.mk "m/data.avro" 0 ManifestContent.DATA (Some 5) (Some 5).
Definition delete_manifest : ManifestFile.t :=
  ManifestFile.mk "m/deletes.avro" 0 ManifestContent.DELETES (Some 7) (Some 4).

Definition store : Planning :=
  Reference.planning
    {[ "snap-42.avro" := [data_manifest; delete_manifest] ]}
    {[ "m/data.avro" := [data_entry_a1];
       "m/deletes.avro" := [delete_entry_7; delete_entry_4] ]}.

(** Snapshot 17 holds one manifest with an entry of an unknown content
    (3) followed by an equality delete; snapshot 42 of [equality_store]
    holds a data file and an equality delete. *)
Definition unknown_entry : ManifestEntry.t :=
  ManifestEntry.mk 1 (Some 6) (DataFile.mk 3 "u/1.parquet" [] 1 64 ∅ ∅).
Definition equality_entry : ManifestEntry.t :=
  ManifestEntry.mk 1 (Some 6)
    (DataFile.mk DataFileContent.EQUALITY_DELETES "e/1.parquet" [] 1 64 ∅ ∅).

Definition mixed_manifest : ManifestFile.t :=
  ManifestFile.mk "m/mixed.avro" 0 ManifestContent.DELETES (Some 6) (Some 6).

Definition mixed_store : Planning :=
  Reference.planning
    {[ "snap-42.avro" := [data_manifest; mixed_manifest] ]}
    {[ "m/data.avro" := [data_entry_a1];
       "m/mixed.avro" := [unknown_entry; equality_entry] ]}.

Definition equality_store : Planning :=
  Reference.planning
    {[ "snap-42.avro" := [data_manifest; mixed_manifest] ]}
    {[ "m/data.avro" := [data_entry_a1];
       "m/mixed.avro" := [equality_entry] ]}.

(** [table.scan()] *)
Definition fresh_scan (table : Table) : TableScan.t :=
  TableScan.mk table PAlwaysTrue ["*"] true None ∅ None None.

(** The scan of [branches_table] after [plan_files] has run on it. *)
Definition planned_scan : TableScan.t :=
  fst (@DataScan.plan_files _ store (fresh_scan branches_table)).

(** Scenario 3 of the spec: on [{1: id: int, 2: data: string}], rename
    [data] to [payload], then add [extra: long]. *)
Definition builder : UpdateSchema.t := UpdateSchema.update_schema id_data_schema None.

Definition renamed : UpdateSchema.t :=
  fst (UpdateSchema.rename_column (PathString "data") (PathString "payload") builder).

Definition renamed_and_added : UpdateSchema.t :=
  fst (UpdateSchema.add_column (PathString "extra") (Primitive LongType) None false renamed).

Definition schema_world : @Transaction.World accepting_catalog :=
  @Transaction.mkWorld accepting_catalog
    (mkTable ["catalog"; "db"; "events"] branches_metadata "s3://bucket/table/v1.json") O [].

(** Scenario 4 of the spec: the column [id] is a [long]. *)
Definition long_id_schema : Schema.t :=
  Schema.mk [mkNestedField 1 "id" (Primitive LongType) false None] 7 [].

Definition long_id_builder : UpdateSchema.t := UpdateSchema.update_schema long_id_schema None.

(** A required column, on a builder that allows incompatible changes. *)
Definition required_id_schema : Schema.t :=
  Schema.mk [mkNestedField 1 "id" (Primitive IntegerType) true None] 7 [].

Definition permissive_builder : UpdateSchema.t :=
  UpdateSchema.init required_id_schema None true true.

End Scenario.

(** ** Further concrete values *)

Module Scenario2.
Import Reference.

(** A catalog that refuses every commit. *)
Definition refusing_catalog : Catalog := {|
  CatalogState := nat;
  _commit_table := fun request seen => (S seen, Raise (KeyError (MissingKey 409)))
|}.

Definition refused_world : @Transaction.World refusing_catalog :=
  @Transaction.mkWorld refusing_catalog Scenario.a_table O [].

(** A table with two schemas; its current snapshot was written with the
    older schema 3, the current schema is 7. *)
Definition older_schema : Schema.t :=
  Schema.mk [mkNestedField 1 "id" (Primitive IntegerType) false None] 3 [].

Definition two_schema_metadata : TableMetadata :=
  mkTableMetadata "uuid" 2 "s3://bucket/table" 2 [older_schema; Scenario.id_data_schema] 7
    [Scenario.unpartitioned] 0
    [Snapshot.mk 42 None (Some 42) (Some 3) "snap-42.avro"] (Some 42) ∅ ∅.

Definition two_schema_table : Table :=
  mkTable ["catalog"; "db"; "events"] two_schema_metadata "s3://bucket/table/v1.json".

(** A selection that keeps the top-level columns with a selected name. *)
Definition top_level_selection : SchemaSelection := {|
  select := fun schema names case_sensitive =>
    Ok (Schema.mk (List.filter (fun f => bool_decide (name f ∈ names)) (Schema.fields schema))
                  (Schema.schema_id schema) [])
|}.

(** A second positional delete file with the path [d/7.parquet], written at
    sequence number 8 with other counts, in a store whose delete manifest
    lists it before the file of sequence number 7. *)
Definition delete_entry_8 : ManifestEntry.t :=
  ManifestEntry.mk 1 (Some 8)
    (DataFile.mk DataFileContent.POSITION_DELETES "d/7.parquet" [] 9 512
       {[ Scenario.file_path_id := "a/0.parquet" ]}
       {[ Scenario.file_path_id := "a/2.parquet" ]}).

Definition same_path_store : Planning :=
  Reference.planning
    {[ "snap-42.avro" := [Scenario.data_manifest; Scenario.delete_manifest] ]}
    {[ "m/data.avro" := [Scenario.data_entry_a1];
       "m/deletes.avro" := [delete_entry_8; Scenario.delete_entry_7] ]}.

(** A delete manifest older than the data: its sequence number 4 is below
    the least sequence number 5 of the data manifests, though it lists the
    delete file of sequence number 7. *)
Definition stale_manifest : ManifestFile.t :=
  ManifestFile.mk "m/stale.avro" 0 ManifestContent.DELETES (Some 4) (Some 4).

Definition stale_store : Planning :=
  Reference.planning
    {[ "snap-42.avro" := [Scenario.data_manifest; stale_manifest] ]}
    {[ "m/data.avro" := [Scenario.data_entry_a1];
       "m/stale.avro" := [Scenario.delete_entry_7] ]}.

End Scenario2.

(** * Properties *)

(** ** Staging and committing a transaction *)

Section TransactionFacts.

Lemma check_new_updates_single (staged : list TableUpdate) (u : TableUpdate) :
  Transaction.check_new_updates staged [u] =
    if existsb (fun update => bool_decide (update_type update = update_type u)) staged
    then Raise (ValueError (UpdatesNotUnique (update_type u)))
    else Ok tt.
Proof. reflexivity. Qed.

Lemma existsb_kind {A K} `{EqDecision K} (kind : A -> K) (k : K) (l : list A) :
  existsb (fun x => bool_decide (kind x = k)) l = true <-> exists x, x ∈ l /\ kind x = k.
Proof.
  rewrite existsb_exists. split.
  - intros (x & Hin & Hk). exists x. split; [by apply list_elem_of_In|].
    by apply bool_decide_eq_true in Hk.
  - intros (x & Hin & Hk). exists x. split; [by apply list_elem_of_In|].
    by apply bool_decide_eq_true.
Qed.

(** An update whose kind is staged already is refused and nothing changes;
    an update of a new kind is appended. *)
Lemma append_update_checks_staged_kinds (self : Transaction.t) (u : TableUpdate) :
  ((exists staged, staged ∈ Transaction._updates self
                   /\ update_type staged = update_type u) ->
     Transaction._append_updates [u] self =
       (self, Raise (ValueError (UpdatesNotUnique (update_type u)))))
  /\ ((forall staged, staged ∈ Transaction._updates self ->
                      update_type staged <> update_type u) ->
        Transaction._append_updates [u] self =
          (Transaction.mk (Transaction._updates self ++ [u]) (Transaction._requirements self),
           Ok tt)).
Proof.
  unfold Transaction._append_updates. rewrite check_new_updates_single. split.
  - intros Hdup. apply existsb_kind in Hdup. by rewrite Hdup.
  - intros Hnew. destruct (existsb _ _) eqn:E; [|done].
    apply existsb_kind in E as (x & Hin & Hk). by destruct (Hnew x Hin).
Qed.

Lemma append_update_checks_staged_kinds_witness :
  Transaction._append_updates [SetLocationUpdate "s3://bucket/again"] Scenario.one_update
    = (Scenario.one_update, Raise (ValueError (UpdatesNotUnique set_location)))
  /\ Transaction._append_updates [SetPropertiesUpdate ∅] Scenario.one_update
     = (Transaction.mk [SetLocationUpdate "s3://bucket/elsewhere"; SetPropertiesUpdate ∅] [],
        Ok tt).
Proof.
  split.
  - apply (proj1 (append_update_checks_staged_kinds Scenario.one_update
                    (SetLocationUpdate "s3://bucket/again"))).
    exists (SetLocationUpdate "s3://bucket/elsewhere").
    split; [apply list_elem_of_singleton|]; reflexivity.
  - apply (proj2 (append_update_checks_staged_kinds Scenario.one_update
                    (SetPropertiesUpdate ∅))).
    intros staged Hin. apply list_elem_of_singleton in Hin. subst staged. discriminate.
Defined.

(** The test of [_append_requirements] does not look at the staged
    requirements: it holds as soon as there is one. *)
Lemma check_new_requirements_staged (staged : list TableRequirement)
    (r : TableRequirement) (rest : list TableRequirement) :
  staged <> [] ->
  Transaction.check_new_requirements staged (r :: rest) =
    Raise (ValueError (RequirementsNotUnique (requirement_type r))).
Proof.
  intros Hne. destruct staged as [|s staged]; [done|].
  simpl. by rewrite bool_decide_eq_true_2.
Qed.

Lemma check_new_requirements_none_staged (new_requirements : list TableRequirement) :
  Transaction.check_new_requirements [] new_requirements = Ok tt.
Proof. induction new_requirements as [|r rest IH]; [done|]. simpl. exact IH. Qed.

Lemma append_requirement_duplicate (self : Transaction.t) (r : TableRequirement) :
  (exists staged, staged ∈ Transaction._requirements self
                  /\ requirement_type staged = requirement_type r) ->
  Transaction._append_requirements [r] self =
    (self, Raise (ValueError (RequirementsNotUnique (requirement_type r)))).
Proof.
  intros (s & Hin & _). unfold Transaction._append_requirements.
  rewrite check_new_requirements_staged; [done|].
  intros E. rewrite E in Hin. by apply elem_of_nil in Hin.
Qed.

(** [_append_requirements] succeeds exactly on a transaction without
    staged requirements. *)
Lemma append_requirement_succeeds_iff (self : Transaction.t) (r : TableRequirement) :
  snd (Transaction._append_requirements [r] self) = Ok tt
  <-> Transaction._requirements self = [].
Proof.
  unfold Transaction._append_requirements. split.
  - destruct (Transaction._requirements self) as [|s staged] eqn:E; [done|].
    rewrite check_new_requirements_staged; [|done]. discriminate.
  - intros ->. by rewrite check_new_requirements_none_staged.
Qed.

End TransactionFacts.

(** C5 (the code departs from it): a transaction that holds the requirement
    [AssertTableUUID] is given a requirement of the kind
    [AssertCurrentSchemaId], which is not staged yet.  The call raises
    [ValueError] and the staged lists stay as they were, where an append was
    due. *)
Theorem append_requirement_of_new_kind_is_refused :
  Transaction._append_requirements [AssertCurrentSchemaId 0] Scenario.one_requirement =
    (Scenario.one_requirement,
     Raise (ValueError (RequirementsNotUnique assert_current_schema_id)))
  /\ ~ (exists staged, staged ∈ Transaction._requirements Scenario.one_requirement
                       /\ requirement_type staged = assert_current_schema_id).
Proof.
  split; [reflexivity|].
  intros (s & Hin & Hk). unfold Scenario.one_requirement in Hin. simpl in Hin.
  apply list_elem_of_singleton in Hin. subst s. discriminate.
Qed.

(** C8: a transaction without staged updates leaves the table, the catalog
    and the list of requests sent to the catalog as they are and returns the
    table; with a staged update exactly one request is sent, holding the
    identifier without the catalog name, the staged requirements and the
    staged updates. *)
Theorem commit_transaction_sends_only_updates `{Catalog}
    (self : Transaction.t) (w : Transaction.World) :
  (Transaction._updates self = [] ->
     Transaction.commit_transaction self w = (w, Ok (Transaction.table w)))
  /\ (Transaction._updates self <> [] ->
        Transaction.commit_calls (fst (Transaction.commit_transaction self w)) =
          Transaction.commit_calls w
            ++ [mkCommitTableRequest (tail (identifier (Transaction.table w)))
                                     (Transaction._requirements self)
                                     (Transaction._updates self)]).
Proof.
  split.
  - intros E. unfold Transaction.commit_transaction. rewrite E. reflexivity.
  - intros Hne. unfold Transaction.commit_transaction.
    destruct (Transaction._updates self) as [|u us] eqn:E; [done|].
    replace (0 <? Z.of_nat (List.length (u :: us))) with true
      by (symmetry; apply Z.ltb_lt; simpl; lia).
    unfold bind_st, get_st, Transaction._do_commit, Transaction.commit_request.
    rewrite E.
    destruct (_commit_table _ _) as [c' [response|e]]; reflexivity.
Qed.

Lemma commit_transaction_sends_only_updates_witness :
  @Transaction.commit_transaction Scenario.accepting_catalog
     (Transaction.mk [] [AssertTableUUID "uuid"]) Scenario.a_world
    = (Scenario.a_world, Ok Scenario.a_table)
  /\ @Transaction.commit_calls Scenario.accepting_catalog
       (fst (@Transaction.commit_transaction Scenario.accepting_catalog
               Scenario.one_update Scenario.a_world))
     = [mkCommitTableRequest ["db"; "events"] [] [SetLocationUpdate "s3://bucket/elsewhere"]].
Proof.
  split.
  - apply (proj1 (@commit_transaction_sends_only_updates Scenario.accepting_catalog
                    (Transaction.mk [] [AssertTableUUID "uuid"]) Scenario.a_world)).
    reflexivity.
  - apply (proj2 (@commit_transaction_sends_only_updates Scenario.accepting_catalog
                    Scenario.one_update Scenario.a_world)).
    discriminate.
Defined.

(** ** Snapshot resolution and derived scans *)

Section ScanFacts.
Context `{Expressions}.

Lemma truthy_Some (x : option Z) (v : Z) : truthy x = Some v <-> x = Some v /\ v <> 0.
Proof.
  unfold truthy. destruct x as [w|]; [|split; [discriminate|intros [? _]; discriminate]].
  destruct (w =? 0) eqn:E.
  - apply Z.eqb_eq in E. split; [discriminate|]. intros [[= ->] ?]. contradiction.
  - apply Z.eqb_neq in E. split; [intros [= ->]; done|]. by intros [[= ->] _].
Qed.

Lemma truthy_None (x : option Z) : truthy x = None <-> x = None \/ x = Some 0.
Proof.
  unfold truthy. destruct x as [w|]; [|split; [by left|done]].
  destruct (w =? 0) eqn:E.
  - apply Z.eqb_eq in E. subst w. split; [by right|done].
  - apply Z.eqb_neq in E. split; [discriminate|]. intros [?|[= ?]]; [discriminate|contradiction].
Qed.

Lemma snapshot_by_id_found (tbl : Table) (id : Z) (snapshot : Snapshot.t) :
  snapshot_by_id tbl id = Some snapshot ->
  Snapshot.snapshot_id snapshot = id
  /\ snapshot_by_id tbl (Snapshot.snapshot_id snapshot) = Some snapshot.
Proof.
  unfold snapshot_by_id. intros Hfind.
  pose proof (find_some _ _ Hfind) as [_ Hid]. apply Z.eqb_eq in Hid.
  split; [exact Hid|]. by rewrite Hid.
Qed.

(** A scan without the cached property is copied by [update]. *)
Lemma update_without_cache (self : TableScan.t) (overrides : TableScan.Keywords) :
  TableScan.partition_filters self = None ->
  TableScan.kw_other overrides = [] ->
  TableScan.kw_table overrides = None ->
  TableScan.update self overrides =
    (row_filter ← TableScan._parse_row_filter
                    (default (TableScan.FilterExpression (TableScan.row_filter self))
                             (TableScan.kw_row_filter overrides));
     Ok (TableScan.mk (TableScan.table self) row_filter
           (default (TableScan.selected_fields self) (TableScan.kw_selected_fields overrides))
           (default (TableScan.case_sensitive self) (TableScan.kw_case_sensitive overrides))
           (default (TableScan.snapshot_id self) (TableScan.kw_snapshot_id overrides))
           (default (TableScan.options self) (TableScan.kw_options overrides))
           (default (TableScan.limit self) (TableScan.kw_limit overrides))
           None)).
Proof.
  intros Hcache Hother Htable.
  unfold TableScan.update, TableScan.construct, TableScan.merge, TableScan.__dict__.
  simpl. rewrite Hcache, Hother, Htable. simpl.
  unfold TableScan.__init__.
  destruct overrides as [t rf sf cs sid opts lim other]; simpl in *.
  destruct rf, sf, cs, sid, opts, lim; reflexivity.
Qed.

(** A scan that holds the cached property cannot be copied. *)
Lemma update_with_cache (self : TableScan.t) (overrides : TableScan.Keywords)
    (cache : gmap Z BooleanExpression) :
  TableScan.partition_filters self = Some cache ->
  TableScan.update self overrides =
    Raise (TypeError (UnexpectedKeywordArgument "partition_filters")).
Proof.
  intros Hcache.
  unfold TableScan.update, TableScan.construct, TableScan.merge, TableScan.__dict__.
  simpl. by rewrite Hcache.
Qed.

Lemma scan_fresh (tbl : Table) :
  TableScan.scan tbl = Ok (TableScan.mk tbl AlwaysTrue ["*"] true None ∅ None None).
Proof. reflexivity. Qed.

(** On a scan whose cached property has not been read, [filter] with an
    expression that parses gives a scan that differs in the row filter
    only, the conjunction of the old filter and the new expression. *)
Lemma filter_without_cache (self : TableScan.t) (expr : TableScan.RowFilter)
    (parsed : BooleanExpression) :
  TableScan.partition_filters self = None ->
  TableScan._parse_row_filter expr = Ok parsed ->
  TableScan.filter self expr =
    Ok (TableScan.mk (TableScan.table self) (And (TableScan.row_filter self) parsed)
          (TableScan.selected_fields self) (TableScan.case_sensitive self)
          (TableScan.snapshot_id self) (TableScan.options self) (TableScan.limit self)
          None).
Proof.
  intros Hcache Hparse. unfold TableScan.filter. rewrite Hparse. simpl.
  by rewrite update_without_cache.
Qed.

End ScanFacts.

Lemma filter_without_cache_witness :
  TableScan.filter (Scenario.fresh_scan Scenario.branches_table) (TableScan.FilterString "id > 4")
  = Ok (@TableScan.mk Reference.expressions Scenario.branches_table
          (Reference.PAnd Reference.PAlwaysTrue (Reference.Parsed "id > 4"))
          ["*"] true None ∅ None None).
Proof.
  exact (@filter_without_cache Reference.expressions
           (Scenario.fresh_scan Scenario.branches_table) (TableScan.FilterString "id > 4")
           (Reference.Parsed "id > 4") eq_refl eq_refl).
Defined.

(** Snapshot resolution on the ids the truthiness tests tell apart from an
    unset id.  For a table whose refs map [name] to a snapshot with a
    non-zero id, [scan().use_ref(name)] gives a scan that resolves to that
    snapshot; [use_ref] raises when the scan has a non-zero snapshot id
    already and when the name resolves to no snapshot; a scan whose snapshot
    id is unset or zero resolves to the current snapshot. *)
Lemma use_ref_resolves_named_snapshot `{Expressions}
    (tbl : Table) (self : TableScan.t) (name : string) :
  (forall scan0 ref snapshot,
      TableScan.scan tbl = Ok scan0 ->
      refs (metadata tbl) !! name = Some ref ->
      snapshot_by_id tbl (ref_snapshot_id ref) = Some snapshot ->
      ref_snapshot_id ref <> 0 ->
      exists scan1, TableScan.use_ref scan0 name = Ok scan1
                    /\ TableScan.snapshot scan1 = Some snapshot)
  /\ (forall id, TableScan.snapshot_id self = Some id -> id <> 0 ->
        TableScan.use_ref self name = Raise (ValueError (CannotOverrideRef id)))
  /\ (snapshot_by_name (TableScan.table self) name = None ->
        exists m, TableScan.use_ref self name = Raise (ValueError m))
  /\ (TableScan.snapshot_id self = None \/ TableScan.snapshot_id self = Some 0 ->
        TableScan.snapshot self = current_snapshot (TableScan.table self)).
Proof.
  repeat split.
  - intros scan0 ref snapshot Hscan Href Hsnap Hnz.
    rewrite scan_fresh in Hscan. injection Hscan as <-.
    apply snapshot_by_id_found in Hsnap as Hfound. destruct Hfound as [Hid Hagain].
    unfold TableScan.use_ref. simpl.
    unfold snapshot_by_name. rewrite Href, Hsnap.
    rewrite update_without_cache by reflexivity. simpl.
    eexists. split; [reflexivity|].
    unfold TableScan.snapshot. simpl.
    replace (Snapshot.snapshot_id snapshot =? 0) with false
      by (symmetry; apply Z.eqb_neq; congruence).
    exact Hagain.
  - intros id Hid Hnz. unfold TableScan.use_ref.
    by rewrite (proj2 (truthy_Some _ id) (conj Hid Hnz)).
  - intros Hnone. unfold TableScan.use_ref.
    destruct (truthy (TableScan.snapshot_id self)) as [id|]; [by eexists|].
    rewrite Hnone. by eexists.
  - intros Hunset. unfold TableScan.snapshot.
    by rewrite (proj2 (truthy_None _) Hunset).
Qed.

(** Scenario 6 of the spec: [use_ref("stage")] resolves to snapshot 17. *)
Lemma use_ref_resolves_named_snapshot_witness :
  (exists scan1,
      TableScan.use_ref (Scenario.fresh_scan Scenario.branches_table) "stage"
        = Ok scan1
      /\ TableScan.snapshot scan1
         = Some (Scenario.snapshot_with_id 17 "snap-17.avro"))
  /\ TableScan.snapshot (Scenario.fresh_scan Scenario.branches_table)
     = Some (Scenario.snapshot_with_id 42 "snap-42.avro").
Proof.
  pose proof (@use_ref_resolves_named_snapshot _ Scenario.branches_table
                (Scenario.fresh_scan Scenario.branches_table) "stage") as (Hone & _ & _ & Hfour).
  split.
  - apply (Hone (Scenario.fresh_scan Scenario.branches_table) (mkSnapshotRef 17 BRANCH)
                (Scenario.snapshot_with_id 17 "snap-17.avro")).
    + reflexivity.
    + reflexivity.
    + reflexivity.
    + discriminate.
  - rewrite Hfour; [reflexivity|]. left. reflexivity.
Defined.

(** C7 (the code departs from it): the ref [stage] names the snapshot with
    id [0], which [snapshot_by_name] finds.  [scan().use_ref("stage")]
    returns a scan with that id, and [snapshot] of this scan tests the id for
    truthiness and resolves to the current snapshot 42 instead. *)
Theorem use_ref_with_snapshot_id_zero :
  snapshot_by_name Scenario.zero_table "stage" = Some (Scenario.snapshot_with_id 0 "snap-0.avro")
  /\ exists scan1,
       TableScan.use_ref (Scenario.fresh_scan Scenario.zero_table) "stage"
         = Ok scan1
       /\ TableScan.snapshot_id scan1 = Some 0
       /\ TableScan.snapshot scan1
          = Some (Scenario.snapshot_with_id 42 "snap-42.avro")
       /\ TableScan.snapshot scan1
          <> snapshot_by_name Scenario.zero_table "stage".
Proof.
  split; [reflexivity|].
  eexists. split; [reflexivity|]. split; [reflexivity|]. split; [reflexivity|]. discriminate.
Qed.

(** C10 (the code departs from it): once [plan_files] has run on a scan, the
    instance holds the cached [partition_filters], and [filter] raises
    [TypeError] instead of returning a new scan. *)
Theorem filter_after_plan_files_raises :
  TableScan.partition_filters Scenario.planned_scan
    = Some {[ 0 := Reference.PAlwaysTrue ]}
  /\ TableScan.filter Scenario.planned_scan (TableScan.FilterString "id > 4")
     = Raise (TypeError (UnexpectedKeywordArgument "partition_filters")).
Proof. split; [vm_compute; reflexivity|reflexivity]. Qed.

(** ** The sorted list of positional deletes *)

Section SortedListFacts.
Context {A : Type} (key : A -> Z).

Lemma add_elem (x y : A) (l : list A) :
  y ∈ SortedList.add key x l <-> y = x \/ y ∈ l.
Proof.
  induction l as [|z l IH]; simpl.
  - rewrite list_elem_of_singleton. rewrite elem_of_nil. tauto.
  - destruct (key z <=? key x).
    + rewrite !elem_of_cons, IH. tauto.
    + rewrite !elem_of_cons. tauto.
Qed.

Lemma add_sorted (x : A) (l : list A) :
  SortedList.sorted key l -> SortedList.sorted key (SortedList.add key x l).
Proof.
  induction 1 as [|z l Hall Hsorted IH]; simpl.
  - constructor; [constructor|constructor].
  - destruct (key z <=? key x) eqn:E.
    + apply Z.leb_le in E. constructor; [|exact IH].
      apply Forall_forall. intros y Hy. apply add_elem in Hy as [->|Hy]; [exact E|].
      by apply (proj1 (Forall_forall _ _) Hall).
    + apply Z.leb_gt in E. constructor; [|by constructor].
      constructor; [lia|].
      eapply Forall_impl; [exact Hall|]. simpl. intros y Hy. lia.
Qed.

(** The slice after the upper bound holds the elements with a strictly
    greater key, and only those. *)
Lemma drop_bisect_right_elem (x y : A) (l : list A) :
  SortedList.sorted key l ->
  y ∈ drop (SortedList.bisect_right key l x) l <-> y ∈ l /\ key x < key y.
Proof.
  induction 1 as [|z l Hall Hsorted IH]; simpl.
  - rewrite elem_of_nil. tauto.
  - destruct (key z <=? key x) eqn:E.
    + apply Z.leb_le in E. simpl. rewrite IH, elem_of_cons.
      split; [tauto|]. intros [[->|Hy] Hlt]; [lia|tauto].
    + apply Z.leb_gt in E. simpl. split; [|tauto].
      intros Hy. split; [exact Hy|].
      apply elem_of_cons in Hy as [->|Hy]; [exact E|].
      pose proof (proj1 (Forall_forall _ _) Hall y Hy). simpl in *. lia.
Qed.
End SortedListFacts.

(** ** Manifest retention *)

Lemma or_initial_default (x : option Z) : or_initial x = default INITIAL_SEQUENCE_NUMBER x.
Proof.
  destruct x as [v|]; [|reflexivity]. simpl.
  destruct (v =? 0) eqn:E; [|reflexivity].
  apply Z.eqb_eq in E. by subst v.
Qed.

Lemma fold_left_min_le_init (l : list Z) (x : Z) : fold_left Z.min l x <= x.
Proof.
  revert x. induction l as [|z l IH]; intros x; simpl; [lia|].
  specialize (IH (Z.min x z)). lia.
Qed.

Lemma fold_left_min_le (l : list Z) (x y : Z) :
  y ∈ l -> fold_left Z.min l x <= y.
Proof.
  revert x. induction l as [|z l IH]; intros x Hy; simpl.
  - by apply elem_of_nil in Hy.
  - apply elem_of_cons in Hy as [->|Hy]; [|by apply IH].
    pose proof (fold_left_min_le_init l (Z.min x z)). lia.
Qed.

Lemma fold_left_min_elem (l : list Z) (x : Z) :
  fold_left Z.min l x = x \/ fold_left Z.min l x ∈ l.
Proof.
  revert x. induction l as [|z l IH]; intros x; simpl; [by left|].
  destruct (IH (Z.min x z)) as [E|Hin].
  - rewrite E. destruct (Z.min_spec x z) as [[_ ->]|[_ ->]]; [by left|].
    right. apply elem_of_cons. by left.
  - right. apply elem_of_cons. by right.
Qed.

Lemma py_min_spec (l : list Z) :
  match py_min l with
  | Ok m => m ∈ l /\ forall y, y ∈ l -> m <= y
  | Raise _ => l = []
  end.
Proof.
  destruct l as [|x l]; simpl; [reflexivity|]. split.
  - destruct (fold_left_min_elem l x) as [->|Hin]; apply elem_of_cons; [by left|by right].
  - intros y Hy. apply elem_of_cons in Hy as [->|Hy].
    + apply fold_left_min_le_init.
    + by apply fold_left_min_le.
Qed.

(** C2: the bound computed by [plan_files] is the least
    [min_sequence_number] of the manifests with content [DATA], a missing
    number counting as [INITIAL_SEQUENCE_NUMBER = 0], and is
    [INITIAL_SEQUENCE_NUMBER] when there is no such manifest; a manifest is
    retained if and only if its content is [DATA], or its content is
    [DELETES] and its sequence number, [INITIAL_SEQUENCE_NUMBER] when
    missing, is at least that bound; the retained manifests keep their
    order.  And that retention is what [plan_files] does: when [manifests]
    are the manifests that survive the pruning of a scan, [plan_files] opens
    the retained manifests and no other, sorts their entries by content and
    builds the tasks from them; an exception of either step is the
    outcome. *)
Theorem sequence_number_discipline `{Planning} (manifests : list ManifestFile.t) :
  let bound := _min_data_file_sequence_number manifests in
  let number (x : option Z) := default INITIAL_SEQUENCE_NUMBER x in
  let retained (m : ManifestFile.t) : bool :=
    (ManifestFile.content m =? ManifestContent.DATA)
    || ((ManifestFile.content m =? ManifestContent.DELETES)
        && (bound <=? number (ManifestFile.sequence_number m))) in
  INITIAL_SEQUENCE_NUMBER = 0
  /\ (forall m, m ∈ manifests -> ManifestFile.content m = ManifestContent.DATA ->
        bound <= number (ManifestFile.min_sequence_number m))
  /\ ((exists m, m ∈ manifests /\ ManifestFile.content m = ManifestContent.DATA
                 /\ bound = number (ManifestFile.min_sequence_number m))
      \/ ((forall m, m ∈ manifests -> ManifestFile.content m <> ManifestContent.DATA)
          /\ bound = INITIAL_SEQUENCE_NUMBER))
  /\ (forall m, m ∈ DataScan.retained_manifests manifests <->
        m ∈ manifests
        /\ (ManifestFile.content m = ManifestContent.DATA
            \/ (ManifestFile.content m = ManifestContent.DELETES
                /\ bound <= number (ManifestFile.sequence_number m))))
  /\ DataScan.retained_manifests manifests = List.filter retained manifests
  /\ (forall (self s1 : TableScan.t) (snapshot : Snapshot.t) (schema : Schema.t),
        TableScan.snapshot self = Some snapshot ->
        DataScan.pruned_manifests snapshot self = (s1, Ok manifests) ->
        Table_schema (TableScan.table self) = Ok schema ->
        DataScan.plan_files self
        = match DataScan.opened_entries (List.filter retained manifests)
                  (DataScan.metrics_evaluator self schema) s1 with
          | (s2, Ok entries) =>
              (s2, match partition_entries entries [] [] with
                   | Ok (data_entries, positional_delete_entries) =>
                       Ok (DataScan.tasks data_entries positional_delete_entries)
                   | Raise e => Raise e
                   end)
          | (s2, Raise e) => (s2, Raise e)
          end).
Proof.
  intros bound number retained.
  assert (Hretained : DataScan.retained_manifests manifests = List.filter retained manifests).
  { unfold DataScan.retained_manifests. apply filter_ext. intros m.
    unfold _check_sequence_number, retained, number, bound.
    by rewrite or_initial_default. }
  subst bound number retained.
  unfold _min_data_file_sequence_number.
  set (data := List.filter _ manifests).
  assert (Hdata : forall m, m ∈ data <->
                    m ∈ manifests /\ ManifestFile.content m = ManifestContent.DATA).
  { intros m. unfold data. rewrite !list_elem_of_In, filter_In, Z.eqb_eq. tauto. }
  pose proof (py_min_spec (map (fun m => or_initial (ManifestFile.min_sequence_number m)) data))
    as Hmin.
  split; [reflexivity|]. split; [|split; [|split; [|split]]].
  - intros m Hm Hcontent.
    destruct (py_min _) as [least|e].
    + destruct Hmin as [_ Hle]. rewrite <- or_initial_default. apply Hle.
      apply list_elem_of_fmap. exists m. split; [reflexivity|]. apply Hdata. tauto.
    + apply map_eq_nil in Hmin.
      assert (Hin : m ∈ data) by (apply Hdata; tauto).
      rewrite Hmin in Hin. by apply elem_of_nil in Hin.
  - destruct (py_min _) as [least|e].
    + left. destruct Hmin as [Hin _].
      apply list_elem_of_fmap in Hin as (m & -> & Hm).
      exists m. apply Hdata in Hm as [Hm Hcontent].
      rewrite <- or_initial_default. tauto.
    + right. apply map_eq_nil in Hmin. split; [|reflexivity].
      intros m Hm Hcontent.
      assert (Hin : m ∈ data) by (apply Hdata; tauto).
      rewrite Hmin in Hin. by apply elem_of_nil in Hin.
  - intros m. unfold DataScan.retained_manifests, _check_sequence_number.
    rewrite list_elem_of_In, filter_In, <- list_elem_of_In.
    rewrite orb_true_iff, andb_true_iff, !Z.eqb_eq, Z.leb_le.
    rewrite <- or_initial_default.
    unfold _min_data_file_sequence_number. fold data. tauto.
  - exact Hretained.
  - intros self s1 snapshot schema Hsnap Hpruned Hschema.
    unfold _min_data_file_sequence_number in Hretained. fold data in Hretained.
    rewrite <- Hretained.
    unfold DataScan.plan_files, bind_st, get_st. rewrite Hsnap, Hpruned.
    unfold lift_st. rewrite Hschema. unfold DataScan.surviving_entries.
    destruct (DataScan.opened_entries _ _ s1) as [s2 [entries|e]]; [|reflexivity].
    destruct (partition_entries entries [] []) as [[d p]|e]; reflexivity.
Qed.

(** With a delete manifest older than the data in the snapshot, the delete
    file it lists is not read: the task of [a/1.parquet] has no delete
    file, though that file has the sequence number 7. *)
Lemma sequence_number_discipline_witness :
  @DataScan.plan_files _ Scenario2.stale_store (Scenario.fresh_scan Scenario.branches_table)
  = (Scenario.planned_scan, Ok [FileScanTask.mk Scenario.data_file_a1 [] 0 1024]).
Proof.
  refine (eq_trans
            (proj2 (proj2 (proj2 (proj2 (proj2
               (@sequence_number_discipline _ Scenario2.stale_store
                  [Scenario.data_manifest; Scenario2.stale_manifest])))))
               (Scenario.fresh_scan Scenario.branches_table) Scenario.planned_scan
               (Scenario.snapshot_with_id 42 "snap-42.avro") Scenario.id_data_schema
               eq_refl eq_refl eq_refl) _).
  vm_compute. reflexivity.
Defined.

(** Scenario 2 of the spec: both manifests are retained, the bound is 5. *)
Example sequence_number_discipline_scenario :
  _min_data_file_sequence_number [Scenario.data_manifest; Scenario.delete_manifest] = 5
  /\ DataScan.retained_manifests [Scenario.data_manifest; Scenario.delete_manifest]
     = [Scenario.data_manifest; Scenario.delete_manifest]
  /\ DataScan.retained_manifests
       [Scenario.data_manifest; ManifestFile.mk "m/old.avro" 0 ManifestContent.DELETES (Some 4) (Some 4)]
     = [Scenario.data_manifest].
Proof. repeat split; reflexivity. Qed.

(** ** Sorting the surviving entries by content *)

Lemma partition_entries_first_unsupported
    (entries data_entries positional_delete_entries : list ManifestEntry.t) :
  match List.find (fun entry => negb (supported_content entry)) entries with
  | Some entry =>
      partition_entries entries data_entries positional_delete_entries
        = Raise (content_error entry)
  | None =>
      exists d p, partition_entries entries data_entries positional_delete_entries = Ok (d, p)
  end.
Proof.
  revert data_entries positional_delete_entries.
  induction entries as [|entry entries IH]; intros d p; simpl.
  - by exists d, p.
  - unfold supported_content, content_error.
    destruct (DataFile.content (ManifestEntry.data_file entry) =? DataFileContent.DATA) eqn:E0;
      simpl; [apply IH|].
    destruct (DataFile.content (ManifestEntry.data_file entry)
              =? DataFileContent.POSITION_DELETES) eqn:E1; simpl; [apply IH|].
    destruct (DataFile.content (ManifestEntry.data_file entry)
              =? DataFileContent.EQUALITY_DELETES); reflexivity.
Qed.

Lemma partition_entries_ok
    (entries d p d' p' : list ManifestEntry.t) :
  partition_entries entries d p = Ok (d', p') ->
  SortedList.sorted sequence_key p ->
  SortedList.sorted sequence_key p'
  /\ (forall e, e ∈ d' <->
        e ∈ d \/ (e ∈ entries
                  /\ DataFile.content (ManifestEntry.data_file e) = DataFileContent.DATA))
  /\ (forall e, e ∈ p' <->
        e ∈ p \/ (e ∈ entries
                  /\ DataFile.content (ManifestEntry.data_file e)
                     = DataFileContent.POSITION_DELETES)).
Proof.
  revert d p. induction entries as [|entry entries IH]; intros d p Hok Hsorted; simpl in Hok.
  - injection Hok as <- <-. split; [exact Hsorted|].
    split; intros e; rewrite elem_of_nil; tauto.
  - destruct (DataFile.content (ManifestEntry.data_file entry) =? DataFileContent.DATA) eqn:E0.
    { apply Z.eqb_eq in E0.
      destruct (IH _ _ Hok Hsorted) as (Hs & Hd & Hp). split; [exact Hs|]. split; intros e.
      - rewrite Hd, elem_of_app, list_elem_of_singleton, elem_of_cons.
        split; [|intros [?|[[->|?] ?]]; tauto].
        intros [[?| ->]|[? ?]]; tauto.
      - rewrite Hp, elem_of_cons. split; [tauto|].
        intros [?|[[->|?] Hc]]; [tauto| |tauto].
        rewrite E0 in Hc. discriminate. }
    destruct (DataFile.content (ManifestEntry.data_file entry)
              =? DataFileContent.POSITION_DELETES) eqn:E1.
    { apply Z.eqb_eq in E1. apply Z.eqb_neq in E0.
      destruct (IH _ _ Hok (add_sorted sequence_key entry p Hsorted)) as (Hs & Hd & Hp).
      split; [exact Hs|]. split; intros e.
      - rewrite Hd, elem_of_cons. split; [tauto|].
        intros [?|[[->|?] Hc]]; [tauto|contradiction|tauto].
      - rewrite Hp, add_elem, elem_of_cons.
        split; [|intros [?|[[->|?] ?]]; tauto].
        intros [[->|?]|[? ?]]; tauto. }
    destruct (DataFile.content (ManifestEntry.data_file entry)
              =? DataFileContent.EQUALITY_DELETES); discriminate.
Qed.

(** ** The monadic list traversals of the planner *)

Section Traversals.
Context {S A B : Type}.

Lemma filter_st_elem (p : A -> StateExn S bool) (l kept : list A) (s s' : S) :
  DataScan.filter_st p l s = (s', Ok kept) -> forall x, x ∈ kept -> x ∈ l.
Proof.
  revert kept s s'. induction l as [|y l IH]; intros kept s s' Hrun x Hx; simpl in Hrun.
  - injection Hrun as _ <-. exact Hx.
  - unfold bind_st in Hrun.
    destruct (p y s) as [s1 [keep|e]]; [|discriminate].
    destruct (DataScan.filter_st p l s1) as [s2 [rest|e]] eqn:Erest; [|discriminate].
    injection Hrun as _ <-.
    specialize (IH rest s1 s2 Erest x).
    destruct keep; [|apply elem_of_cons; tauto].
    apply elem_of_cons in Hx as [->|Hx]; apply elem_of_cons; tauto.
Qed.

Lemma map_st_elem (f : A -> StateExn S B) (l : list A) (out : list B) (s s' : S) :
  DataScan.map_st f l s = (s', Ok out) ->
  forall y, y ∈ out -> exists x s0 s1, x ∈ l /\ f x s0 = (s1, Ok y).
Proof.
  revert out s s'. induction l as [|x l IH]; intros out s s' Hrun y Hy; simpl in Hrun.
  - injection Hrun as _ <-. by apply elem_of_nil in Hy.
  - unfold bind_st in Hrun.
    destruct (f x s) as [s1 [z|e]] eqn:Ez; [|discriminate].
    destruct (DataScan.map_st f l s1) as [s2 [rest|e]] eqn:Erest; [|discriminate].
    injection Hrun as _ <-.
    apply elem_of_cons in Hy as [->|Hy].
    + exists x, s, s1. split; [apply elem_of_cons; tauto|exact Ez].
    + destruct (IH rest s1 s2 Erest y Hy) as (x' & s0 & s1' & Hin & Hf).
      exists x', s0, s1'. split; [apply elem_of_cons; tauto|exact Hf].
Qed.
End Traversals.

(** ** Planning *)

Section PlanFacts.
Context `{Planning}.

(** The first three steps of [plan_files] on a scan with a snapshot. *)
Lemma plan_files_steps (self s1 s2 : TableScan.t) (snapshot : Snapshot.t)
    (schema : Schema.t) (manifests : list ManifestFile.t) (entries : list ManifestEntry.t) :
  TableScan.snapshot self = Some snapshot ->
  DataScan.pruned_manifests snapshot self = (s1, Ok manifests) ->
  Table_schema (TableScan.table self) = Ok schema ->
  DataScan.surviving_entries manifests (DataScan.metrics_evaluator self schema) s1
    = (s2, Ok entries) ->
  DataScan.plan_files self =
    (s2, match partition_entries entries [] [] with
         | Ok partitioned => Ok (DataScan.tasks (fst partitioned) (snd partitioned))
         | Raise e => Raise e
         end).
Proof.
  intros Hsnap Hpruned Hschema Hentries.
  unfold DataScan.plan_files, bind_st, get_st. rewrite Hsnap, Hpruned.
  unfold lift_st. rewrite Hschema.
  rewrite Hentries.
  destruct (partition_entries entries [] []); reflexivity.
Qed.

Lemma plan_files_inversion (self self' : TableScan.t) (planned : list FileScanTask.t) :
  DataScan.plan_files self = (self', Ok planned) ->
  (TableScan.snapshot self = None /\ planned = [])
  \/ exists snapshot s1 schema manifests entries data_entries positional_delete_entries,
       TableScan.snapshot self = Some snapshot
       /\ DataScan.pruned_manifests snapshot self = (s1, Ok manifests)
       /\ Table_schema (TableScan.table self) = Ok schema
       /\ DataScan.surviving_entries manifests (DataScan.metrics_evaluator self schema) s1
          = (self', Ok entries)
       /\ partition_entries entries [] [] = Ok (data_entries, positional_delete_entries)
       /\ planned = DataScan.tasks data_entries positional_delete_entries.
Proof.
  intros Hplan.
  destruct (TableScan.snapshot self) as [snapshot|] eqn:Hsnap.
  - right.
    unfold DataScan.plan_files, bind_st, get_st in Hplan. rewrite Hsnap in Hplan.
    destruct (DataScan.pruned_manifests snapshot self) as [s1 [manifests|e]] eqn:Hpruned;
      [|discriminate].
    unfold lift_st in Hplan.
    destruct (Table_schema (TableScan.table self)) as [schema|e] eqn:Hschema; [|discriminate].
    destruct (DataScan.surviving_entries manifests _ s1) as [s2 [entries|e]] eqn:Hentries;
      [|discriminate].
    destruct (partition_entries entries [] []) as [[d p]|e] eqn:Hpart; [|discriminate].
    injection Hplan as <- <-.
    exists snapshot, s1, schema, manifests, entries, d, p. by repeat split.
  - left. unfold DataScan.plan_files, bind_st, get_st in Hplan. rewrite Hsnap in Hplan.
    injection Hplan as _ <-. by split.
Qed.

Lemma pruned_manifests_elem (snapshot : Snapshot.t) (self s1 : TableScan.t)
    (kept : list ManifestFile.t) :
  DataScan.pruned_manifests snapshot self = (s1, Ok kept) ->
  forall manifest, manifest ∈ kept -> manifest ∈ manifests snapshot.
Proof. intros Hrun. exact (filter_st_elem _ _ _ _ _ Hrun). Qed.

Lemma retained_manifests_elem (kept : list ManifestFile.t) (manifest : ManifestFile.t) :
  manifest ∈ DataScan.retained_manifests kept -> manifest ∈ kept.
Proof.
  unfold DataScan.retained_manifests. rewrite !list_elem_of_In, filter_In. tauto.
Qed.

Lemma surviving_entries_elem (kept : list ManifestFile.t) (evaluator : DataFile.t -> bool)
    (s1 s2 : TableScan.t) (entries : list ManifestEntry.t) :
  DataScan.surviving_entries kept evaluator s1 = (s2, Ok entries) ->
  forall entry, entry ∈ entries ->
    exists manifest, manifest ∈ kept /\ entry ∈ fetch_manifest_entry manifest.
Proof.
  intros Hrun entry Hentry.
  unfold DataScan.surviving_entries, DataScan.opened_entries, bind_st in Hrun.
  destruct (DataScan.map_st _ _ s1) as [s [opened|e]] eqn:Hopened; [|discriminate].
  injection Hrun as _ <-.
  apply list_elem_of_In, in_concat in Hentry as (chunk & Hchunk & Hentry).
  apply list_elem_of_In in Hchunk, Hentry.
  destruct (map_st_elem _ _ _ _ _ Hopened chunk Hchunk) as (manifest & s0 & s0' & Hin & Hf).
  exists manifest. split; [by apply retained_manifests_elem|].
  unfold bind_st in Hf.
  destruct (DataScan._build_partition_evaluator _ s0) as [s3 [pe|e]]; [|discriminate].
  injection Hf as _ <-.
  unfold _open_manifest in Hentry.
  rewrite list_elem_of_In, filter_In, <- list_elem_of_In in Hentry. tauto.
Qed.

(** A set of data files holds files that were added, one for each path
    that was added, and no two of the same path. *)
Lemma set_fold_elem (files acc : list DataFile.t) (file : DataFile.t) :
  file ∈ fold_left DataFileSet.add files acc -> file ∈ acc \/ file ∈ files.
Proof.
  revert acc. induction files as [|f files IH]; intros acc Hin; simpl in Hin; [by left|].
  apply IH in Hin as [Hin|Hin]; [|right; by right].
  unfold DataFileSet.add in Hin. destruct (existsb _ acc); [by left|].
  apply elem_of_app in Hin as [Hin|Hin]; [by left|].
  apply list_elem_of_singleton in Hin as ->. right. by left.
Qed.

Lemma set_fold_keeps (files acc : list DataFile.t) (file : DataFile.t) :
  file ∈ acc -> file ∈ fold_left DataFileSet.add files acc.
Proof.
  revert acc. induction files as [|f files IH]; intros acc Hin; simpl; [exact Hin|].
  apply IH. unfold DataFileSet.add. destruct (existsb _ acc); [exact Hin|].
  apply elem_of_app. by left.
Qed.

Lemma set_fold_covers (files acc : list DataFile.t) (file : DataFile.t) :
  file ∈ files ->
  exists kept, kept ∈ fold_left DataFileSet.add files acc
               /\ DataFile.file_path kept = DataFile.file_path file.
Proof.
  revert acc. induction files as [|f files IH]; intros acc Hin; simpl.
  - by apply elem_of_nil in Hin.
  - apply elem_of_cons in Hin as [->|Hin]; [|by apply IH].
    unfold DataFileSet.add. destruct (existsb (DataFileSet.same_path f) acc) eqn:Hseen.
    + apply existsb_exists in Hseen as (kept & Hkept & Hsame).
      exists kept. split; [apply set_fold_keeps; by apply list_elem_of_In|].
      unfold DataFileSet.same_path in Hsame. apply String.eqb_eq in Hsame. by symmetry.
    + exists f. split; [|reflexivity]. apply set_fold_keeps, elem_of_app. right.
      by apply list_elem_of_singleton.
Qed.

Lemma set_fold_distinct_paths (files acc : list DataFile.t) :
  NoDup (map DataFile.file_path acc) ->
  NoDup (map DataFile.file_path (fold_left DataFileSet.add files acc)).
Proof.
  revert acc. induction files as [|f files IH]; intros acc Hacc; simpl; [exact Hacc|].
  apply IH. unfold DataFileSet.add.
  destruct (existsb (DataFileSet.same_path f) acc) eqn:Hseen; [exact Hacc|].
  rewrite map_app. simpl. apply NoDup_app. split; [exact Hacc|]. split.
  - intros path Hpath Hf. apply list_elem_of_singleton in Hf as ->.
    apply list_elem_of_fmap in Hpath as (g & Hsame & Hg).
    assert (existsb (DataFileSet.same_path f) acc = true) as Htrue.
    { apply existsb_exists. exists g. split; [by apply list_elem_of_In|].
      unfold DataFileSet.same_path. apply String.eqb_eq. exact Hsame. }
    rewrite Htrue in Hseen. discriminate.
  - apply NoDup_singleton.
Qed.

(** The delete files matched to a data entry: each belongs to a positional
    delete entry with a greater sequence key that the evaluator accepts. *)
Lemma match_deletes_elem (data_entry : ManifestEntry.t)
    (positional_delete_entries : list ManifestEntry.t) (delete_file : DataFile.t) :
  SortedList.sorted sequence_key positional_delete_entries ->
  delete_file ∈ _match_deletes_to_datafile data_entry positional_delete_entries ->
  exists delete_entry,
    delete_entry ∈ positional_delete_entries
    /\ ManifestEntry.data_file delete_entry = delete_file
    /\ sequence_key data_entry < sequence_key delete_entry
    /\ file_path_evaluator data_entry delete_file = true.
Proof.
  intros Hsorted. unfold _match_deletes_to_datafile.
  set (relevant := drop _ positional_delete_entries).
  assert (Hrel : forall e, e ∈ relevant <->
                   e ∈ positional_delete_entries /\ sequence_key data_entry < sequence_key e).
  { intros e. by apply drop_bisect_right_elem. }
  destruct (0 <? Z.of_nat (List.length relevant)); [|intros Hin; by apply elem_of_nil in Hin].
  intros Hin. unfold DataFileSet.of_list in Hin.
  apply set_fold_elem in Hin as [Hin|Hin]; [by apply elem_of_nil in Hin|].
  apply list_elem_of_fmap in Hin as (e & -> & He).
  rewrite list_elem_of_In, filter_In, <- list_elem_of_In, Hrel in He.
  exists e. tauto.
Qed.

(** Every positional delete entry with a greater sequence key that the
    evaluator accepts is represented among the matched files by a file of
    its path. *)
Lemma match_deletes_covers (data_entry delete_entry : ManifestEntry.t)
    (positional_delete_entries : list ManifestEntry.t) :
  SortedList.sorted sequence_key positional_delete_entries ->
  delete_entry ∈ positional_delete_entries ->
  sequence_key data_entry < sequence_key delete_entry ->
  file_path_evaluator data_entry (ManifestEntry.data_file delete_entry) = true ->
  exists kept,
    kept ∈ _match_deletes_to_datafile data_entry positional_delete_entries
    /\ DataFile.file_path kept = DataFile.file_path (ManifestEntry.data_file delete_entry).
Proof.
  intros Hsorted Hin Hlt Heval. unfold _match_deletes_to_datafile.
  set (relevant := drop _ positional_delete_entries).
  assert (Hrel : forall e, e ∈ relevant <->
                   e ∈ positional_delete_entries /\ sequence_key data_entry < sequence_key e).
  { intros e. by apply drop_bisect_right_elem. }
  assert (Hrelevant : delete_entry ∈ relevant) by (apply Hrel; tauto).
  destruct (0 <? Z.of_nat (List.length relevant)) eqn:Hlen.
  - apply set_fold_covers, list_elem_of_fmap. exists delete_entry. split; [reflexivity|].
    rewrite list_elem_of_In, filter_In, <- list_elem_of_In. tauto.
  - apply Z.ltb_ge in Hlen. destruct relevant; [|simpl in Hlen; lia].
    by apply elem_of_nil in Hrelevant.
Qed.

(** No two matched files have the same path. *)
Lemma match_deletes_distinct_paths (data_entry : ManifestEntry.t)
    (positional_delete_entries : list ManifestEntry.t) :
  NoDup (map DataFile.file_path
             (_match_deletes_to_datafile data_entry positional_delete_entries)).
Proof.
  unfold _match_deletes_to_datafile.
  destruct (0 <? _); [|apply NoDup_nil; done].
  apply set_fold_distinct_paths. apply NoDup_nil. done.
Qed.

End PlanFacts.

(** C1: in every task that [plan_files] returns, each delete file belongs to
    a positional delete entry read from the snapshot of the scan whose data
    sequence number is strictly greater than that of the data entry of the
    task (the entries after the upper bound of the data entry in the list
    sorted by data sequence number, a missing number counting as
    [INITIAL_SEQUENCE_NUMBER]), and the inclusive metrics evaluator of the
    predicate [file_path = data_file.file_path] over the schema of positional
    deletes accepts the delete file. *)
Theorem plan_files_delete_applicability `{Planning}
    (self self' : TableScan.t) (planned : list FileScanTask.t)
    (task : FileScanTask.t) (delete_file : DataFile.t) :
  DataScan.plan_files self = (self', Ok planned) ->
  task ∈ planned ->
  delete_file ∈ FileScanTask.delete_files task ->
  exists snapshot data_entry delete_entry,
    TableScan.snapshot self = Some snapshot
    /\ read_from snapshot data_entry
    /\ read_from snapshot delete_entry
    /\ FileScanTask.file task = ManifestEntry.data_file data_entry
    /\ DataFile.content (FileScanTask.file task) = DataFileContent.DATA
    /\ ManifestEntry.data_file delete_entry = delete_file
    /\ DataFile.content delete_file = DataFileContent.POSITION_DELETES
    /\ or_initial (ManifestEntry.data_sequence_number data_entry)
       < or_initial (ManifestEntry.data_sequence_number delete_entry)
    /\ _InclusiveMetricsEvaluator POSITIONAL_DELETE_SCHEMA
         (EqualTo "file_path" (DataFile.file_path (FileScanTask.file task))) true false
         delete_file = true.
Proof.
  intros Hplan Htask Hdelete.
  apply plan_files_inversion in Hplan
    as [[_ ->]|(snapshot & s1 & schema & kept & entries & d & p
                & Hsnap & Hpruned & Hschema & Hentries & Hpart & ->)];
    [by apply elem_of_nil in Htask|].
  destruct (partition_entries_ok _ _ _ _ _ Hpart (SortedList.sorted_nil _))
    as (Hsorted & Hd & Hp).
  unfold DataScan.tasks in Htask.
  apply list_elem_of_fmap in Htask as (data_entry & -> & Hdata).
  simpl in Hdelete.
  apply (match_deletes_elem _ _ _ Hsorted) in Hdelete
    as (delete_entry & Hin & Hfile & Hlt & Heval).
  apply Hd in Hdata as [Hdata|[Hdata Hcontent]]; [by apply elem_of_nil in Hdata|].
  apply Hp in Hin as [Hin|[Hin Hdcontent]]; [by apply elem_of_nil in Hin|].
  assert (Hread : forall entry, entry ∈ entries -> read_from snapshot entry).
  { intros entry Hentry.
    destruct (surviving_entries_elem _ _ _ _ _ Hentries entry Hentry) as (m & Hm & Hfetch).
    exists m. split; [|exact Hfetch]. by eapply pruned_manifests_elem. }
  exists snapshot, data_entry, delete_entry. simpl.
  repeat split; try done; try by apply Hread.
  by rewrite <- Hfile.
Qed.

(** Scenario 2 of the spec: the delete file of sequence number 7 is paired
    with [a/1.parquet] of sequence number 5. *)
Lemma plan_files_delete_applicability_witness :
  exists snapshot data_entry delete_entry,
    TableScan.snapshot (Scenario.fresh_scan Scenario.branches_table) = Some snapshot
    /\ @read_from _ Scenario.store snapshot data_entry
    /\ @read_from _ Scenario.store snapshot delete_entry
    /\ Scenario.data_file_a1 = ManifestEntry.data_file data_entry
    /\ DataFile.content Scenario.data_file_a1 = DataFileContent.DATA
    /\ ManifestEntry.data_file delete_entry = Scenario.delete_file "d/7.parquet"
    /\ DataFile.content (Scenario.delete_file "d/7.parquet") = DataFileContent.POSITION_DELETES
    /\ or_initial (ManifestEntry.data_sequence_number data_entry)
       < or_initial (ManifestEntry.data_sequence_number delete_entry)
    /\ Reference.inclusive_metrics Reference.positional_delete_schema
         (Reference.PEqualTo "file_path" "a/1.parquet") true false
         (Scenario.delete_file "d/7.parquet") = true.
Proof.
  apply (@plan_files_delete_applicability _ Scenario.store
           (Scenario.fresh_scan Scenario.branches_table)
           Scenario.planned_scan
           [FileScanTask.mk Scenario.data_file_a1 [Scenario.delete_file "d/7.parquet"] 0 1024]
           (FileScanTask.mk Scenario.data_file_a1 [Scenario.delete_file "d/7.parquet"] 0 1024)
           (Scenario.delete_file "d/7.parquet")).
  - vm_compute. reflexivity.
  - apply list_elem_of_singleton. reflexivity.
  - apply list_elem_of_singleton. reflexivity.
Defined.

(** C9, as the code has it: the entries are taken in order, and the first
    surviving entry whose content is neither [DATA] nor [POSITION_DELETES]
    decides the error.  [plan_files] then returns no task and raises the
    [ValueError] for equality deletes (the spec's UnsupportedFeature) when
    that content is [EQUALITY_DELETES], and the [ValueError] for an unknown
    content (the spec's InvariantViolation) otherwise.  Without such an entry
    planning goes through. *)
Theorem plan_files_first_unsupported_entry `{Planning}
    (self s1 s2 : TableScan.t) (snapshot : Snapshot.t) (schema : Schema.t)
    (kept : list ManifestFile.t) (entries : list ManifestEntry.t) :
  TableScan.snapshot self = Some snapshot ->
  DataScan.pruned_manifests snapshot self = (s1, Ok kept) ->
  Table_schema (TableScan.table self) = Ok schema ->
  DataScan.surviving_entries kept (DataScan.metrics_evaluator self schema) s1
    = (s2, Ok entries) ->
  match List.find (fun entry => negb (supported_content entry)) entries with
  | Some entry =>
      let content := DataFile.content (ManifestEntry.data_file entry) in
      DataScan.plan_files self =
        (s2, Raise (ValueError (if content =? DataFileContent.EQUALITY_DELETES
                                then EqualityDeletesNotSupported
                                else UnknownDataFileContent content)))
  | None => exists planned, DataScan.plan_files self = (s2, Ok planned)
  end.
Proof.
  intros Hsnap Hpruned Hschema Hentries.
  rewrite (plan_files_steps _ _ _ _ _ _ _ Hsnap Hpruned Hschema Hentries).
  pose proof (partition_entries_first_unsupported entries [] []) as Hfirst.
  destruct (List.find _ entries) as [entry|].
  - rewrite Hfirst. unfold content_error. simpl.
    destruct (_ =? DataFileContent.EQUALITY_DELETES); reflexivity.
  - destruct Hfirst as (d & p & ->). by eexists.
Qed.

(** A snapshot with a data file and an equality delete: planning raises the
    error for equality deletes. *)
Lemma plan_files_first_unsupported_entry_witness :
  @DataScan.plan_files _ Scenario.equality_store (Scenario.fresh_scan Scenario.branches_table)
  = (Scenario.planned_scan, Raise (ValueError EqualityDeletesNotSupported)).
Proof.
  exact (@plan_files_first_unsupported_entry _ Scenario.equality_store
           (Scenario.fresh_scan Scenario.branches_table)
           Scenario.planned_scan Scenario.planned_scan
           (Scenario.snapshot_with_id 42 "snap-42.avro")
           Scenario.id_data_schema
           [Scenario.data_manifest; Scenario.mixed_manifest]
           [Scenario.data_entry_a1; Scenario.equality_entry]
           eq_refl eq_refl eq_refl eq_refl).
Defined.

(** C9 as stated fails when an entry of unknown content comes first: an
    equality delete survives, and [plan_files] raises the error for the
    unknown content, not the one for equality deletes. *)
Lemma plan_files_unknown_content_before_equality_delete :
  snd (@DataScan.surviving_entries _ Scenario.mixed_store
         [Scenario.data_manifest; Scenario.mixed_manifest]
         (@DataScan.metrics_evaluator _ Scenario.mixed_store
            (Scenario.fresh_scan Scenario.branches_table) Scenario.id_data_schema)
         Scenario.planned_scan)
    = Ok [Scenario.data_entry_a1; Scenario.unknown_entry; Scenario.equality_entry]
  /\ DataFile.content (ManifestEntry.data_file Scenario.equality_entry)
     = DataFileContent.EQUALITY_DELETES
  /\ snd (@DataScan.plan_files _ Scenario.mixed_store
            (Scenario.fresh_scan Scenario.branches_table))
     = Raise (ValueError (UnknownDataFileContent 3))
  /\ snd (@DataScan.plan_files _ Scenario.mixed_store
            (Scenario.fresh_scan Scenario.branches_table))
     <> Raise (ValueError EqualityDeletesNotSupported).
Proof.
  split; [vm_compute; reflexivity|]. split; [reflexivity|].
  split; [vm_compute; reflexivity|]. vm_compute. discriminate.
Qed.

(** A scan that resolves to no snapshot plans no task and stays as it is. *)
Lemma plan_files_without_snapshot `{Planning} (self : TableScan.t) :
  TableScan.snapshot self = None -> DataScan.plan_files self = (self, Ok []).
Proof.
  intros Hnone. unfold DataScan.plan_files, bind_st, get_st. by rewrite Hnone.
Qed.

Lemma plan_files_without_snapshot_witness :
  @DataScan.plan_files _ Scenario.store (Scenario.fresh_scan Scenario.a_table)
  = (Scenario.fresh_scan Scenario.a_table, Ok []).
Proof.
  exact (@plan_files_without_snapshot _ Scenario.store (Scenario.fresh_scan Scenario.a_table)
           eq_refl).
Defined.

(** ** Schema evolution *)

Section BuilderFacts.
Context `{SchemaEngine}.

(** The replacement [update_column] stages: the requested type on the
    field as staged so far. *)
Lemma update_column_cases (self : UpdateSchema.t) (path : Path) (field : NestedField)
    (requested : IcebergType) :
  find_field (UpdateSchema._schema self) (join (as_tuple path)) true = Ok field ->
  UpdateSchema.update_column path requested self =
    if bool_decide (field_id field ∈ UpdateSchema._deletes self)
    then (self, Raise (ValueError (CannotUpdateDeleted (join (as_tuple path)))))
    else if bool_decide (field_type field = requested)
    then (self, Ok tt)
    else
      let staged := default field (UpdateSchema._updates self !! field_id field) in
      (UpdateSchema.set_updates self
         (<[field_id field := mkNestedField (field_id staged) (name staged) requested
                                            (required staged) (doc staged)]>
            (UpdateSchema._updates self)),
       Ok tt).
Proof.
  intros Hfind. unfold UpdateSchema.update_column. rewrite Hfind.
  repeat case_bool_decide; try reflexivity.
  destruct (UpdateSchema._updates self !! field_id field); reflexivity.
Qed.

(** [_set_column_requirement] by cases: a change that is none returns at
    once; the guard on [allow_incompatible_changes] fires for
    [required = False] with the flag set, and never for
    [required = True]. *)
Lemma set_column_requirement_cases (self : UpdateSchema.t) (path : Path)
    (field : NestedField) (is_required : bool) :
  find_field (UpdateSchema._schema self) (join (as_tuple path)) true = Ok field ->
  UpdateSchema._set_column_requirement path is_required self =
    if bool_decide (required field = is_required) then (self, Ok tt)
    else if UpdateSchema._allow_incompatible_changes self && negb is_required
    then (self, Raise (ValueError (CannotChangeNullability (join (as_tuple path)))))
    else if bool_decide (field_id field ∈ UpdateSchema._deletes self)
    then (self, Raise (ValueError (CannotUpdateDeleted (join (as_tuple path)))))
    else
      let staged := default field (UpdateSchema._updates self !! field_id field) in
      (UpdateSchema.set_updates self
         (<[field_id field := mkNestedField (field_id staged) (name staged)
                                            (field_type staged) is_required (doc staged)]>
            (UpdateSchema._updates self)),
       Ok tt).
Proof.
  intros Hfind. unfold UpdateSchema._set_column_requirement. rewrite Hfind.
  unfold optional.
  destruct (required field), is_required; simpl;
    repeat case_bool_decide; try done;
    destruct (UpdateSchema._allow_incompatible_changes self); simpl; try reflexivity;
    destruct (UpdateSchema._updates self !! field_id field); reflexivity.
Qed.

(** The parts of the nullability rules that hold on the code: a change
    that is none is accepted whatever the flag is. *)
Lemma nullability_noop (self : UpdateSchema.t) (path : Path) (field : NestedField) :
  find_field (UpdateSchema._schema self) (join (as_tuple path)) true = Ok field ->
  (required field = true -> UpdateSchema.require_column path self = (self, Ok tt))
  /\ (required field = false -> UpdateSchema.make_column_optional path self = (self, Ok tt)).
Proof.
  intros Hfind.
  unfold UpdateSchema.require_column, UpdateSchema.make_column_optional.
  rewrite !(set_column_requirement_cases _ _ _ _ Hfind).
  split; intros ->; reflexivity.
Qed.


(** When [_apply] gives a schema, [commit] stages or sends the updates
    [AddSchemaUpdate] (with the highest field id of the new schema) and
    [SetCurrentSchemaUpdate(-1)], and the requirement [AssertCurrentSchemaId]
    of the schema the builder started from. *)
Lemma commit_payload `{Catalog} (self : UpdateSchema.t) (w : Transaction.World)
    (new_schema : Schema.t) :
  UpdateSchema._apply self = Ok new_schema ->
  let updates :=
    [AddSchemaUpdate new_schema (highest_field_id new_schema); SetCurrentSchemaUpdate (-1)] in
  let requirements := [AssertCurrentSchemaId (Schema.schema_id (UpdateSchema._schema self))] in
  (UpdateSchema._transaction self = None ->
     Transaction.commit_calls (snd (fst (UpdateSchema.commit (self, w)))) =
       Transaction.commit_calls w
         ++ [mkCommitTableRequest (tail (identifier (Transaction.table w)))
                                  requirements updates])
  /\ (UpdateSchema._transaction self = Some Transaction.init ->
        UpdateSchema.commit (self, w) =
          ((UpdateSchema.set_transaction self (Some (Transaction.mk updates requirements)), w),
           Ok tt)).
Proof.
  intros Happly updates requirements. unfold UpdateSchema.commit. rewrite Happly. split.
  - intros ->. unfold Transaction._do_commit.
    destruct (_commit_table _ _) as [c' [response|e]]; reflexivity.
  - intros ->. reflexivity.
Qed.

End BuilderFacts.

(** C3, as the code has it: [update_column] has no promotion check.  For a
    field found at the path that is not staged for deletion, a requested type
    that differs from the current one is staged whatever the two types and
    [allow_incompatible_changes] are; an equal type changes nothing; for a
    field staged for deletion the call raises [ValueError]. *)
Theorem update_column_stages_every_type `{SchemaEngine}
    (self : UpdateSchema.t) (path : Path) (field : NestedField) (requested : IcebergType) :
  find_field (UpdateSchema._schema self) (join (as_tuple path)) true = Ok field ->
  (field_id field ∉ UpdateSchema._deletes self -> field_type field <> requested ->
     let staged := default field (UpdateSchema._updates self !! field_id field) in
     UpdateSchema.update_column path requested self =
       (UpdateSchema.set_updates self
          (<[field_id field := mkNestedField (field_id staged) (name staged) requested
                                             (required staged) (doc staged)]>
             (UpdateSchema._updates self)),
        Ok tt))
  /\ (field_id field ∉ UpdateSchema._deletes self -> field_type field = requested ->
        UpdateSchema.update_column path requested self = (self, Ok tt))
  /\ (field_id field ∈ UpdateSchema._deletes self ->
        UpdateSchema.update_column path requested self =
          (self, Raise (ValueError (CannotUpdateDeleted (join (as_tuple path)))))).
Proof.
  intros Hfind. rewrite (update_column_cases _ _ _ _ Hfind).
  repeat split; intros; repeat case_bool_decide; done.
Qed.

#[local] Existing Instance Reference.schema_engine.

Lemma nullability_noop_witness :
  UpdateSchema.make_column_optional (PathString "id") Scenario.builder
    = (Scenario.builder, Ok tt)
  /\ UpdateSchema.require_column (PathString "id") Scenario.permissive_builder
     = (Scenario.permissive_builder, Ok tt).
Proof.
  split.
  - exact (proj2 (@nullability_noop Reference.schema_engine Scenario.builder (PathString "id")
                    (mkNestedField 1 "id" (Primitive IntegerType) false None) eq_refl)
                 eq_refl).
  - exact (proj1 (@nullability_noop Reference.schema_engine Scenario.permissive_builder
                    (PathString "id")
                    (mkNestedField 1 "id" (Primitive IntegerType) true None) eq_refl)
                 eq_refl).
Defined.

Lemma commit_payload_witness :
  Transaction.commit_calls
    (snd (fst (@UpdateSchema.commit _ Scenario.accepting_catalog
                 (Scenario.builder, Scenario.schema_world))))
  = [mkCommitTableRequest ["db"; "events"] [AssertCurrentSchemaId 7]
       [AddSchemaUpdate (Schema.mk (Schema.fields Scenario.id_data_schema) 0 []) 2;
        SetCurrentSchemaUpdate (-1)]].
Proof.
  exact (proj1 (@commit_payload Reference.schema_engine Scenario.accepting_catalog
                  Scenario.builder Scenario.schema_world
                  (Schema.mk (Schema.fields Scenario.id_data_schema) 0 []) eq_refl)
               eq_refl).
Defined.


(** Scenario 4 of the spec on the code: [update_column("id", int)] on a
    [long] column. *)
Lemma update_column_stages_every_type_witness :
  UpdateSchema.update_column (PathString "id") (Primitive IntegerType) Scenario.long_id_builder
  = (UpdateSchema.set_updates Scenario.long_id_builder
       {[ 1 := mkNestedField 1 "id" (Primitive IntegerType) false None ]},
     Ok tt).
Proof.
  refine (proj1 (@update_column_stages_every_type Reference.schema_engine
                   Scenario.long_id_builder (PathString "id")
                   (mkNestedField 1 "id" (Primitive LongType) false None)
                   (Primitive IntegerType) eq_refl) _ _).
  - vm_compute. discriminate.
  - discriminate.
Defined.

(** C3 as stated fails on scenario 4 of the spec: [long] to [int] is no safe
    promotion, incompatible changes are not allowed, and the call succeeds
    and stages the type [int]. *)
Lemma update_column_accepts_demotion :
  find_field Scenario.long_id_schema "id" true
    = Ok (mkNestedField 1 "id" (Primitive LongType) false None)
  /\ spec_safe_promotion (Primitive LongType) (Primitive IntegerType) = false
  /\ UpdateSchema._allow_incompatible_changes Scenario.long_id_builder = false
  /\ snd (UpdateSchema.update_column (PathString "id") (Primitive IntegerType)
            Scenario.long_id_builder) = Ok tt
  /\ UpdateSchema._updates
       (fst (UpdateSchema.update_column (PathString "id") (Primitive IntegerType)
               Scenario.long_id_builder)) !! 1
     = Some (mkNestedField 1 "id" (Primitive IntegerType) false None).
Proof. repeat split; vm_compute; reflexivity. Qed.

(** C6 (the code departs from it): the guard of [_set_column_requirement]
    is reached only by real changes and tests
    [allow_incompatible_changes and not required].  So [require_column] on
    the optional column [id] is staged although incompatible changes are not
    allowed, and [make_column_optional] on a required column is refused, with
    the message for optional to required, once they are allowed. *)
Theorem require_column_ignores_the_flag :
  UpdateSchema._allow_incompatible_changes Scenario.builder = false
  /\ find_field Scenario.id_data_schema "id" true
     = Ok (mkNestedField 1 "id" (Primitive IntegerType) false None)
  /\ UpdateSchema.require_column (PathString "id") Scenario.builder
     = (UpdateSchema.set_updates Scenario.builder
          {[ 1 := mkNestedField 1 "id" (Primitive IntegerType) true None ]},
        Ok tt)
  /\ UpdateSchema._allow_incompatible_changes Scenario.permissive_builder = true
  /\ UpdateSchema.make_column_optional (PathString "id") Scenario.permissive_builder
     = (Scenario.permissive_builder, Raise (ValueError (CannotChangeNullability "id"))).
Proof. repeat split; vm_compute; reflexivity. Qed.

(** C4 (the code departs from it): on scenario 3 of the spec the rename and
    the addition are staged, with [extra] at id 3, but [commit] raises
    [TypeError] in [_add_fields], which hands three fields to [tuple]; no
    schema is built and nothing reaches the catalog.  With the rename alone,
    [_apply] leaves the name [data] in place and then misses the identifier
    field [payload]. *)
Theorem rename_and_add_commit_raises :
  UpdateSchema._updates Scenario.renamed_and_added
    = {[ 2 := mkNestedField 2 "payload" (Primitive StringType) false None ]}
  /\ UpdateSchema._adds Scenario.renamed_and_added
     = {[ TABLE_ROOT_ID := [mkNestedField 3 "extra" (Primitive LongType) false None] ]}
  /\ UpdateSchema._apply Scenario.renamed_and_added
     = Raise (TypeError (TupleExpectedAtMostOneArgument 3))
  /\ @UpdateSchema.commit _ Scenario.accepting_catalog
       (Scenario.renamed_and_added, Scenario.schema_world)
     = ((Scenario.renamed_and_added, Scenario.schema_world),
        Raise (TypeError (TupleExpectedAtMostOneArgument 3)))
  /\ _ApplyChanges.visit (UpdateSchema._adds Scenario.renamed)
       (UpdateSchema._updates Scenario.renamed) (UpdateSchema._deletes Scenario.renamed)
       (UpdateSchema._moves Scenario.renamed)
       (StructType (Schema.fields Scenario.id_data_schema))
     = Ok (Some (StructType (Schema.fields Scenario.id_data_schema)))
  /\ UpdateSchema._apply Scenario.renamed
     = Raise (ValueError (CannotAddIdentifierField "payload")).
Proof. repeat split; vm_compute; reflexivity. Qed.

(** ** More on transactions *)

Section MoreTransactionFacts.

Lemma check_new_updates_ok (staged new_updates : list TableUpdate) :
  Transaction.check_new_updates staged new_updates = Ok tt
  <-> forall n s, n ∈ new_updates -> s ∈ staged -> update_type s <> update_type n.
Proof.
  induction new_updates as [|u rest IH]; simpl.
  - split; [|reflexivity]. intros _ n s Hn. by apply elem_of_nil in Hn.
  - destruct (existsb _ staged) eqn:E.
    + split; [discriminate|]. intros Hall.
      apply existsb_kind in E as (s & Hs & Hk).
      destruct (Hall u s); [apply elem_of_cons; by left|exact Hs|exact Hk].
    + rewrite IH. split.
      * intros Hall n s Hn Hs Hk. apply elem_of_cons in Hn as [-> | Hn]; [|by eapply Hall].
        assert (existsb (fun x => bool_decide (update_type x = update_type u)) staged = true)
          as Habs by (apply existsb_kind; eauto).
        congruence.
      * intros Hall n s Hn. apply Hall. apply elem_of_cons. by right.
Qed.

Lemma check_new_updates_raise (staged new_updates : list TableUpdate) (e : exn) :
  Transaction.check_new_updates staged new_updates = Raise e ->
  exists n s, n ∈ new_updates /\ s ∈ staged /\ update_type s = update_type n
              /\ e = ValueError (UpdatesNotUnique (update_type n)).
Proof.
  induction new_updates as [|u rest IH]; simpl; [discriminate|].
  destruct (existsb _ staged) eqn:E.
  - intros [= <-]. apply existsb_kind in E as (s & Hs & Hk).
    exists u, s. repeat split; try done. apply elem_of_cons. by left.
  - intros Hrest. destruct (IH Hrest) as (n & s & Hn & Hs & Hk & ->).
    exists n, s. repeat split; try done. apply elem_of_cons. by right.
Qed.

End MoreTransactionFacts.



(** When [_append_updates] raises, nothing is staged, and the error names
    the kind of a new update that is staged already. *)
Lemma append_updates_failure_stages_nothing (self self' : Transaction.t)
    (new_updates : list TableUpdate) (e : exn) :
  Transaction._append_updates new_updates self = (self', Raise e) ->
  self' = self
  /\ exists n s, n ∈ new_updates /\ s ∈ Transaction._updates self
                 /\ update_type s = update_type n
                 /\ e = ValueError (UpdatesNotUnique (update_type n)).
Proof.
  unfold Transaction._append_updates.
  destruct (Transaction.check_new_updates _ _) as [[]|e'] eqn:Hcheck; [discriminate|].
  intros [= <- <-]. split; [reflexivity|]. by apply check_new_updates_raise.
Qed.

Lemma append_updates_failure_stages_nothing_witness :
  Scenario.one_update = Scenario.one_update
  /\ exists n s,
       n ∈ [SetPropertiesUpdate ∅; SetLocationUpdate "s3://bucket/again"]
       /\ s ∈ Transaction._updates Scenario.one_update
       /\ update_type s = update_type n
       /\ ValueError (UpdatesNotUnique set_location)
          = ValueError (UpdatesNotUnique (update_type n)).
Proof.
  apply (append_updates_failure_stages_nothing Scenario.one_update Scenario.one_update
           [SetPropertiesUpdate ∅; SetLocationUpdate "s3://bucket/again"]).
  reflexivity.
Defined.

(** The uniqueness test looks at the staged updates only: a transaction
    without staged updates accepts every list of new updates, also one that
    holds a kind twice. *)
Lemma append_updates_unchecked_among_new (self : Transaction.t)
    (new_updates : list TableUpdate) :
  Transaction._updates self = [] ->
  Transaction._append_updates new_updates self
  = (Transaction.mk new_updates (Transaction._requirements self), Ok tt).
Proof.
  intros Hempty. unfold Transaction._append_updates. rewrite Hempty.
  assert (Transaction.check_new_updates [] new_updates = Ok tt) as ->.
  { apply check_new_updates_ok. intros n s _ Hs. by apply elem_of_nil in Hs. }
  reflexivity.
Qed.

Lemma append_updates_unchecked_among_new_witness :
  Transaction._append_updates
    [SetLocationUpdate "s3://bucket/a"; SetLocationUpdate "s3://bucket/b"] Transaction.init
  = (Transaction.mk [SetLocationUpdate "s3://bucket/a"; SetLocationUpdate "s3://bucket/b"] [],
     Ok tt).
Proof.
  exact (append_updates_unchecked_among_new Transaction.init
           [SetLocationUpdate "s3://bucket/a"; SetLocationUpdate "s3://bucket/b"] eq_refl).
Defined.

(** The outcome of a commit with staged updates follows the catalog.  When
    the catalog answers, the table keeps its identifier and takes the
    metadata and the metadata location of the answer, and that table is
    returned; when the catalog raises, the exception passes through and the
    table is unchanged.  In both cases the request has been sent. *)
Lemma commit_transaction_follows_catalog `{Catalog}
    (self : Transaction.t) (w : Transaction.World) (c' : CatalogState)
    (answer : result CommitTableResponse) :
  Transaction._updates self <> [] ->
  _commit_table (Transaction.commit_request self (Transaction.table w)) (Transaction.catalog w)
    = (c', answer) ->
  Transaction.commit_transaction self w =
    match answer with
    | Ok response =>
        let table' :=
          mkTable (identifier (Transaction.table w)) (response_metadata response)
                  (response_metadata_location response) in
        (Transaction.mkWorld table' c'
           (Transaction.commit_calls w
              ++ [Transaction.commit_request self (Transaction.table w)]),
         Ok table')
    | Raise e =>
        (Transaction.mkWorld (Transaction.table w) c'
           (Transaction.commit_calls w
              ++ [Transaction.commit_request self (Transaction.table w)]),
         Raise e)
    end.
Proof.
  intros Hne Hanswer. unfold Transaction.commit_transaction.
  destruct (Transaction._updates self) as [|u us] eqn:E; [done|].
  replace (0 <? Z.of_nat (List.length (u :: us))) with true
    by (symmetry; apply Z.ltb_lt; simpl; lia).
  unfold bind_st, get_st, Transaction._do_commit. rewrite Hanswer.
  destruct answer; reflexivity.
Qed.

Lemma commit_transaction_follows_catalog_witness :
  @Transaction.commit_transaction Scenario2.refusing_catalog Scenario.one_update
     Scenario2.refused_world
  = (@Transaction.mkWorld Scenario2.refusing_catalog Scenario.a_table 1%nat
       [mkCommitTableRequest ["db"; "events"] [] [SetLocationUpdate "s3://bucket/elsewhere"]],
     Raise (KeyError (MissingKey 409))).
Proof.
  refine (@commit_transaction_follows_catalog Scenario2.refusing_catalog Scenario.one_update
            Scenario2.refused_world 1%nat (Raise (KeyError (MissingKey 409))) _ eq_refl).
  discriminate.
Defined.

(** ** More on tables and scans *)

Section DictionaryFacts.
Context {A : Type} (key : A -> Z).

(** A dictionary built by a comprehension over a list holds, for each key,
    the last element of the list with that key. *)
Lemma comprehension_lookup (l : list A) (k : Z) :
  match fold_left (fun m x => <[key x := x]> m) l (∅ : gmap Z A) !! k with
  | Some x => key x = k /\ exists before after,
                l = before ++ x :: after /\ forall y, y ∈ after -> key y <> k
  | None => forall y, y ∈ l -> key y <> k
  end.
Proof.
  induction l as [|x l IH] using rev_ind.
  - simpl. rewrite lookup_empty. intros y Hy. by apply elem_of_nil in Hy.
  - rewrite fold_left_app. simpl.
    destruct (decide (key x = k)) as [Hk|Hk].
    + subst k. rewrite lookup_insert_eq. split; [reflexivity|].
      exists l, []. split; [reflexivity|]. intros y Hy. by apply elem_of_nil in Hy.
    + rewrite lookup_insert_ne by exact Hk.
      destruct (fold_left _ l ∅ !! k) as [z|].
      * destruct IH as (Hz & before & after & -> & Hafter). split; [exact Hz|].
        exists before, (after ++ [x]). split; [by rewrite <- app_assoc|].
        intros y Hy. apply elem_of_app in Hy as [Hy|Hy]; [by apply Hafter|].
        apply list_elem_of_singleton in Hy. by subst y.
      * intros y Hy. apply elem_of_app in Hy as [Hy|Hy]; [by apply IH|].
        apply list_elem_of_singleton in Hy. by subst y.
Qed.

(** The first element with a key, as [next(x for x in l if key(x) == k)]
    finds it. *)
Lemma find_first (l : list A) (k : Z) :
  match List.find (fun x => key x =? k) l with
  | Some x => key x = k /\ exists before after,
                l = before ++ x :: after /\ forall y, y ∈ before -> key y <> k
  | None => forall y, y ∈ l -> key y <> k
  end.
Proof.
  induction l as [|x l IH]; simpl.
  - intros y Hy. by apply elem_of_nil in Hy.
  - destruct (key x =? k) eqn:E.
    + apply Z.eqb_eq in E. split; [exact E|]. exists [], l. split; [reflexivity|].
      intros y Hy. by apply elem_of_nil in Hy.
    + apply Z.eqb_neq in E. destruct (List.find _ l) as [z|].
      * destruct IH as (Hz & before & after & -> & Hbefore). split; [exact Hz|].
        exists (x :: before), after. split; [reflexivity|].
        intros y Hy. apply elem_of_cons in Hy as [-> | Hy]; [exact E|by apply Hbefore].
      * intros y Hy. apply elem_of_cons in Hy as [-> | Hy]; [exact E|by apply IH].
Qed.

(** With pairwise distinct keys the first and the last element of a key are
    the same. *)
Lemma first_is_last (l : list A) (k : Z) :
  NoDup (map key l) ->
  fold_left (fun m x => <[key x := x]> m) l (∅ : gmap Z A) !! k
  = List.find (fun x => key x =? k) l.
Proof.
  intros Hnodup.
  pose proof (comprehension_lookup l k) as Hlast.
  pose proof (find_first l k) as Hfirst.
  destruct (fold_left _ l ∅ !! k) as [x|], (List.find _ l) as [y|]; try reflexivity.
  - destruct Hlast as (Hx & b1 & a1 & E1 & _), Hfirst as (Hy & b2 & a2 & E2 & _).
    assert (Hinx : x ∈ l) by (rewrite E1; apply elem_of_app; right; apply elem_of_cons; by left).
    assert (Hiny : y ∈ l) by (rewrite E2; apply elem_of_app; right; apply elem_of_cons; by left).
    apply list_elem_of_lookup in Hinx as (i & Hi), Hiny as (j & Hj).
    assert (i = j) as ->.
    { eapply NoDup_lookup; [exact Hnodup| |].
      - rewrite list_lookup_fmap, Hi. reflexivity.
      - rewrite list_lookup_fmap, Hj. simpl. congruence. }
    congruence.
  - destruct Hlast as (Hx & b1 & a1 & E1 & _). exfalso. apply (Hfirst x); [|exact Hx].
    rewrite E1. apply elem_of_app. right. apply elem_of_cons. by left.
  - destruct Hfirst as (Hy & b2 & a2 & E2 & _). exfalso. apply (Hlast y); [|exact Hy].
    rewrite E2. apply elem_of_app. right. apply elem_of_cons. by left.
Qed.

End DictionaryFacts.

(** [Table.specs()[spec_id]] gives the last partition spec of the table with
    that id, and raises [KeyError] exactly when the table holds no spec of the
    id. *)
Lemma specs_getitem_last (tbl : Table) (id : Z) :
  match Table_specs_getitem tbl id with
  | Ok spec =>
      spec_id spec = id
      /\ exists before after,
           partition_specs (metadata tbl) = before ++ spec :: after
           /\ forall other, other ∈ after -> spec_id other <> id
  | Raise e =>
      e = KeyError (MissingKey id)
      /\ forall spec, spec ∈ partition_specs (metadata tbl) -> spec_id spec <> id
  end.
Proof.
  unfold Table_specs_getitem, Table_specs.
  pose proof (comprehension_lookup spec_id (partition_specs (metadata tbl)) id) as Hlast.
  destruct (fold_left _ _ ∅ !! id) as [spec|]; [exact Hlast|]. by split.
Qed.

(** [Table.spec()] and [Table.specs()] agree on the default spec when the
    spec ids of the table are pairwise distinct: both find it, or the first
    raises [StopIteration] and the second [KeyError]. *)
Lemma spec_agrees_with_specs (tbl : Table) :
  NoDup (map spec_id (partition_specs (metadata tbl))) ->
  match Table_spec tbl with
  | Ok spec => Table_specs_getitem tbl (default_spec_id (metadata tbl)) = Ok spec
  | Raise e =>
      e = StopIteration
      /\ Table_specs_getitem tbl (default_spec_id (metadata tbl))
         = Raise (KeyError (MissingKey (default_spec_id (metadata tbl))))
  end.
Proof.
  intros Hnodup. unfold Table_spec, Table_specs_getitem, Table_specs.
  rewrite (first_is_last spec_id _ _ Hnodup).
  destruct (List.find _ _); [reflexivity|]. by split.
Qed.

Lemma spec_agrees_with_specs_witness :
  Table_specs_getitem Scenario.branches_table 0 = Ok Scenario.unpartitioned.
Proof.
  refine (@spec_agrees_with_specs Scenario.branches_table _).
  simpl. apply NoDup_singleton.
Defined.

(** [Table.schema()] takes the first schema with the current schema id, so
    the schema it returns has that id and belongs to the table;
    [StopIteration] means that no schema of the table has the id. *)
Lemma schema_is_first_with_current_id (tbl : Table) :
  match Table_schema tbl with
  | Ok schema =>
      Schema.schema_id schema = current_schema_id (metadata tbl)
      /\ exists before after,
           schemas (metadata tbl) = before ++ schema :: after
           /\ forall other, other ∈ before ->
                Schema.schema_id other <> current_schema_id (metadata tbl)
  | Raise e =>
      e = StopIteration
      /\ forall schema, schema ∈ schemas (metadata tbl) ->
           Schema.schema_id schema <> current_schema_id (metadata tbl)
  end.
Proof.
  unfold Table_schema.
  pose proof (find_first Schema.schema_id (schemas (metadata tbl))
                (current_schema_id (metadata tbl))) as Hfirst.
  destruct (List.find _ _); [exact Hfirst|]. by split.
Qed.

Section MoreScanFacts.
Context `{Expressions}.

(** Filters accumulate: two filters in a row give the conjunction of the
    original filter with the first and then the second expression, and leave
    every other field of the scan as it was. *)
Lemma filter_accumulates (self : TableScan.t) (first second : TableScan.RowFilter)
    (parsed_first parsed_second : BooleanExpression) :
  TableScan.partition_filters self = None ->
  TableScan._parse_row_filter first = Ok parsed_first ->
  TableScan._parse_row_filter second = Ok parsed_second ->
  (filtered ← TableScan.filter self first; TableScan.filter filtered second)
  = Ok (TableScan.mk (TableScan.table self)
          (And (And (TableScan.row_filter self) parsed_first) parsed_second)
          (TableScan.selected_fields self) (TableScan.case_sensitive self)
          (TableScan.snapshot_id self) (TableScan.options self) (TableScan.limit self) None).
Proof.
  intros Hcache Hfirst Hsecond. unfold TableScan.filter.
  rewrite Hfirst. simpl. rewrite update_without_cache by done. simpl.
  rewrite Hsecond. simpl. by rewrite update_without_cache.
Qed.

(** A filter that does not parse leaves no scan behind: the exception of
    the parser is the result. *)
Lemma filter_unparsed (self : TableScan.t) (expr : TableScan.RowFilter) (e : exn) :
  TableScan._parse_row_filter expr = Raise e -> TableScan.filter self expr = Raise e.
Proof. intros Hparse. unfold TableScan.filter. by rewrite Hparse. Qed.

(** [use_ref] on a filtered scan keeps the filter: the scan it returns
    differs from the scan it was called on in the snapshot id only. *)
Lemma use_ref_keeps_other_fields (self : TableScan.t) (name : string) (scan : TableScan.t) :
  TableScan.use_ref self name = Ok scan ->
  TableScan.table scan = TableScan.table self
  /\ TableScan.row_filter scan = TableScan.row_filter self
  /\ TableScan.selected_fields scan = TableScan.selected_fields self
  /\ TableScan.case_sensitive scan = TableScan.case_sensitive self
  /\ TableScan.options scan = TableScan.options self
  /\ TableScan.limit scan = TableScan.limit self
  /\ TableScan.partition_filters self = None
  /\ snapshot_by_id (TableScan.table self) <$> TableScan.snapshot_id scan
     = Some (snapshot_by_name (TableScan.table self) name).
Proof.
  unfold TableScan.use_ref.
  destruct (truthy (TableScan.snapshot_id self)); [discriminate|].
  destruct (snapshot_by_name (TableScan.table self) name) as [snapshot|] eqn:Hname;
    [|discriminate].
  destruct (TableScan.partition_filters self) as [cache|] eqn:Hcache.
  - by rewrite (update_with_cache _ _ _ Hcache).
  - rewrite update_without_cache by done. simpl. intros [= <-]. simpl.
    repeat split.
    unfold snapshot_by_name in Hname.
    destruct (refs _ !! name) as [ref|]; [|discriminate].
    apply snapshot_by_id_found in Hname as [_ ->]. reflexivity.
Qed.

End MoreScanFacts.

Lemma filter_accumulates_witness :
  (filtered ← TableScan.filter (Scenario.fresh_scan Scenario.branches_table)
                (TableScan.FilterString "id > 4");
   TableScan.filter filtered
     (@TableScan.FilterExpression Reference.expressions (Reference.PEqualTo "data" "x")))
  = Ok (@TableScan.mk Reference.expressions Scenario.branches_table
          (Reference.PAnd (Reference.PAnd Reference.PAlwaysTrue (Reference.Parsed "id > 4"))
                          (Reference.PEqualTo "data" "x"))
          ["*"] true None ∅ None None).
Proof.
  exact (@filter_accumulates Reference.expressions
           (Scenario.fresh_scan Scenario.branches_table)
           (TableScan.FilterString "id > 4")
           (@TableScan.FilterExpression Reference.expressions (Reference.PEqualTo "data" "x"))
           (Reference.Parsed "id > 4") (Reference.PEqualTo "data" "x")
           eq_refl eq_refl eq_refl).
Defined.

Lemma use_ref_keeps_other_fields_witness :
  TableScan.table
    (@TableScan.mk Reference.expressions Scenario.branches_table Reference.PAlwaysTrue
       ["*"] true (Some 17) ∅ None None) = Scenario.branches_table
  /\ snapshot_by_id Scenario.branches_table 17
     = snapshot_by_name Scenario.branches_table "stage".
Proof.
  pose proof (@use_ref_keeps_other_fields Reference.expressions
                (Scenario.fresh_scan Scenario.branches_table) "stage"
                (@TableScan.mk Reference.expressions Scenario.branches_table
                   Reference.PAlwaysTrue ["*"] true (Some 17) ∅ None None) eq_refl)
    as (Htable & _ & _ & _ & _ & _ & _ & Hsnapshot).
  split; [exact Htable|]. exact (f_equal (default None) Hsnapshot).
Defined.

Section ProjectionFacts.
Context `{Expressions} `{SchemaSelection}.

(** With every column selected, a scan whose snapshot records a non-zero
    schema id projects to the last schema of the table with that id, and
    raises [KeyError] when the table holds no such schema. *)
Lemma projection_uses_snapshot_schema (self : TableScan.t) (snapshot : Snapshot.t)
    (id : Z) (current : Schema.t) :
  TableScan.snapshot self = Some snapshot ->
  Snapshot.schema_id snapshot = Some id ->
  id <> 0 ->
  Table_schema (TableScan.table self) = Ok current ->
  "*" ∈ TableScan.selected_fields self ->
  (exists schema,
      projection self = Ok schema
      /\ schema ∈ schemas (metadata (TableScan.table self))
      /\ Schema.schema_id schema = id)
  \/ (projection self = Raise (KeyError (MissingKey id))
      /\ forall schema, schema ∈ schemas (metadata (TableScan.table self)) ->
           Schema.schema_id schema <> id).
Proof.
  intros Hsnapshot Hid Hnz Hcurrent Hstar. unfold projection.
  rewrite Hcurrent, Hsnapshot, Hid. simpl.
  replace (id =? 0) with false by (symmetry; by apply Z.eqb_neq).
  pose proof (comprehension_lookup Schema.schema_id
                (schemas (metadata (TableScan.table self))) id) as Hlast.
  unfold Table_schemas.
  destruct (fold_left _ _ ∅ !! id) as [schema|]; simpl.
  - left. exists schema. rewrite bool_decide_eq_true_2 by exact Hstar.
    destruct Hlast as (Hsid & before & after & -> & _).
    split; [reflexivity|]. split; [|exact Hsid].
    apply elem_of_app. right. apply elem_of_cons. by left.
  - right. by split.
Qed.

(** With every column selected, a scan without snapshot, or whose snapshot
    has no schema id or the schema id [0], projects to the current schema of
    the table. *)
Lemma projection_falls_back_to_current_schema (self : TableScan.t) :
  "*" ∈ TableScan.selected_fields self ->
  (TableScan.snapshot self = None
   \/ exists snapshot, TableScan.snapshot self = Some snapshot
                       /\ (Snapshot.schema_id snapshot = None
                           \/ Snapshot.schema_id snapshot = Some 0)) ->
  projection self = Table_schema (TableScan.table self).
Proof.
  intros Hstar Hsnapshot. unfold projection.
  destruct (Table_schema (TableScan.table self)) as [current|e]; [|reflexivity]. simpl.
  assert (match TableScan.snapshot self with
          | Some snapshot =>
              match truthy (Snapshot.schema_id snapshot) with
              | Some snapshot_schema_id =>
                  match Table_schemas (TableScan.table self) !! snapshot_schema_id with
                  | Some schema => Ok schema
                  | None => Raise (KeyError (MissingKey snapshot_schema_id))
                  end
              | None => Ok current
              end
          | None => Ok current
          end = Ok current) as ->.
  { destruct Hsnapshot as [-> | (snapshot & -> & Hid)]; [reflexivity|].
    by rewrite (proj2 (truthy_None _) Hid). }
  simpl. by rewrite bool_decide_eq_true_2.
Qed.

End ProjectionFacts.

Lemma projection_uses_snapshot_schema_witness :
  (exists schema,
      @projection _ Scenario2.top_level_selection (Scenario.fresh_scan Scenario2.two_schema_table)
        = Ok schema
      /\ schema ∈ [Scenario2.older_schema; Scenario.id_data_schema]
      /\ Schema.schema_id schema = 3)
  \/ (@projection _ Scenario2.top_level_selection (Scenario.fresh_scan Scenario2.two_schema_table)
        = Raise (KeyError (MissingKey 3))
      /\ forall schema, schema ∈ [Scenario2.older_schema; Scenario.id_data_schema] ->
           Schema.schema_id schema <> 3).
Proof.
  refine (@projection_uses_snapshot_schema Reference.expressions Scenario2.top_level_selection
            (Scenario.fresh_scan Scenario2.two_schema_table)
            (Snapshot.mk 42 None (Some 42) (Some 3) "snap-42.avro") 3 Scenario.id_data_schema
            eq_refl eq_refl _ eq_refl _).
  - discriminate.
  - apply list_elem_of_singleton. reflexivity.
Defined.

Lemma projection_falls_back_to_current_schema_witness :
  @projection _ Scenario2.top_level_selection (Scenario.fresh_scan Scenario.branches_table)
  = Ok Scenario.id_data_schema.
Proof.
  refine (@projection_falls_back_to_current_schema Reference.expressions
            Scenario2.top_level_selection (Scenario.fresh_scan Scenario.branches_table) _ _).
  - apply list_elem_of_singleton. reflexivity.
  - right. exists (Scenario.snapshot_with_id 42 "snap-42.avro").
    split; [reflexivity|]. left. reflexivity.
Defined.

(** ** More on planning *)

Section CacheFacts.
Context `{Planning}.

Lemma cache_grows_refl (s : TableScan.t) : cache_grows s s.
Proof. repeat split. intros cache Hc. by exists cache. Qed.

Lemma cache_grows_trans (s1 s2 s3 : TableScan.t) :
  cache_grows s1 s2 -> cache_grows s2 s3 -> cache_grows s1 s3.
Proof.
  intros (?&?&?&?&?&?&?&H12) (?&?&?&?&?&?&?&H23).
  repeat split; try congruence.
  intros cache Hc. destruct (H12 _ Hc) as (c2 & Hc2 & Hsub).
  destruct (H23 _ Hc2) as (c3 & Hc3 & Hsub'). exists c3. split; [exact Hc3|].
  by transitivity c2.
Qed.

Lemma grows_cache_ret {A} (a : A) : grows_cache (ret_st a).
Proof. intros s s' r [= <- _]. apply cache_grows_refl. Qed.

Lemma grows_cache_lift {A} (r : result A) : grows_cache (lift_st r).
Proof. intros s s' r' [= <- _]. apply cache_grows_refl. Qed.

Lemma grows_cache_get : grows_cache get_st.
Proof. intros s s' r [= <- _]. apply cache_grows_refl. Qed.

Lemma grows_cache_bind {A B} (m : StateExn TableScan.t A) (f : A -> StateExn TableScan.t B) :
  grows_cache m -> (forall a, grows_cache (f a)) -> grows_cache (bind_st m f).
Proof.
  intros Hm Hf s s' r Hrun. unfold bind_st in Hrun.
  destruct (m s) as [s1 [a|e]] eqn:Em.
  - eapply cache_grows_trans; [by eapply Hm|by eapply Hf].
  - injection Hrun as <- _. by eapply Hm.
Qed.

Lemma grows_cache_filter_st {A} (p : A -> StateExn TableScan.t bool) (l : list A) :
  (forall x, grows_cache (p x)) -> grows_cache (DataScan.filter_st p l).
Proof.
  intros Hp. induction l as [|x l IH]; simpl; [apply grows_cache_ret|].
  apply grows_cache_bind; [apply Hp|]. intros keep.
  apply grows_cache_bind; [exact IH|]. intros rest. apply grows_cache_ret.
Qed.

Lemma grows_cache_map_st {A B} (f : A -> StateExn TableScan.t B) (l : list A) :
  (forall x, grows_cache (f x)) -> grows_cache (DataScan.map_st f l).
Proof.
  intros Hf. induction l as [|x l IH]; simpl; [apply grows_cache_ret|].
  apply grows_cache_bind; [apply Hf|]. intros y.
  apply grows_cache_bind; [exact IH|]. intros rest. apply grows_cache_ret.
Qed.

Lemma grows_cache_getitem (spec_id : Z) :
  grows_cache (DataScan.partition_filters_getitem spec_id).
Proof.
  intros s s' r Hrun. unfold DataScan.partition_filters_getitem in Hrun.
  destruct (default ∅ (TableScan.partition_filters s) !! spec_id) as [projected|] eqn:Hhit.
  - injection Hrun as <- _. repeat split. simpl. intros cache Hc. rewrite Hc. simpl.
    by exists cache.
  - destruct (DataScan._build_partition_projection s spec_id) as [projected|e];
      injection Hrun as <- _; repeat split; simpl; intros cache Hc; rewrite Hc in *; simpl in *.
    + eexists. split; [reflexivity|]. by apply insert_subseteq.
    + by exists cache.
Qed.

(** Once read, the cached property is in the instance. *)
Lemma getitem_sets_cache (spec_id : Z) (s s' : TableScan.t) (r : result BooleanExpression) :
  DataScan.partition_filters_getitem spec_id s = (s', r) ->
  is_Some (TableScan.partition_filters s').
Proof.
  unfold DataScan.partition_filters_getitem.
  destruct (default ∅ (TableScan.partition_filters s) !! spec_id).
  - intros [= <- _]. simpl. by eexists.
  - destruct (DataScan._build_partition_projection s spec_id); intros [= <- _]; simpl;
      by eexists.
Qed.

Lemma grows_cache_manifest_evaluator (spec_id : Z) :
  grows_cache (DataScan._build_manifest_evaluator spec_id).
Proof.
  unfold DataScan._build_manifest_evaluator.
  apply grows_cache_bind; [apply grows_cache_get|]. intros self.
  apply grows_cache_bind; [apply grows_cache_lift|]. intros spec.
  apply grows_cache_bind; [apply grows_cache_lift|]. intros schema.
  apply grows_cache_bind; [apply grows_cache_getitem|]. intros pf. apply grows_cache_ret.
Qed.

Lemma grows_cache_partition_evaluator (spec_id : Z) :
  grows_cache (DataScan._build_partition_evaluator spec_id).
Proof.
  unfold DataScan._build_partition_evaluator.
  apply grows_cache_bind; [apply grows_cache_get|]. intros self.
  apply grows_cache_bind; [apply grows_cache_lift|]. intros spec.
  apply grows_cache_bind; [apply grows_cache_lift|]. intros schema.
  apply grows_cache_bind; [apply grows_cache_getitem|]. intros pf. apply grows_cache_ret.
Qed.

Lemma manifest_evaluator_sets_cache (spec_id : Z) (s s' : TableScan.t)
    (evaluator : ManifestFile.t -> bool) :
  DataScan._build_manifest_evaluator spec_id s = (s', Ok evaluator) ->
  is_Some (TableScan.partition_filters s').
Proof.
  unfold DataScan._build_manifest_evaluator, bind_st, get_st, lift_st.
  destruct (Table_specs_getitem _ _); [|discriminate].
  destruct (Table_schema _); [|discriminate].
  destruct (DataScan.partition_filters_getitem spec_id s) as [s1 [pf|e]] eqn:Hget;
    [|discriminate].
  intros [= <- _]. by eapply getitem_sets_cache.
Qed.

Lemma grows_cache_pruned_manifests (snapshot : Snapshot.t) :
  grows_cache (DataScan.pruned_manifests snapshot).
Proof.
  apply grows_cache_filter_st. intros m.
  apply grows_cache_bind; [apply grows_cache_manifest_evaluator|]. intros ev.
  apply grows_cache_ret.
Qed.

Lemma grows_cache_surviving_entries (kept : list ManifestFile.t)
    (evaluator : DataFile.t -> bool) :
  grows_cache (DataScan.surviving_entries kept evaluator).
Proof.
  unfold DataScan.surviving_entries, DataScan.opened_entries.
  apply grows_cache_bind; [|intros; apply grows_cache_ret].
  apply grows_cache_map_st. intros m.
  apply grows_cache_bind; [apply grows_cache_partition_evaluator|]. intros pe.
  apply grows_cache_ret.
Qed.

Lemma grows_cache_plan_files : grows_cache DataScan.plan_files.
Proof.
  unfold DataScan.plan_files.
  apply grows_cache_bind; [apply grows_cache_get|]. intros self.
  destruct (TableScan.snapshot self); [|apply grows_cache_ret].
  apply grows_cache_bind; [apply grows_cache_pruned_manifests|]. intros kept.
  apply grows_cache_bind; [apply grows_cache_lift|]. intros schema.
  apply grows_cache_bind; [apply grows_cache_surviving_entries|]. intros entries.
  apply grows_cache_bind; [apply grows_cache_lift|]. intros partitioned.
  apply grows_cache_ret.
Qed.

End CacheFacts.

(** Whatever [plan_files] returns or raises, it leaves the table, the row
    filter, the selected fields, the case sensitivity, the snapshot id, the
    options and the limit of the scan as they were; a cache of partition
    filters that was there before is there afterwards with at least the same
    entries. *)
Lemma plan_files_changes_the_cache_only `{Planning}
    (self self' : TableScan.t) (outcome : result (list FileScanTask.t)) :
  DataScan.plan_files self = (self', outcome) ->
  TableScan.table self' = TableScan.table self
  /\ TableScan.row_filter self' = TableScan.row_filter self
  /\ TableScan.selected_fields self' = TableScan.selected_fields self
  /\ TableScan.case_sensitive self' = TableScan.case_sensitive self
  /\ TableScan.snapshot_id self' = TableScan.snapshot_id self
  /\ TableScan.options self' = TableScan.options self
  /\ TableScan.limit self' = TableScan.limit self
  /\ forall cache, TableScan.partition_filters self = Some cache ->
       exists cache', TableScan.partition_filters self' = Some cache' /\ cache ⊆ cache'.
Proof. intros Hplan. exact (grows_cache_plan_files _ _ _ Hplan). Qed.

Lemma plan_files_changes_the_cache_only_witness :
  TableScan.table Scenario.planned_scan = Scenario.branches_table
  /\ TableScan.row_filter Scenario.planned_scan = Reference.PAlwaysTrue
  /\ TableScan.selected_fields Scenario.planned_scan = ["*"]
  /\ TableScan.case_sensitive Scenario.planned_scan = true
  /\ TableScan.snapshot_id Scenario.planned_scan = None
  /\ TableScan.options Scenario.planned_scan = ∅
  /\ TableScan.limit Scenario.planned_scan = None
  /\ forall cache,
       TableScan.partition_filters (Scenario.fresh_scan Scenario.branches_table) = Some cache ->
       exists cache', TableScan.partition_filters Scenario.planned_scan = Some cache'
                      /\ cache ⊆ cache'.
Proof.
  exact (@plan_files_changes_the_cache_only _ Scenario.store
           (Scenario.fresh_scan Scenario.branches_table) Scenario.planned_scan
           (snd (@DataScan.plan_files _ Scenario.store
                   (Scenario.fresh_scan Scenario.branches_table)))
           (surjective_pairing _)).
Defined.

(** A scan that has planned a snapshot with at least one manifest holds the
    cached partition filters afterwards, so it can no longer be copied:
    [update], and with it [filter], [use_ref] and [with_case_sensitive],
    raise [TypeError]. *)
Lemma planned_scan_cannot_be_copied `{Planning}
    (self self' : TableScan.t) (snapshot : Snapshot.t) (planned : list FileScanTask.t)
    (overrides : TableScan.Keywords) :
  DataScan.plan_files self = (self', Ok planned) ->
  TableScan.snapshot self = Some snapshot ->
  manifests snapshot <> [] ->
  is_Some (TableScan.partition_filters self')
  /\ TableScan.update self' overrides
     = Raise (TypeError (UnexpectedKeywordArgument "partition_filters")).
Proof.
  intros Hplan Hsnapshot Hne.
  apply plan_files_inversion in Hplan
    as [[Hnone _]|(snapshot' & s1 & schema & kept & entries & d & p
                   & Hsnap & Hpruned & Hschema & Hentries & _ & _)]; [congruence|].
  assert (snapshot' = snapshot) as -> by congruence.
  assert (is_Some (TableScan.partition_filters s1)) as [c1 Hc1].
  { unfold DataScan.pruned_manifests in Hpruned.
    destruct (manifests snapshot) as [|m ms]; [done|]. simpl in Hpruned.
    unfold bind_st in Hpruned.
    destruct (DataScan._build_manifest_evaluator _ self) as [sA [ev|e]] eqn:Hfirst;
      [|discriminate].
    apply manifest_evaluator_sets_cache in Hfirst as [cA HcA].
    unfold ret_st at 1 in Hpruned.
    destruct (DataScan.filter_st _ ms sA) as [sB [rest|e]] eqn:Hrest; [|discriminate].
    injection Hpruned as <- _.
    assert (cache_grows sA sB) as Hgrow.
    { eapply (grows_cache_filter_st _ ms); [|exact Hrest]. intros x.
      apply grows_cache_bind; [apply grows_cache_manifest_evaluator|]. intros ev'.
      apply grows_cache_ret. }
    destruct Hgrow as (_&_&_&_&_&_&_&Hcache).
    destruct (Hcache _ HcA) as (cB & HcB & _). by exists cB. }
  pose proof (grows_cache_surviving_entries _ _ _ _ _ Hentries) as (_&_&_&_&_&_&_&Hcache).
  destruct (Hcache _ Hc1) as (c2 & Hc2 & _).
  split; [by exists c2|]. by eapply update_with_cache.
Qed.

Lemma planned_scan_cannot_be_copied_witness :
  is_Some (TableScan.partition_filters Scenario.planned_scan)
  /\ TableScan.update Scenario.planned_scan
       (TableScan.mkKeywords None None None (Some false) None None None [])
     = Raise (TypeError (UnexpectedKeywordArgument "partition_filters")).
Proof.
  refine (@planned_scan_cannot_be_copied _ Scenario.store
            (Scenario.fresh_scan Scenario.branches_table) Scenario.planned_scan
            (Scenario.snapshot_with_id 42 "snap-42.avro")
            [FileScanTask.mk Scenario.data_file_a1 [Scenario.delete_file "d/7.parquet"] 0 1024]
            _ _ eq_refl _).
  - vm_compute. reflexivity.
  - discriminate.
Defined.

Lemma partition_entries_data (entries d p d' p' : list ManifestEntry.t) :
  partition_entries entries d p = Ok (d', p') -> d' = d ++ List.filter is_data entries.
Proof.
  revert d p. induction entries as [|entry entries IH]; intros d p Hok; simpl in Hok.
  - injection Hok as <- _. simpl. by rewrite app_nil_r.
  - simpl. unfold is_data at 1.
    destruct (DataFile.content (ManifestEntry.data_file entry) =? DataFileContent.DATA).
    + rewrite (IH _ _ Hok). by rewrite <- app_assoc.
    + destruct (DataFile.content (ManifestEntry.data_file entry)
                =? DataFileContent.POSITION_DELETES); [by eapply IH|].
      destruct (DataFile.content (ManifestEntry.data_file entry)
                =? DataFileContent.EQUALITY_DELETES); discriminate.
Qed.

(** A successful plan has one task for each surviving entry with content
    [DATA], in the order of the entries; each task starts at [0] and spans
    the whole data file. *)
Lemma plan_files_one_task_per_data_entry `{Planning}
    (self s1 s2 : TableScan.t) (snapshot : Snapshot.t) (schema : Schema.t)
    (kept : list ManifestFile.t) (entries : list ManifestEntry.t)
    (planned : list FileScanTask.t) :
  TableScan.snapshot self = Some snapshot ->
  DataScan.pruned_manifests snapshot self = (s1, Ok kept) ->
  Table_schema (TableScan.table self) = Ok schema ->
  DataScan.surviving_entries kept (DataScan.metrics_evaluator self schema) s1
    = (s2, Ok entries) ->
  DataScan.plan_files self = (s2, Ok planned) ->
  map FileScanTask.file planned = map ManifestEntry.data_file (List.filter is_data entries)
  /\ Forall (fun task =>
               FileScanTask.start task = 0
               /\ FileScanTask.length task
                  = DataFile.file_size_in_bytes (FileScanTask.file task)) planned.
Proof.
  intros Hsnap Hpruned Hschema Hentries Hplan.
  rewrite (plan_files_steps _ _ _ _ _ _ _ Hsnap Hpruned Hschema Hentries) in Hplan.
  destruct (partition_entries entries [] []) as [[d p]|e] eqn:Hpart; [|discriminate].
  injection Hplan as <-. simpl.
  rewrite (partition_entries_data _ _ _ _ _ Hpart). simpl.
  unfold DataScan.tasks. split.
  - rewrite <- list_fmap_compose. reflexivity.
  - apply Forall_fmap, Forall_forall. intros entry _. simpl. by split.
Qed.

(** Delete matching is complete up to the path of the delete file.  In a
    successful plan, for every surviving positional delete entry whose data
    sequence number (a missing one being [INITIAL_SEQUENCE_NUMBER]) is
    strictly greater than that of a surviving data entry, and whose file the
    [file_path] evaluator of the data entry accepts, a task of that data file
    holds a delete file with the path of that delete file.  The delete files
    of the task are a set of data files, which are equal when their paths
    are: no two delete files of the task have the same path, so of several
    applicable delete files with one path the task holds a single one. *)
Lemma plan_files_pairs_every_applicable_delete `{Planning}
    (self s1 s2 : TableScan.t) (snapshot : Snapshot.t) (schema : Schema.t)
    (kept : list ManifestFile.t) (entries : list ManifestEntry.t)
    (planned : list FileScanTask.t) (data_entry delete_entry : ManifestEntry.t) :
  TableScan.snapshot self = Some snapshot ->
  DataScan.pruned_manifests snapshot self = (s1, Ok kept) ->
  Table_schema (TableScan.table self) = Ok schema ->
  DataScan.surviving_entries kept (DataScan.metrics_evaluator self schema) s1
    = (s2, Ok entries) ->
  DataScan.plan_files self = (s2, Ok planned) ->
  data_entry ∈ entries ->
  DataFile.content (ManifestEntry.data_file data_entry) = DataFileContent.DATA ->
  delete_entry ∈ entries ->
  DataFile.content (ManifestEntry.data_file delete_entry) = DataFileContent.POSITION_DELETES ->
  or_initial (ManifestEntry.data_sequence_number data_entry)
    < or_initial (ManifestEntry.data_sequence_number delete_entry) ->
  file_path_evaluator data_entry (ManifestEntry.data_file delete_entry) = true ->
  exists task,
    task ∈ planned
    /\ FileScanTask.file task = ManifestEntry.data_file data_entry
    /\ (exists delete_file,
          delete_file ∈ FileScanTask.delete_files task
          /\ DataFile.file_path delete_file
             = DataFile.file_path (ManifestEntry.data_file delete_entry))
    /\ NoDup (map DataFile.file_path (FileScanTask.delete_files task)).
Proof.
  intros Hsnap Hpruned Hschema Hentries Hplan Hdata Hdcontent Hdelete Hpcontent Hlt Heval.
  rewrite (plan_files_steps _ _ _ _ _ _ _ Hsnap Hpruned Hschema Hentries) in Hplan.
  destruct (partition_entries entries [] []) as [[d p]|e] eqn:Hpart; [|discriminate].
  injection Hplan as <-. simpl.
  destruct (partition_entries_ok _ _ _ _ _ Hpart (SortedList.sorted_nil _))
    as (Hsorted & Hd & Hp).
  exists (FileScanTask.init (ManifestEntry.data_file data_entry)
            (_match_deletes_to_datafile data_entry p)).
  split; [|split; [reflexivity|split]].
  - unfold DataScan.tasks. apply list_elem_of_fmap. exists data_entry.
    split; [reflexivity|]. apply Hd. right. by split.
  - simpl. apply (match_deletes_covers _ _ _ Hsorted); try done.
    apply Hp. right. by split.
  - simpl. apply match_deletes_distinct_paths.
Qed.

Lemma plan_files_one_task_per_data_entry_witness :
  map FileScanTask.file
      [FileScanTask.mk Scenario.data_file_a1 [Scenario.delete_file "d/7.parquet"] 0 1024]
  = map ManifestEntry.data_file
        (List.filter is_data
           [Scenario.data_entry_a1; Scenario.delete_entry_7; Scenario.delete_entry_4])
  /\ Forall (fun task =>
               FileScanTask.start task = 0
               /\ FileScanTask.length task
                  = DataFile.file_size_in_bytes (FileScanTask.file task))
            [FileScanTask.mk Scenario.data_file_a1 [Scenario.delete_file "d/7.parquet"] 0 1024].
Proof.
  refine (@plan_files_one_task_per_data_entry _ Scenario.store
            (Scenario.fresh_scan Scenario.branches_table) Scenario.planned_scan
            Scenario.planned_scan (Scenario.snapshot_with_id 42 "snap-42.avro")
            Scenario.id_data_schema [Scenario.data_manifest; Scenario.delete_manifest]
            [Scenario.data_entry_a1; Scenario.delete_entry_7; Scenario.delete_entry_4]
            _ eq_refl eq_refl eq_refl eq_refl _).
  vm_compute. reflexivity.
Defined.

(** Two applicable delete files of one path: the task holds the one that
    comes first in the order of the sequence numbers. *)
Lemma plan_files_pairs_every_applicable_delete_witness :
  exists task,
    task ∈ [FileScanTask.mk Scenario.data_file_a1 [Scenario.delete_file "d/7.parquet"] 0 1024]
    /\ FileScanTask.file task = Scenario.data_file_a1
    /\ (exists delete_file,
          delete_file ∈ FileScanTask.delete_files task
          /\ DataFile.file_path delete_file = "d/7.parquet")
    /\ NoDup (map DataFile.file_path (FileScanTask.delete_files task)).
Proof.
  refine (@plan_files_pairs_every_applicable_delete _ Scenario2.same_path_store
            (Scenario.fresh_scan Scenario.branches_table) Scenario.planned_scan
            Scenario.planned_scan (Scenario.snapshot_with_id 42 "snap-42.avro")
            Scenario.id_data_schema [Scenario.data_manifest; Scenario.delete_manifest]
            [Scenario.data_entry_a1; Scenario2.delete_entry_8; Scenario.delete_entry_7]
            _ Scenario.data_entry_a1 Scenario2.delete_entry_8
            eq_refl eq_refl eq_refl eq_refl _ _ eq_refl _ eq_refl _ eq_refl).
  - vm_compute. reflexivity.
  - apply elem_of_cons. left. reflexivity.
  - apply elem_of_cons. right. apply elem_of_cons. left. reflexivity.
  - vm_compute. reflexivity.
Defined.

Lemma surviving_entries_accepted `{Planning} (kept : list ManifestFile.t)
    (evaluator : DataFile.t -> bool) (s1 s2 : TableScan.t) (entries : list ManifestEntry.t) :
  DataScan.surviving_entries kept evaluator s1 = (s2, Ok entries) ->
  forall entry, entry ∈ entries -> evaluator (ManifestEntry.data_file entry) = true.
Proof.
  intros Hrun entry Hentry.
  unfold DataScan.surviving_entries, DataScan.opened_entries, bind_st in Hrun.
  destruct (DataScan.map_st _ _ s1) as [s [opened|e]] eqn:Hopened; [|discriminate].
  injection Hrun as _ <-.
  apply list_elem_of_In, in_concat in Hentry as (chunk & Hchunk & Hentry).
  apply list_elem_of_In in Hchunk.
  destruct (map_st_elem _ _ _ _ _ Hopened chunk Hchunk) as (manifest & s0 & s0' & Hin & Hf).
  unfold bind_st in Hf.
  destruct (DataScan._build_partition_evaluator _ s0) as [s3 [pe|e]]; [|discriminate].
  injection Hf as _ <-.
  unfold _open_manifest in Hentry. apply filter_In in Hentry as [_ Hboth].
  by apply andb_true_iff in Hboth as [_ ?].
Qed.

(** Nothing is planned that the metrics evaluator of the row filter
    rejects: the data file of every task and every delete file paired with it
    passed that evaluator, built from the current schema of the table, the row
    filter, the case sensitivity and the option [include_empty_files]. *)
Lemma plan_files_only_accepted_files `{Planning}
    (self self' : TableScan.t) (planned : list FileScanTask.t) (task : FileScanTask.t) :
  DataScan.plan_files self = (self', Ok planned) ->
  task ∈ planned ->
  exists schema,
    Table_schema (TableScan.table self) = Ok schema
    /\ DataScan.metrics_evaluator self schema (FileScanTask.file task) = true
    /\ forall delete_file, delete_file ∈ FileScanTask.delete_files task ->
         DataScan.metrics_evaluator self schema delete_file = true.
Proof.
  intros Hplan Htask.
  apply plan_files_inversion in Hplan
    as [[_ ->]|(snapshot & s1 & schema & kept & entries & d & p
                & Hsnap & Hpruned & Hschema & Hentries & Hpart & ->)];
    [by apply elem_of_nil in Htask|].
  destruct (partition_entries_ok _ _ _ _ _ Hpart (SortedList.sorted_nil _))
    as (Hsorted & Hd & Hp).
  pose proof (surviving_entries_accepted _ _ _ _ _ Hentries) as Haccepted.
  exists schema. split; [exact Hschema|].
  unfold DataScan.tasks in Htask.
  apply list_elem_of_fmap in Htask as (data_entry & -> & Hdata). simpl. split.
  - apply Haccepted. apply Hd in Hdata as [Hdata|[Hdata _]]; [by apply elem_of_nil in Hdata|done].
  - intros delete_file Hdelete.
    apply (match_deletes_elem _ _ _ Hsorted) in Hdelete as (delete_entry & Hin & <- & _ & _).
    apply Haccepted. apply Hp in Hin as [Hin|[Hin _]]; [by apply elem_of_nil in Hin|done].
Qed.

Lemma plan_files_only_accepted_files_witness :
  exists schema,
    Table_schema Scenario.branches_table = Ok schema
    /\ @DataScan.metrics_evaluator _ Scenario.store
         (Scenario.fresh_scan Scenario.branches_table) schema Scenario.data_file_a1 = true
    /\ forall delete_file, delete_file ∈ [Scenario.delete_file "d/7.parquet"] ->
         @DataScan.metrics_evaluator _ Scenario.store
           (Scenario.fresh_scan Scenario.branches_table) schema delete_file = true.
Proof.
  refine (@plan_files_only_accepted_files _ Scenario.store
            (Scenario.fresh_scan Scenario.branches_table) Scenario.planned_scan
            [FileScanTask.mk Scenario.data_file_a1 [Scenario.delete_file "d/7.parquet"] 0 1024]
            (FileScanTask.mk Scenario.data_file_a1 [Scenario.delete_file "d/7.parquet"] 0 1024)
            _ _).
  - vm_compute. reflexivity.
  - apply list_elem_of_singleton. reflexivity.
Defined.

(** ** More on the schema builder *)

Section MoreBuilderFacts.
Context `{SchemaEngine} `{FieldProperties}.

Lemma invariant_set_updates (schema : Schema.t) (transaction : option Transaction.t)
    (self : UpdateSchema.t) (id : Z) (replacement : NestedField) :
  builder_invariant schema transaction self ->
  id ∉ UpdateSchema._deletes self ->
  builder_invariant schema transaction
    (UpdateSchema.set_updates self (<[id := replacement]> (UpdateSchema._updates self))).
Proof.
  intros (Hs & Ht & Hp & Hd & Hm) Hid. repeat split; try done. simpl.
  intros id' Hin. rewrite lookup_insert_ne; [by apply Hd|]. intros ->. contradiction.
Qed.

Lemma invariant_stage_move (schema : Schema.t) (transaction : option Transaction.t)
    (self : UpdateSchema.t) (move : Move) :
  builder_invariant schema transaction self ->
  builder_invariant schema transaction (UpdateSchema.stage_move self TABLE_ROOT_ID move).
Proof.
  intros (Hs & Ht & Hp & Hd & Hm). repeat split; try done. simpl.
  intros parent Hsome. destruct (decide (parent = TABLE_ROOT_ID)) as [->|Hne]; [done|].
  rewrite lookup_insert_ne in Hsome by done. by apply Hm.
Qed.

Lemma invariant_move (schema : Schema.t) (transaction : option Transaction.t)
    (self : UpdateSchema.t) (full_name : string) (move : Move) :
  builder_invariant schema transaction self ->
  builder_invariant schema transaction (fst (UpdateSchema._move full_name move self)).
Proof.
  intros Hinv. pose proof Hinv as (_ & _ & Hp & _ & _).
  unfold UpdateSchema._move. rewrite Hp, lookup_empty.
  destruct (UpdateSchema.before_or_after (op move)); [|by apply invariant_stage_move].
  destruct (other_field_id move) as [other|]; [|exact Hinv].
  rewrite lookup_empty. rewrite bool_decide_eq_false_2 by (intros [? ?]; discriminate).
  by apply invariant_stage_move.
Qed.

Lemma invariant_after_call (schema : Schema.t) (transaction : option Transaction.t)
    (self : UpdateSchema.t) (call : UpdateSchema.Operation) :
  builder_invariant schema transaction self ->
  builder_invariant schema transaction (UpdateSchema.after_call self call).
Proof.
  intros Hinv. pose proof Hinv as (Hs & Ht & Hp & Hd & Hm).
  destruct call; simpl.
  - unfold UpdateSchema.add_column.
    repeat (case_match; simpl; try exact Hinv).
  - unfold UpdateSchema.delete_column.
    repeat (case_match; simpl; try exact Hinv).
    repeat split; try done. simpl. intros id Hin.
    apply elem_of_union in Hin as [Hin|Hin]; [|by apply Hd].
    apply elem_of_singleton in Hin. subst id.
    match goal with
    | Hb : bool_decide (is_Some (UpdateSchema._updates self !! _)) = false |- _ =>
        apply bool_decide_eq_false in Hb
    end.
    destruct (UpdateSchema._updates self !! field_id _) eqn:E; [|reflexivity].
    exfalso. eauto.
  - unfold UpdateSchema.rename_column.
    destruct (find_field _ _ _) as [from_field|e]; [|exact Hinv].
    case_bool_decide as Hdel; [exact Hinv|].
    assert (Hupd := invariant_set_updates schema transaction self (field_id from_field)
                      (match UpdateSchema._updates self !! field_id from_field with
                       | Some updated =>
                           mkNestedField (field_id updated) (join (as_tuple path_to))
                             (field_type updated) (required updated) (doc updated)
                       | None =>
                           mkNestedField (field_id from_field) (join (as_tuple path_to))
                             (field_type from_field) (required from_field) (doc from_field)
                       end) Hinv Hdel).
    simpl. destruct (UpdateSchema.path_in_names _ _); simpl; [|exact Hupd].
    destruct Hupd as (? & ? & ? & ? & ?). by repeat split.
  - unfold UpdateSchema.require_column, UpdateSchema._set_column_requirement.
    repeat (case_match; simpl; try exact Hinv);
      apply invariant_set_updates; try done;
      match goal with
      | Hb : bool_decide (_ ∈ _) = false |- _ => by apply bool_decide_eq_false in Hb
      end.
  - unfold UpdateSchema.make_column_optional, UpdateSchema._set_column_requirement.
    repeat (case_match; simpl; try exact Hinv);
      apply invariant_set_updates; try done;
      match goal with
      | Hb : bool_decide (_ ∈ _) = false |- _ => by apply bool_decide_eq_false in Hb
      end.
  - unfold UpdateSchema.update_column.
    repeat (case_match; simpl; try exact Hinv);
      apply invariant_set_updates; try done;
      match goal with
      | Hb : bool_decide (_ ∈ _) = false |- _ => by apply bool_decide_eq_false in Hb
      end.
  - unfold UpdateSchema.update_column_doc.
    repeat (case_match; simpl; try exact Hinv);
      apply invariant_set_updates; try done;
      match goal with
      | Hb : bool_decide (_ ∈ _) = false |- _ => by apply bool_decide_eq_false in Hb
      end.
  - unfold UpdateSchema.move_first.
    repeat (case_match; simpl; try exact Hinv). by apply invariant_move.
  - unfold UpdateSchema.move_before.
    repeat (case_match; simpl; try exact Hinv). by apply invariant_move.
  - unfold UpdateSchema.move_after.
    repeat (case_match; simpl; try exact Hinv). by apply invariant_move.
  - by repeat split.
  - by repeat split.
Qed.

End MoreBuilderFacts.

(** Whatever staging methods are called on a builder, in any order and
    whether they return or raise: the schema and the transaction of the
    builder stay the ones it was created with, no parent name is ever
    recorded, no column is at once staged for deletion and staged with an
    update, and moves are only ever recorded under [TABLE_ROOT_ID]. *)
Lemma builder_keeps_invariant `{SchemaEngine} `{FieldProperties}
    (schema : Schema.t) (transaction : option Transaction.t)
    (allow_incompatible_changes case_sensitive : bool)
    (calls : list UpdateSchema.Operation) :
  let self :=
    UpdateSchema.after_calls
      (UpdateSchema.init schema transaction allow_incompatible_changes case_sensitive) calls in
  UpdateSchema._schema self = schema
  /\ UpdateSchema._transaction self = transaction
  /\ UpdateSchema._id_to_parent self = ∅
  /\ (forall id, id ∈ UpdateSchema._deletes self -> UpdateSchema._updates self !! id = None)
  /\ (forall parent, is_Some (UpdateSchema._moves self !! parent) -> parent = TABLE_ROOT_ID).
Proof.
  intros self. subst self. unfold UpdateSchema.after_calls.
  assert (Hinit : builder_invariant schema transaction
                    (UpdateSchema.init schema transaction allow_incompatible_changes
                                       case_sensitive)).
  { split; [reflexivity|]. split; [reflexivity|]. split; [reflexivity|]. split.
    - intros id _. apply lookup_empty.
    - intros parent [x Hx]. simpl in Hx. by rewrite lookup_empty in Hx. }
  revert Hinit. generalize (UpdateSchema.init schema transaction allow_incompatible_changes
                                               case_sensitive).
  induction calls as [|call calls IH]; intros self Hinv; simpl; [exact Hinv|].
  apply IH. by apply invariant_after_call.
Qed.

Section MoveFacts.
Context `{SchemaEngine} `{FieldProperties}.

(** On a builder without recorded parent names, which is every builder the
    staging methods can produce, a move of a column that is found is staged
    under [TABLE_ROOT_ID], wherever the column and the column it is moved
    next to live in the schema. *)
Lemma moves_are_staged_at_the_root (self : UpdateSchema.t) (path other : Path) (a b : Z) :
  UpdateSchema._id_to_parent self = ∅ ->
  UpdateSchema._find_for_move self (join (as_tuple path)) = Ok (Some a) ->
  UpdateSchema._find_for_move self (join (as_tuple other)) = Ok (Some b) ->
  a <> b ->
  UpdateSchema.move_first path self
    = (UpdateSchema.stage_move self TABLE_ROOT_ID (mkMove a First None),
       UpdateSchema.MoveStaged)
  /\ UpdateSchema.move_before path other self
     = (UpdateSchema.stage_move self TABLE_ROOT_ID (mkMove a Before (Some b)),
        UpdateSchema.MoveStaged)
  /\ UpdateSchema.move_after path other self
     = (UpdateSchema.stage_move self TABLE_ROOT_ID (mkMove a After (Some b)),
        UpdateSchema.MoveStaged).
Proof.
  intros Hparents Ha Hb Hne.
  unfold UpdateSchema.move_first, UpdateSchema.move_before, UpdateSchema.move_after.
  rewrite Ha, Hb. replace (a =? b) with false by (symmetry; by apply Z.eqb_neq).
  unfold UpdateSchema._move. simpl. rewrite Hparents, !lookup_empty. simpl.
  rewrite ?bool_decide_eq_false_2 by (intros [? ?]; discriminate). done.
Qed.

(** A move of a column that is neither in the schema nor among the added
    columns is refused, and so is a move of a column before or after itself;
    nothing is staged. *)
Lemma moves_of_missing_or_same_column_refused (self : UpdateSchema.t) (path other : Path) :
  (UpdateSchema._find_for_move self (join (as_tuple path)) = Ok None ->
     UpdateSchema.move_first path self
       = (self, UpdateSchema.MoveValueError
                  (UpdateSchema.CannotMoveMissingColumn (join (as_tuple path))))
     /\ UpdateSchema.move_before path other self
        = (self, UpdateSchema.MoveValueError
                   (UpdateSchema.CannotMoveMissingColumn (join (as_tuple path))))
     /\ UpdateSchema.move_after path other self
        = (self, UpdateSchema.MoveValueError
                   (UpdateSchema.CannotMoveMissingColumn (join (as_tuple path)))))
  /\ (forall a,
        UpdateSchema._find_for_move self (join (as_tuple path)) = Ok (Some a) ->
        UpdateSchema._find_for_move self (join (as_tuple other)) = Ok None ->
        UpdateSchema.move_before path other self
          = (self, UpdateSchema.MoveValueError
                     (UpdateSchema.CannotMoveBeforeMissingColumn (join (as_tuple other))))
        /\ UpdateSchema.move_after path other self
           = (self, UpdateSchema.MoveValueError
                      (UpdateSchema.CannotMoveAfterMissingColumn (join (as_tuple other)))))
  /\ (forall a,
        UpdateSchema._find_for_move self (join (as_tuple path)) = Ok (Some a) ->
        UpdateSchema._find_for_move self (join (as_tuple other)) = Ok (Some a) ->
        UpdateSchema.move_before path other self
          = (self, UpdateSchema.MoveValueError
                     (UpdateSchema.CannotMoveBeforeItself (join (as_tuple path))))
        /\ UpdateSchema.move_after path other self
           = (self, UpdateSchema.MoveValueError
                      (UpdateSchema.CannotMoveAfterItself (join (as_tuple path))))).
Proof.
  unfold UpdateSchema.move_first, UpdateSchema.move_before, UpdateSchema.move_after.
  split; [|split].
  - intros ->. done.
  - intros a -> ->. done.
  - intros a -> ->. by rewrite Z.eqb_refl.
Qed.

(** A column added by [add_column] is found by [_find_for_move] under its
    full name, with the id the builder handed out: the value of the column
    counter before the call. *)
Lemma added_column_is_found_for_move (self self' : UpdateSchema.t) (path : Path)
    (column_type : IcebergType) (column_doc : option string) (is_required : bool) :
  UpdateSchema.add_column path column_type column_doc is_required self = (self', Ok tt) ->
  UpdateSchema._find_for_move self' (join (as_tuple path))
    = Ok (Some (UpdateSchema._last_column_id self))
  /\ UpdateSchema._last_column_id self'
     = snd (assign_fresh_schema_ids column_type (UpdateSchema._last_column_id self + 1)).
Proof.
  unfold UpdateSchema.add_column.
  destruct (last (as_tuple path)) as [column_name|]; [|discriminate].
  destruct (contains_dot column_name); [discriminate|].
  destruct (is_required && negb _); [discriminate|].
  destruct (UpdateSchema.parent_id_of _ _ _) as [parent_id|e]; [|discriminate].
  destruct (UpdateSchema.name_exists self (join (as_tuple path))) as [[]|e] eqn:Hexists;
    try discriminate.
  destruct (assign_fresh_schema_ids _ _) as [new_type next_id] eqn:Hfresh.
  intros [= <-]. unfold UpdateSchema._find_for_move. simpl.
  unfold UpdateSchema.name_exists in Hexists.
  destruct (find_field _ _ _) as [f|[]]; simpl in Hexists; try discriminate.
  by rewrite lookup_insert_eq.
Qed.

End MoveFacts.

Section CompositionFacts.
Context `{SchemaEngine}.

Lemma join_single (s : string) : join [s] = s.
Proof.
  unfold join. simpl. reflexivity.
Qed.

(** [add_column] compares the new name with the schema only.  A top-level
    name that the schema holds is refused; a name that was added by an
    earlier call is accepted again and gets a second id. *)
Lemma add_column_checks_the_schema_only (self : UpdateSchema.t) (column_name : string)
    (column_type : IcebergType) (column_doc : option string) :
  contains_dot column_name = false ->
  (forall f,
      find_field (UpdateSchema._schema self) column_name (UpdateSchema._case_sensitive self)
        = Ok f ->
      UpdateSchema.add_column (PathString column_name) column_type column_doc false self
        = (self, Raise (ValueError (NameAlreadyExists column_name))))
  /\ (forall self',
        UpdateSchema.add_column (PathString column_name) column_type column_doc false self
          = (self', Ok tt) ->
        exists self'' new_type new_type',
          UpdateSchema.add_column (PathString column_name) column_type column_doc false self'
            = (self'', Ok tt)
          /\ UpdateSchema._adds self'' !! TABLE_ROOT_ID
             = Some (default [] (UpdateSchema._adds self !! TABLE_ROOT_ID)
                       ++ [mkNestedField (UpdateSchema._last_column_id self) column_name
                                         new_type false column_doc;
                           mkNestedField (UpdateSchema._last_column_id self') column_name
                                         new_type' false column_doc])).
Proof.
  intros Hdot. unfold UpdateSchema.add_column, UpdateSchema.parent_id_of. simpl.
  rewrite Hdot. unfold UpdateSchema.name_exists. rewrite join_single. split.
  - intros f ->. reflexivity.
  - intros self'.
    destruct (find_field _ _ _) as [f|[]] eqn:Hfind; simpl; try discriminate.
    destruct (assign_fresh_schema_ids column_type (UpdateSchema._last_column_id self + 1))
      as [new_type next_id] eqn:Hfresh.
    intros [= <-]. simpl. rewrite Hfind. simpl.
    destruct (assign_fresh_schema_ids column_type (next_id + 1))
      as [new_type' next_id'] eqn:Hfresh'.
    eexists _, new_type, new_type'. split; [reflexivity|]. simpl.
    rewrite lookup_insert_eq. simpl. rewrite lookup_insert_eq.
    cbn [from_option id]. by rewrite <- app_assoc.
Qed.

(** A column cannot be both changed and deleted, in either order.  After a
    successful [delete_column], renaming the column, changing its type or
    changing its doc raises and stages nothing; after a successful change of
    type, [delete_column] raises and stages nothing (the error names the
    additions when some are staged under the column, the updates
    otherwise). *)
Lemma change_and_delete_exclude_each_other (self self' : UpdateSchema.t) (path : Path)
    (field : NestedField) :
  find_field (UpdateSchema._schema self) (join (as_tuple path)) true = Ok field ->
  UpdateSchema._case_sensitive self = true ->
  (UpdateSchema.delete_column path self = (self', Ok tt) ->
     (forall path_to,
         UpdateSchema.rename_column path path_to self'
         = (self', Raise (ValueError (CannotRenameDeleted (join (as_tuple path))))))
     /\ (forall column_type,
           UpdateSchema.update_column path column_type self'
           = (self', Raise (ValueError (CannotUpdateDeleted (join (as_tuple path))))))
     /\ (forall column_doc,
           UpdateSchema.update_column_doc path column_doc self'
           = (self', Raise (ValueError (CannotUpdateDeleted (join (as_tuple path)))))))
  /\ (forall column_type,
        field_type field <> column_type ->
        UpdateSchema.update_column path column_type self = (self', Ok tt) ->
        UpdateSchema.delete_column path self'
        = (self',
           Raise (ValueError
                    (if bool_decide (is_Some (UpdateSchema._adds self !! field_id field))
                     then CannotDeleteWithAdditions (join (as_tuple path))
                     else CannotDeleteWithUpdates (join (as_tuple path)))))).
Proof.
  intros Hfind Hcase. split.
  - unfold UpdateSchema.delete_column. rewrite Hcase, Hfind.
    repeat case_bool_decide; try discriminate. intros [= <-].
    unfold UpdateSchema.rename_column, UpdateSchema.update_column,
      UpdateSchema.update_column_doc. simpl. rewrite Hcase, Hfind.
    assert (field_id field ∈ {[field_id field]} ∪ UpdateSchema._deletes self) as Hin
      by (apply elem_of_union; left; by apply elem_of_singleton).
    rewrite !bool_decide_eq_true_2 by exact Hin. done.
  - intros column_type Hne. unfold UpdateSchema.update_column. rewrite Hfind.
    case_bool_decide as Hdel; [discriminate|].
    rewrite bool_decide_eq_false_2 by exact Hne. intros [= <-].
    unfold UpdateSchema.delete_column. simpl. rewrite Hcase, Hfind.
    case_bool_decide as Hadds; [reflexivity|].
    rewrite bool_decide_eq_true_2; [reflexivity|]. rewrite lookup_insert_eq. by eexists.
Qed.

(** Staged changes of one column add up: after a change of type, a rename
    keeps the new type, and after a rename, a change of type keeps the new
    name; the id, the nullability and the doc of the column are carried
    along. *)
Lemma rename_and_retype_add_up (self : UpdateSchema.t) (path path_to : Path)
    (field : NestedField) (column_type : IcebergType) :
  find_field (UpdateSchema._schema self) (join (as_tuple path)) true = Ok field ->
  UpdateSchema._case_sensitive self = true ->
  field_id field ∉ UpdateSchema._deletes self ->
  UpdateSchema._updates self !! field_id field = None ->
  field_type field <> column_type ->
  let staged :=
    mkNestedField (field_id field) (join (as_tuple path_to)) column_type
                  (required field) (doc field) in
  UpdateSchema._updates
    (fst (UpdateSchema.rename_column path path_to
            (fst (UpdateSchema.update_column path column_type self)))) !! field_id field
    = Some staged
  /\ UpdateSchema._updates
       (fst (UpdateSchema.update_column path column_type
               (fst (UpdateSchema.rename_column path path_to self)))) !! field_id field
     = Some staged.
Proof.
  intros Hfind Hcase Hdel Hnone Hne staged. subst staged. split.
  - unfold UpdateSchema.update_column. rewrite Hfind.
    rewrite bool_decide_eq_false_2 by exact Hdel.
    rewrite bool_decide_eq_false_2 by exact Hne. rewrite Hnone. simpl.
    unfold UpdateSchema.rename_column. simpl. rewrite Hcase, Hfind.
    rewrite bool_decide_eq_false_2 by exact Hdel. rewrite lookup_insert_eq. simpl.
    destruct (UpdateSchema.path_in_names _ _); simpl; by rewrite lookup_insert_eq.
  - unfold UpdateSchema.rename_column. rewrite Hcase, Hfind.
    rewrite bool_decide_eq_false_2 by exact Hdel. rewrite Hnone. simpl.
    unfold UpdateSchema.update_column.
    destruct (UpdateSchema.path_in_names _ _); simpl; rewrite Hfind;
      rewrite bool_decide_eq_false_2 by exact Hdel;
      rewrite bool_decide_eq_false_2 by exact Hne;
      rewrite lookup_insert_eq; simpl; by rewrite lookup_insert_eq.
Qed.

End CompositionFacts.

Lemma moves_are_staged_at_the_root_witness :
  UpdateSchema.move_first (PathString "data") Scenario.builder
    = (UpdateSchema.stage_move Scenario.builder TABLE_ROOT_ID (mkMove 2 First None),
       UpdateSchema.MoveStaged)
  /\ UpdateSchema.move_before (PathString "data") (PathString "id") Scenario.builder
     = (UpdateSchema.stage_move Scenario.builder TABLE_ROOT_ID (mkMove 2 Before (Some 1)),
        UpdateSchema.MoveStaged)
  /\ UpdateSchema.move_after (PathString "data") (PathString "id") Scenario.builder
     = (UpdateSchema.stage_move Scenario.builder TABLE_ROOT_ID (mkMove 2 After (Some 1)),
        UpdateSchema.MoveStaged).
Proof.
  apply (moves_are_staged_at_the_root Scenario.builder (PathString "data") (PathString "id")
           2 1).
  - reflexivity.
  - reflexivity.
  - reflexivity.
  - lia.
Defined.

Lemma added_column_is_found_for_move_witness :
  UpdateSchema._find_for_move Scenario.renamed_and_added "extra" = Ok (Some 3)
  /\ UpdateSchema._last_column_id Scenario.renamed_and_added = 4.
Proof.
  exact (added_column_is_found_for_move Scenario.renamed Scenario.renamed_and_added
           (PathString "extra") (Primitive LongType) None false eq_refl).
Defined.

Lemma add_column_checks_the_schema_only_witness :
  UpdateSchema.add_column (PathString "id") (Primitive LongType) None false Scenario.builder
    = (Scenario.builder, Raise (ValueError (NameAlreadyExists "id")))
  /\ exists self'' new_type new_type',
       UpdateSchema.add_column (PathString "extra") (Primitive LongType) None false
         Scenario.renamed_and_added = (self'', Ok tt)
       /\ UpdateSchema._adds self'' !! TABLE_ROOT_ID
          = Some (default [] (UpdateSchema._adds Scenario.renamed !! TABLE_ROOT_ID)
                    ++ [mkNestedField 3 "extra" new_type false None;
                        mkNestedField 4 "extra" new_type' false None]).
Proof.
  split.
  - exact (proj1 (add_column_checks_the_schema_only Scenario.builder "id"
                    (Primitive LongType) None eq_refl)
                 (mkNestedField 1 "id" (Primitive IntegerType) false None) eq_refl).
  - exact (proj2 (add_column_checks_the_schema_only Scenario.renamed "extra"
                    (Primitive LongType) None eq_refl)
                 Scenario.renamed_and_added eq_refl).
Defined.

Lemma change_and_delete_exclude_each_other_witness :
  UpdateSchema.rename_column (PathString "data") (PathString "payload")
    (fst (UpdateSchema.delete_column (PathString "data") Scenario.builder))
    = (fst (UpdateSchema.delete_column (PathString "data") Scenario.builder),
       Raise (ValueError (CannotRenameDeleted "data")))
  /\ UpdateSchema.delete_column (PathString "id")
       (fst (UpdateSchema.update_column (PathString "id") (Primitive LongType)
               Scenario.builder))
     = (fst (UpdateSchema.update_column (PathString "id") (Primitive LongType)
               Scenario.builder),
        Raise (ValueError (CannotDeleteWithUpdates "id"))).
Proof.
  split.
  - exact (proj1 (proj1 (change_and_delete_exclude_each_other Scenario.builder
                           (fst (UpdateSchema.delete_column (PathString "data")
                                   Scenario.builder))
                           (PathString "data")
                           (mkNestedField 2 "data" (Primitive StringType) false None)
                           eq_refl eq_refl)
                        eq_refl)
                 (PathString "payload")).
  - refine (proj2 (change_and_delete_exclude_each_other Scenario.builder
                     (fst (UpdateSchema.update_column (PathString "id") (Primitive LongType)
                             Scenario.builder))
                     (PathString "id")
                     (mkNestedField 1 "id" (Primitive IntegerType) false None)
                     eq_refl eq_refl)
                  (Primitive LongType) _ eq_refl).
    discriminate.
Defined.

Lemma rename_and_retype_add_up_witness :
  UpdateSchema._updates
    (fst (UpdateSchema.rename_column (PathString "id") (PathString "key")
            (fst (UpdateSchema.update_column (PathString "id") (Primitive LongType)
                    Scenario.builder)))) !! 1
    = Some (mkNestedField 1 "key" (Primitive LongType) false None)
  /\ UpdateSchema._updates
       (fst (UpdateSchema.update_column (PathString "id") (Primitive LongType)
               (fst (UpdateSchema.rename_column (PathString "id") (PathString "key")
                       Scenario.builder)))) !! 1
     = Some (mkNestedField 1 "key" (Primitive LongType) false None).
Proof.
  refine (rename_and_retype_add_up Scenario.builder (PathString "id") (PathString "key")
            (mkNestedField 1 "id" (Primitive IntegerType) false None) (Primitive LongType)
            eq_refl eq_refl _ eq_refl _).
  - vm_compute. set_solver.
  - discriminate.
Defined.

Lemma moves_of_missing_or_same_column_refused_witness :
  UpdateSchema.move_first (PathString "nope") Scenario.builder
    = (Scenario.builder,
       UpdateSchema.MoveValueError (UpdateSchema.CannotMoveMissingColumn "nope"))
  /\ UpdateSchema.move_before (PathString "id") (PathString "nope") Scenario.builder
     = (Scenario.builder,
        UpdateSchema.MoveValueError (UpdateSchema.CannotMoveBeforeMissingColumn "nope"))
  /\ UpdateSchema.move_after (PathString "id") (PathString "id") Scenario.builder
     = (Scenario.builder,
        UpdateSchema.MoveValueError (UpdateSchema.CannotMoveAfterItself "id")).
Proof.
  split; [|split].
  - exact (proj1 (proj1 (moves_of_missing_or_same_column_refused Scenario.builder
                           (PathString "nope") (PathString "id")) eq_refl)).
  - exact (proj1 (proj1 (proj2 (moves_of_missing_or_same_column_refused Scenario.builder
                                  (PathString "id") (PathString "nope")))
                        1 eq_refl eq_refl)).
  - exact (proj2 (proj2 (proj2 (moves_of_missing_or_same_column_refused Scenario.builder
                                  (PathString "id") (PathString "id")))
                        1 eq_refl eq_refl)).
Defined.
(** ** What [_ApplyChanges] does with the staged changes *)

Lemma IcebergType_nested_ind (P : IcebergType -> Prop) :
  (forall p, P (Primitive p)) ->
  (forall fields, Forall (fun f => P (field_type f)) fields -> P (StructType fields)) ->
  (forall i t r, P t -> P (ListType i t r)) ->
  (forall ki kt vi vt vr, P kt -> P vt -> P (MapType ki kt vi vt vr)) ->
  forall t, P t.
Proof.
  intros HP HS HL HM. fix IH 1. intros [p|fields|i t r|ki kt vi vt vr].
  - apply HP.
  - apply HS. induction fields as [|[i n t r d] fields IHf]; constructor.
    + apply IH.
    + exact IHf.
  - apply HL, IH.
  - apply HM; apply IH.
Qed.

Lemma visit_struct (adds : gmap Z (list NestedField)) (updates : gmap Z NestedField)
    (deletes : gset Z) (moves : gmap Z (list Move)) (fields : list NestedField) :
  _ApplyChanges.visit adds updates deletes moves (StructType fields)
  = (results ← visit_fields adds updates deletes moves fields;
     _ApplyChanges.struct (StructType fields) fields results).
Proof.
  simpl. f_equal. induction fields as [|[i n t r d] fields IH]; [reflexivity|].
  simpl. by rewrite IH.
Qed.

Lemma all_field_ids_struct_cons (f : NestedField) (fields : list NestedField) :
  all_field_ids (StructType (f :: fields))
  = field_id f :: all_field_ids (field_type f) ++ all_field_ids (StructType fields).
Proof.
  destruct f. reflexivity.
Qed.

Lemma field_moves_irrelevant (adds : gmap Z (list NestedField)) (updates : gmap Z NestedField)
    (deletes : gset Z) (moves moves' : gmap Z (list Move)) (f : NestedField)
    (r : option IcebergType) :
  moves !! field_id f = moves' !! field_id f ->
  _ApplyChanges.field adds updates deletes moves f r
  = _ApplyChanges.field adds updates deletes moves' f r.
Proof.
  intros Heq. unfold _ApplyChanges.field, _ApplyChanges.field_adds_and_moves.
  by rewrite Heq.
Qed.

Lemma visit_moves_irrelevant (adds : gmap Z (list NestedField)) (updates : gmap Z NestedField)
    (deletes : gset Z) (moves moves' : gmap Z (list Move)) (ty : IcebergType) :
  (forall id, id ∈ all_field_ids ty -> moves !! id = moves' !! id) ->
  _ApplyChanges.visit adds updates deletes moves ty
  = _ApplyChanges.visit adds updates deletes moves' ty.
Proof.
  induction ty as [p|fields IH|i t r IH|ki kt vi vt vr IHk IHv] using IcebergType_nested_ind;
    intros Hids.
  - reflexivity.
  - rewrite !visit_struct.
    assert (visit_fields adds updates deletes moves fields
            = visit_fields adds updates deletes moves' fields) as ->; [|reflexivity].
    induction IH as [|f fields Hf _ IHfields]; [reflexivity|].
    rewrite all_field_ids_struct_cons in Hids. simpl.
    rewrite Hf by (intros id Hin; apply Hids; right; apply elem_of_app; by left).
    rewrite IHfields by (intros id Hin; apply Hids; right; apply elem_of_app; by right).
    destruct (_ApplyChanges.visit _ _ _ moves' (field_type f)) as [r|e]; [|reflexivity].
    simpl. rewrite (field_moves_irrelevant _ _ _ moves moves') by (apply Hids; by left).
    reflexivity.
  - simpl. rewrite IH by (intros id Hin; apply Hids; simpl; by right).
    destruct (_ApplyChanges.visit _ _ _ moves' t) as [res|e]; [|reflexivity].
    simpl. unfold _ApplyChanges.list_.
    rewrite (field_moves_irrelevant _ _ _ moves moves') by (apply Hids; simpl; by left).
    reflexivity.
  - simpl.
    rewrite IHk by (intros id Hin; apply Hids; simpl; do 2 right; apply elem_of_app; by left).
    rewrite IHv by (intros id Hin; apply Hids; simpl; do 2 right; apply elem_of_app; by right).
    destruct (_ApplyChanges.visit _ _ _ moves' kt) as [kres|e]; [|reflexivity].
    simpl. destruct (_ApplyChanges.visit _ _ _ moves' vt) as [vres|e]; [|reflexivity].
    simpl. unfold _ApplyChanges.map_.
    rewrite (field_moves_irrelevant _ _ _ moves moves')
      by (apply Hids; simpl; right; by left).
    reflexivity.
Qed.

Section RootMoves.
Context `{SchemaEngine} `{FieldProperties}.

Lemma apply_stage_move_at_root (self : UpdateSchema.t) (move : Move) :
  TABLE_ROOT_ID ∉ all_field_ids (StructType (Schema.fields (UpdateSchema._schema self))) ->
  UpdateSchema._apply (UpdateSchema.stage_move self TABLE_ROOT_ID move)
  = UpdateSchema._apply self.
Proof.
  intros Hroot. unfold UpdateSchema._apply, _ApplyChanges.visit_schema,
    UpdateSchema.stage_move, UpdateSchema.set_moves.
  cbn [UpdateSchema._adds UpdateSchema._updates UpdateSchema._deletes UpdateSchema._moves
       UpdateSchema._schema UpdateSchema._identifier_field_names].
  rewrite (visit_moves_irrelevant _ _ _ _ (UpdateSchema._moves self)); [reflexivity|].
  intros id Hin. apply lookup_insert_ne. intros <-. contradiction.
Qed.

Lemma apply_after_move (self : UpdateSchema.t) (full_name : string) (move : Move) :
  UpdateSchema._id_to_parent self = ∅ ->
  TABLE_ROOT_ID ∉ all_field_ids (StructType (Schema.fields (UpdateSchema._schema self))) ->
  UpdateSchema._apply (fst (UpdateSchema._move full_name move self))
  = UpdateSchema._apply self.
Proof.
  intros Hp Hroot. unfold UpdateSchema._move. rewrite Hp, lookup_empty.
  destruct (UpdateSchema.before_or_after (op move)); [|by apply apply_stage_move_at_root].
  destruct (other_field_id move) as [other|]; [|reflexivity].
  rewrite lookup_empty. rewrite bool_decide_eq_false_2 by (intros [? ?]; discriminate).
  by apply apply_stage_move_at_root.
Qed.

(** The move operations never change the schema that [_apply] builds.  On a
    builder without recorded parent names, which is every builder the
    staging methods can produce, [move_first], [move_before] and
    [move_after] leave the result of [_apply] as it was, whether they stage
    the move or raise: a move is staged under [TABLE_ROOT_ID], and
    [_ApplyChanges] reads the moves of the fields only, never those of the
    root. *)
Lemma moves_never_reach_the_schema (self : UpdateSchema.t) (path other : Path) :
  UpdateSchema._id_to_parent self = ∅ ->
  TABLE_ROOT_ID ∉ all_field_ids (StructType (Schema.fields (UpdateSchema._schema self))) ->
  UpdateSchema._apply (fst (UpdateSchema.move_first path self)) = UpdateSchema._apply self
  /\ UpdateSchema._apply (fst (UpdateSchema.move_before path other self))
     = UpdateSchema._apply self
  /\ UpdateSchema._apply (fst (UpdateSchema.move_after path other self))
     = UpdateSchema._apply self.
Proof.
  intros Hp Hroot. unfold UpdateSchema.move_first, UpdateSchema.move_before,
    UpdateSchema.move_after.
  destruct (UpdateSchema._find_for_move self (join (as_tuple path))) as [[a|]|e];
    [|by repeat split|by repeat split].
  split; [by apply apply_after_move|].
  destruct (UpdateSchema._find_for_move self (join (as_tuple other))) as [[b|]|e];
    [|by repeat split|by repeat split].
  destruct (a =? b); [by split|]. split; by apply apply_after_move.
Qed.

End RootMoves.

Section RootAdditions.
Context `{SchemaEngine} `{FieldProperties} `{Catalog}.

Lemma add_fields_raises (fields adds : list NestedField) :
  adds <> [] -> exists e, _add_fields fields (Some adds) = Raise e.
Proof.
  intros Hne. unfold _add_fields. simpl.
  destruct adds as [|a adds]; [done|]. simpl length.
  replace (Z.of_nat (S (length adds)) =? 0) with false
    by (symmetry; apply Z.eqb_neq; lia).
  destruct fields as [|f [|f' fields]]; simpl.
  - destruct adds; simpl; eauto.
  - eauto.
  - eauto.
Qed.

Lemma apply_raises_with_root_additions (self : UpdateSchema.t) (adds : list NestedField) :
  UpdateSchema._adds self !! TABLE_ROOT_ID = Some adds ->
  adds <> [] ->
  exists e, UpdateSchema._apply self = Raise e.
Proof.
  intros Hadds Hne. unfold UpdateSchema._apply, _ApplyChanges.visit_schema.
  destruct (_ApplyChanges.visit _ _ _ _ _) as [struct_result|e]; [|by eexists].
  cbn [mbind result_bind]. unfold _ApplyChanges.schema. rewrite Hadds.
  destruct (add_fields_raises
              match struct_result with
              | Some (StructType (f :: l)) => f :: l
              | _ => []
              end adds Hne) as [e ->].
  by eexists.
Qed.

Lemma root_additions_stay (self : UpdateSchema.t) (call : UpdateSchema.Operation)
    (adds : list NestedField) :
  UpdateSchema._adds self !! TABLE_ROOT_ID = Some adds ->
  adds <> [] ->
  exists adds',
    UpdateSchema._adds (UpdateSchema.after_call self call) !! TABLE_ROOT_ID = Some adds'
    /\ adds' <> [].
Proof.
  intros Hadds Hne. destruct call; simpl.
  - unfold UpdateSchema.add_column.
    repeat (case_match; simpl; eauto).
    match goal with
    | |- context [<[?parent := _]> _ !! _] =>
        destruct (decide (parent = TABLE_ROOT_ID)) as [->|Hp]
    end.
    + rewrite lookup_insert_eq. eexists. split; [reflexivity|].
      intros Hnil. by apply app_eq_nil in Hnil as [_ ?].
    + rewrite lookup_insert_ne by done. eauto.
  - unfold UpdateSchema.delete_column. repeat (case_match; simpl; eauto).
  - unfold UpdateSchema.rename_column. repeat (case_match; simpl; eauto).
  - unfold UpdateSchema.require_column, UpdateSchema._set_column_requirement.
    repeat (case_match; simpl; eauto).
  - unfold UpdateSchema.make_column_optional, UpdateSchema._set_column_requirement.
    repeat (case_match; simpl; eauto).
  - unfold UpdateSchema.update_column. repeat (case_match; simpl; eauto).
  - unfold UpdateSchema.update_column_doc. repeat (case_match; simpl; eauto).
  - unfold UpdateSchema.move_first, UpdateSchema._move.
    repeat (case_match; simpl; eauto).
  - unfold UpdateSchema.move_before, UpdateSchema._move.
    repeat (case_match; simpl; eauto).
  - unfold UpdateSchema.move_after, UpdateSchema._move.
    repeat (case_match; simpl; eauto).
  - eauto.
  - eauto.
Qed.

(** A builder on which a top-level column has been added cannot be
    committed any more.  After a successful [add_column] with a plain name,
    whatever staging methods are called afterwards, [commit] raises; the
    builder is left as it was and nothing is staged in the transaction or
    sent to the catalog. *)
Lemma top_level_addition_blocks_commit (self self' : UpdateSchema.t) (column_name : string)
    (column_type : IcebergType) (column_doc : option string) (is_required : bool)
    (calls : list UpdateSchema.Operation) (w : Transaction.World) :
  UpdateSchema.add_column (PathString column_name) column_type column_doc is_required self
    = (self', Ok tt) ->
  exists e,
    UpdateSchema.commit (UpdateSchema.after_calls self' calls, w)
    = ((UpdateSchema.after_calls self' calls, w), Raise e).
Proof.
  intros Hadd.
  assert (exists adds, UpdateSchema._adds self' !! TABLE_ROOT_ID = Some adds /\ adds <> [])
    as Hroot.
  { revert Hadd. unfold UpdateSchema.add_column, UpdateSchema.parent_id_of. simpl.
    repeat (case_match; simpl; try discriminate). intros [= <-]. simpl.
    rewrite lookup_insert_eq. eexists. split; [reflexivity|].
    intros Hnil. by apply app_eq_nil in Hnil as [_ ?]. }
  clear Hadd. revert self' Hroot. unfold UpdateSchema.after_calls.
  induction calls as [|call calls IH]; intros self' (adds & Hadds & Hne); simpl.
  - destruct (apply_raises_with_root_additions self' adds Hadds Hne) as [e He].
    exists e. unfold UpdateSchema.commit. by rewrite He.
  - apply IH. by apply (root_additions_stay self' call adds).
Qed.

End RootAdditions.

Section FlatSchema.
Variable updates : gmap Z NestedField.
Variable deletes : gset Z.

Lemma field_of_primitive_column (adds : gmap Z (list NestedField))
    (moves : gmap Z (list Move)) (f : NestedField) :
  adds !! field_id f = None ->
  moves !! field_id f = None ->
  _ApplyChanges.field adds updates deletes moves f (Some (field_type f))
  = Ok (field_type <$> applied_column updates deletes f).
Proof.
  intros Hadds Hmoves.
  unfold _ApplyChanges.field, _ApplyChanges.field_adds_and_moves, applied_column.
  rewrite Hadds, Hmoves. case_bool_decide; [reflexivity|].
  destruct (updates !! field_id f) as [update|]; [|reflexivity].
  case_bool_decide as Htype; [reflexivity|]. simpl.
  by rewrite Htype.
Qed.

Lemma visit_fields_of_primitive_columns (adds : gmap Z (list NestedField))
    (moves : gmap Z (list Move)) (fields : list NestedField) :
  Forall (fun f => primitive_column f = true) fields ->
  (forall f, f ∈ fields -> adds !! field_id f = None /\ moves !! field_id f = None) ->
  visit_fields adds updates deletes moves fields
  = Ok (map (fun f => field_type <$> applied_column updates deletes f) fields).
Proof.
  intros Hprim. induction Hprim as [|f fields Hf _ IH]; intros Hnone; [reflexivity|].
  simpl. unfold primitive_column in Hf.
  destruct (Hnone f) as [Hadds Hmoves]; [by left|].
  assert (_ApplyChanges.visit adds updates deletes moves (field_type f)
          = Ok (Some (field_type f))) as ->
    by (destruct (field_type f); try discriminate; reflexivity).
  cbn [mbind result_bind]. rewrite (field_of_primitive_column adds moves f Hadds Hmoves).
  cbn [mbind result_bind]. rewrite IH by (intros g Hg; apply Hnone; by right).
  reflexivity.
Qed.

Lemma struct_loop_of_applied_columns (fields : list NestedField) (has_changes : bool)
    (new_fields : list NestedField) :
  exists has_changes',
    _ApplyChanges.struct_loop fields
      (map (fun f => field_type <$> applied_column updates deletes f) fields)
      has_changes new_fields
    = Ok (has_changes', new_fields ++ omap (applied_column updates deletes) fields)
    /\ (has_changes' = false ->
        has_changes = false /\ omap (applied_column updates deletes) fields = fields).
Proof.
  revert has_changes new_fields.
  induction fields as [|f fields IH]; intros has_changes new_fields.
  - exists has_changes. simpl. by rewrite app_nil_r.
  - simpl. destruct (applied_column updates deletes f) as [g|] eqn:Happlied; simpl.
    + rewrite (bool_decide_eq_true_2 (name f = name f) eq_refl),
        (bool_decide_eq_true_2 (required f = required f) eq_refl),
        (bool_decide_eq_true_2 (doc f = doc f) eq_refl).
      cbn [andb]. rewrite !andb_true_r.
      assert (g = mkNestedField (field_id f) (name f) (field_type g) (required f) (doc f))
        as Hg.
      { revert Happlied. unfold applied_column. case_bool_decide; [discriminate|].
        destruct (updates !! field_id f); intros [= <-]; [reflexivity|by destruct f]. }
      case_bool_decide as Htype.
      * assert (g = f) as -> by (rewrite Hg, <- Htype; by destruct f).
        destruct (IH has_changes (new_fields ++ [f])) as (hc & -> & Hsame).
        exists hc. rewrite <- app_assoc. split; [reflexivity|].
        intros Hhc. destruct (Hsame Hhc) as [-> Heq]. split; [done|]. f_equal. exact Heq.
      * destruct (IH true (new_fields
                             ++ [mkNestedField (field_id f) (name f) (field_type g)
                                               (required f) (doc f)]))
          as (hc & -> & Hsame).
        exists hc. rewrite <- app_assoc, <- Hg. split; [reflexivity|].
        intros Hhc. by destruct (Hsame Hhc).
    + destruct fields as [|f' fields'].
      * exists true. simpl. rewrite app_nil_r. split; [reflexivity|discriminate].
      * destruct (IH true new_fields) as (hc & -> & Hsame).
        exists hc. split; [reflexivity|]. intros Hhc. by destruct (Hsame Hhc).
Qed.

Lemma struct_of_applied_columns (fields : list NestedField) :
  _ApplyChanges.struct (StructType fields) fields
    (map (fun f => field_type <$> applied_column updates deletes f) fields)
  = Ok (Some (StructType (omap (applied_column updates deletes) fields))).
Proof.
  unfold _ApplyChanges.struct.
  destruct (struct_loop_of_applied_columns fields false []) as (hc & -> & Hsame).
  cbn [mbind result_bind app]. destruct hc; [reflexivity|].
  by destruct (Hsame eq_refl) as [_ ->].
Qed.

End FlatSchema.

Section FlatApply.
Context `{SchemaEngine} `{FieldProperties}.

(** What [_apply] builds from a schema whose columns are all of primitive
    type, when no addition is staged.  A column staged for deletion is left
    out; a column staged with an update gets the type of the update and keeps
    its own name, nullability and doc; every other column is kept as it is.
    The identifier check then runs on that schema.  So of the staged changes
    only deletions and changes of type reach the new schema: a rename, a
    change of nullability and a change of doc do not. *)
Lemma apply_on_flat_schema (self : UpdateSchema.t) :
  let fields := Schema.fields (UpdateSchema._schema self) in
  let new_schema :=
    Schema.mk (omap (applied_column (UpdateSchema._updates self) (UpdateSchema._deletes self))
                    fields) 0 [] in
  Forall (fun f => primitive_column f = true) fields ->
  UpdateSchema._adds self = ∅ ->
  (forall f, f ∈ fields -> UpdateSchema._moves self !! field_id f = None) ->
  UpdateSchema._apply self
  = (_ ← UpdateSchema.check_identifier_fields new_schema
           (UpdateSchema._identifier_field_names self);
     Ok new_schema).
Proof.
  intros fields new_schema Hprim Hadds Hmoves. subst new_schema.
  unfold UpdateSchema._apply, _ApplyChanges.visit_schema. rewrite visit_struct.
  fold fields.
  rewrite (visit_fields_of_primitive_columns _ _ _ _ fields Hprim)
    by (intros f Hf; split; [by rewrite Hadds, lookup_empty|by apply Hmoves]).
  cbn [mbind result_bind]. rewrite struct_of_applied_columns.
  cbn [mbind result_bind]. unfold _ApplyChanges.schema. rewrite Hadds, lookup_empty.
  unfold _add_fields. cbn [default from_option length Z.of_nat Z.eqb mbind result_bind nonempty].
  reflexivity.
Qed.

End FlatApply.

(** ** Reordering by [_move_fields] *)

Lemma find_by_id (id : Z) (fields : list NestedField) :
  id ∈ map field_id fields ->
  exists field,
    List.find (fun f => field_id f =? id) fields = Some field /\ field_id field = id.
Proof.
  induction fields as [|f fields IH]; simpl; intros Hin.
  - by apply elem_of_nil in Hin.
  - destruct (field_id f =? id) eqn:E.
    + exists f. split; [reflexivity|]. by apply Z.eqb_eq.
    + apply elem_of_cons in Hin as [->|Hin]; [by rewrite Z.eqb_refl in E|]. by apply IH.
Qed.

Lemma filter_keeps_other_ids (id : Z) (fields : list NestedField) :
  id ∉ map field_id fields ->
  List.filter (fun f => negb (field_id f =? id)) fields = fields.
Proof.
  induction fields as [|f fields IH]; simpl; intros Hnotin; [reflexivity|].
  apply not_elem_of_cons in Hnotin as [Hne Hnotin].
  replace (field_id f =? id) with false by (symmetry; apply Z.eqb_neq; congruence).
  simpl. by rewrite IH.
Qed.

Lemma found_and_filtered (id : Z) (fields : list NestedField) (field : NestedField) :
  NoDup (map field_id fields) ->
  List.find (fun f => field_id f =? id) fields = Some field ->
  field :: List.filter (fun f => negb (field_id f =? id)) fields ≡ₚ fields.
Proof.
  induction fields as [|f fields IH]; simpl; intros Hnodup Hfind; [discriminate|].
  apply NoDup_cons in Hnodup as [Hnotin Hnodup].
  destruct (field_id f =? id) eqn:E; simpl.
  - injection Hfind as <-. apply Z.eqb_eq in E. subst id.
    by rewrite filter_keeps_other_ids.
  - rewrite <- (IH Hnodup Hfind) at 2. apply Permutation_swap.
Qed.

Lemma insert_at_permutation (i : nat) (field : NestedField) (reordered : list NestedField) :
  insert_at i field reordered ≡ₚ field :: reordered.
Proof.
  unfold insert_at. rewrite <- Permutation_middle. by rewrite take_drop.
Qed.

Lemma position_of_id (id : Z) (reordered : list NestedField) :
  id ∈ map field_id reordered -> exists i, position_of id reordered = Ok i.
Proof.
  induction reordered as [|f reordered IH]; simpl; intros Hin.
  - by apply elem_of_nil in Hin.
  - destruct (field_id f =? id) eqn:E; [by eexists|].
    apply elem_of_cons in Hin as [->|Hin]; [by rewrite Z.eqb_refl in E|].
    destruct (IH Hin) as [i ->]. by eexists.
Qed.

Lemma other_id_survives (id other : Z) (fields : list NestedField) :
  other ∈ map field_id fields ->
  other <> id ->
  other ∈ map field_id (List.filter (fun f => negb (field_id f =? id)) fields).
Proof.
  intros Hin Hne. apply list_elem_of_fmap in Hin as (f & -> & Hf).
  apply list_elem_of_fmap. exists f. split; [reflexivity|].
  apply list_elem_of_In, filter_In. split; [by apply list_elem_of_In|].
  apply negb_true_iff, Z.eqb_neq. exact Hne.
Qed.

Lemma move_one_permutation (fields : list NestedField) (move : Move) :
  NoDup (map field_id fields) ->
  names_fields fields move ->
  exists reordered, move_one fields move = Ok reordered /\ reordered ≡ₚ fields.
Proof.
  intros Hnodup [Hid Hother]. unfold move_one.
  destruct (find_by_id _ _ Hid) as (field & Hfind & Hfield). rewrite Hfind.
  pose proof (found_and_filtered _ _ _ Hnodup Hfind) as Hperm.
  destruct (op move) eqn:Hop.
  - by eexists.
  - destruct Hother as (other & -> & Hin & Hne); [done|].
    destruct (position_of_id other _ (other_id_survives _ _ _ Hin Hne)) as [i ->].
    eexists. split; [reflexivity|]. by rewrite insert_at_permutation.
  - destruct Hother as (other & -> & Hin & Hne); [done|].
    destruct (position_of_id other _ (other_id_survives _ _ _ Hin Hne)) as [i ->].
    eexists. split; [reflexivity|]. by rewrite insert_at_permutation.
Qed.

(** [_move_fields] only reorders.  On fields with distinct ids, and for
    moves that name fields of the list (and, for [Before] and [After],
    another field of the list), [_move_fields] returns, and its result holds
    exactly the fields it was given: none is lost and none is doubled. *)
Lemma move_fields_only_reorders (fields : list NestedField) (moves : list Move) :
  NoDup (map field_id fields) ->
  Forall (names_fields fields) moves ->
  exists reordered, _move_fields fields moves = Ok reordered /\ reordered ≡ₚ fields.
Proof.
  intros Hnodup Hmoves. revert fields Hnodup Hmoves.
  induction moves as [|move moves IH]; intros fields Hnodup Hmoves; simpl.
  - by eexists.
  - apply Forall_cons in Hmoves as [Hmove Hmoves].
    destruct (move_one_permutation fields move Hnodup Hmove) as (reordered & -> & Hperm).
    cbn [mbind result_bind].
    destruct (IH reordered) as (final & -> & Hfinal).
    + by rewrite Hperm.
    + eapply Forall_impl; [exact Hmoves|]. intros m [Hid Hother]. split.
      * by rewrite Hperm.
      * intros Hop. destruct (Hother Hop) as (other & ? & ? & ?).
        exists other. by rewrite Hperm.
    + eexists. split; [reflexivity|]. by rewrite Hfinal.
Qed.

(** Membership in a list of literals. *)
Ltac not_in_list :=
  let Hin := fresh "Hin" in
  unfold TABLE_ROOT_ID; simpl; intros Hin;
  repeat (apply elem_of_cons in Hin as [Hin|Hin]; [discriminate|]);
  by apply elem_of_nil in Hin.

Lemma moves_never_reach_the_schema_witness :
  UpdateSchema._apply (fst (UpdateSchema.move_first (PathString "data") Scenario.builder))
    = UpdateSchema._apply Scenario.builder
  /\ UpdateSchema._apply
       (fst (UpdateSchema.move_before (PathString "data") (PathString "id") Scenario.builder))
     = UpdateSchema._apply Scenario.builder
  /\ UpdateSchema._apply
       (fst (UpdateSchema.move_after (PathString "id") (PathString "data") Scenario.builder))
     = UpdateSchema._apply Scenario.builder.
Proof.
  split; [|split].
  - apply (moves_never_reach_the_schema Scenario.builder (PathString "data")
             (PathString "id")); [reflexivity|not_in_list].
  - apply (moves_never_reach_the_schema Scenario.builder (PathString "data")
             (PathString "id")); [reflexivity|not_in_list].
  - apply (moves_never_reach_the_schema Scenario.builder (PathString "id")
             (PathString "data")); [reflexivity|not_in_list].
Defined.

Lemma top_level_addition_blocks_commit_witness :
  exists e,
    @UpdateSchema.commit _ Scenario.accepting_catalog
      (UpdateSchema.after_calls Scenario.renamed_and_added
         [UpdateSchema.CallUpdateColumn (PathString "id") (Primitive LongType)],
       Scenario.schema_world)
    = ((UpdateSchema.after_calls Scenario.renamed_and_added
          [UpdateSchema.CallUpdateColumn (PathString "id") (Primitive LongType)],
        Scenario.schema_world), Raise e).
Proof.
  exact (top_level_addition_blocks_commit Scenario.renamed Scenario.renamed_and_added
           "extra" (Primitive LongType) None false
           [UpdateSchema.CallUpdateColumn (PathString "id") (Primitive LongType)]
           Scenario.schema_world eq_refl).
Defined.

Lemma apply_on_flat_schema_witness :
  UpdateSchema._apply
    (fst (UpdateSchema.update_column (PathString "id") (Primitive LongType) Scenario.builder))
    = Ok (Schema.mk [mkNestedField 1 "id" (Primitive LongType) false None;
                     mkNestedField 2 "data" (Primitive StringType) false None] 0 [])
  /\ UpdateSchema._apply Scenario.renamed
     = Raise (ValueError (CannotAddIdentifierField "payload")).
Proof.
  split.
  - refine (apply_on_flat_schema
              (fst (UpdateSchema.update_column (PathString "id") (Primitive LongType)
                      Scenario.builder)) _ eq_refl _).
    + repeat constructor.
    + intros f _. reflexivity.
  - refine (apply_on_flat_schema Scenario.renamed _ eq_refl _).
    + repeat constructor.
    + intros f _. reflexivity.
Defined.

Lemma move_fields_only_reorders_witness :
  exists reordered,
    _move_fields (Schema.fields Scenario.id_data_schema)
                 [mkMove 2 First None; mkMove 1 Before (Some 2)] = Ok reordered
    /\ reordered ≡ₚ Schema.fields Scenario.id_data_schema.
Proof.
  apply (move_fields_only_reorders (Schema.fields Scenario.id_data_schema)
           [mkMove 2 First None; mkMove 1 Before (Some 2)]).
  - simpl. apply NoDup_cons. split; [not_in_list|]. apply NoDup_singleton.
  - apply Forall_cons. split; [|apply Forall_cons; split; [|by apply Forall_nil]].
    + split; [simpl; right; by left|]. intros Hop. by destruct Hop.
    + split; [simpl; by left|]. intros _. exists 2.
      split; [reflexivity|]. split; [simpl; right; by left|simpl; lia].
Defined.
